(** * PF-GUGUBot vote manager: a shallow embedding of
      [gugubot/utils/vote_manager.py] and its specification.

    Conventions of the embedding.
    - Python [int] is [Z]; [len(...)] is [Z.of_nat] of a size.
    - A Python [float] is the rational number [Q] that the double stands
      for.  An arithmetic operation on floats is the exact operation
      followed by [Float.round], the rounding to the nearest binary64 number
      with ties to the even mantissa: [int / int] is [Float.truediv], a
      product is [Float.mul], the conversion of an [int] is [Float.of_int].
      Comparisons of floats are the exact comparisons of [Q].  Infinities
      and NaN have no counterpart: the quantities rounded here are shares
      in [0, 1], products bounded by a size and a remaining time, all far
      below the binary64 overflow threshold [2^1024].
    - [time.time()] is an input: every function that reads the clock takes
      the reading as its argument [now].  The difference of two readings of
      the clock, and of a reading and a retention window, is taken exactly:
      doubles within a factor two of each other, and a double below [2^53]
      less a smaller whole number, are subtracted without rounding.
    - [Set[str]] is [gset string]; [add] is a union with a singleton and
      [discard] a difference.
    - A method that mutates [self] returns its result paired with the new
      object.
    - [Dict[str, Vote]] of the manager is an association list in insertion
      order, as iteration over a Python dict follows that order.  The
      registry's two dicts are only read by key and are [gmap]s.
    - The logger only prints; it is left out. *)

From Stdlib Require Import ZArith QArith Qminmax Lqa Ascii Qround Qabs Qpower.
From Corelib Require SpecFloat.
From stdpp Require Import base decidable option list sets gmap strings pretty.

Local Open Scope Z_scope.

(** ** Floats: Python's comparison operators and [int()] *)

Definition Qgeb (a b : Q) : bool := Qle_bool b a.
Definition Qltb (a b : Q) : bool := negb (Qle_bool b a).
Definition Qgtb (a b : Q) : bool := negb (Qle_bool a b).

(** [int(x)] truncates towards zero. *)
Definition py_int (x : Q) : Z := Z.quot (Qnum x) (Z.pos (Qden x)).

(** ** Floats: binary64 arithmetic *)

Module Float.

(** The nearest integer, the even one of two that are equally near. *)
Definition rne (x : Q) : Z :=
  let f := Qfloor x in
  match (x - inject_Z f ?= 1 # 2)%Q with
  | Lt => f
  | Eq => if Z.even f then f else f + 1
  | Gt => f + 1
  end.

(** [floor (log2 x)] of a positive [x]: the quotient of a numerator of [a+1]
    bits by a denominator of [b+1] bits lies between [2^(a-b-1)] and
    [2^(a-b+1)]. *)
Definition ilog2 (x : Q) : Z :=
  let l := Z.log2 (Qnum x) - Z.log2 (Z.pos (Qden x)) in
  if Qle_bool (2 ^ l) x then l else l - 1.

(** The exponent of the unit in the last place of [x]: a mantissa of 53
    bits, and the exponent of the subnormal numbers at the bottom. *)
Definition ulp_exp (x : Q) : Z := Z.max (ilog2 (Qabs x) - 52) (-1074).

(** The double nearest to [x], ties to even. *)
Definition round (x : Q) : Q :=
  if Qeq_bool x 0 then 0%Q
  else let e := ulp_exp x in (inject_Z (rne (x * 2 ^ (- e))) * 2 ^ e)%Q.

(** [float(n)], also applied by Python where an [int] meets a [float]. *)
Definition of_int (n : Z) : Q := round (inject_Z n).

(** [a / b] on two [int]s: the correctly rounded quotient. *)
Definition truediv (a b : Z) : Q := round (inject_Z a / inject_Z b).

(** [x * y] and [x - y] on two [float]s. *)
Definition mul (x y : Q) : Q := round (x * y).
Definition sub (x y : Q) : Q := round (x - y).

(** The value of a finite float of the Standard Library's specification of
    IEEE 754 arithmetic, and the binary64 number for an integer there. *)
Definition of_spec (x : SpecFloat.spec_float) : option Q :=
  match x with
  | SpecFloat.S754_zero _ => Some 0%Q
  | SpecFloat.S754_finite s m e =>
      Some ((if s then -1 else 1) * inject_Z (Z.pos m) * 2 ^ e)%Q
  | _ => None
  end.

Definition spec_of_int (n : Z) : SpecFloat.spec_float :=
  SpecFloat.binary_normalize 53 1024 n 0 false.

(** Agreement with the Standard Library's specification on one share, and
    on the product of a number with one share. *)
Definition same_value (x : SpecFloat.spec_float) (q : Q) : bool :=
  match of_spec x with
  | Some q' => Qeq_bool q' q
  | None => false
  end.

Definition truediv_agrees (ab : Z * Z) : bool :=
  same_value
    (SpecFloat.SFdiv 53 1024 (spec_of_int ab.1) (spec_of_int ab.2))
    (truediv ab.1 ab.2).

Definition mul_agrees (n : Z) (ab : Z * Z) : bool :=
  same_value
    (SpecFloat.SFmul 53 1024 (spec_of_int n)
       (SpecFloat.SFdiv 53 1024 (spec_of_int ab.1) (spec_of_int ab.2)))
    (mul (of_int n) (truediv ab.1 ab.2)).

(** The shares [a / b] with [0 <= a <= b <= n] and [1 <= b]. *)
Definition shares_up_to (n : nat) : list (Z * Z) :=
  b ← seq 1 n; a ← seq 0 (S b); [(Z.of_nat a, Z.of_nat b)].

End Float.

(** ** [VoteStatus] *)

Inductive VoteStatus : Type :=
  | PENDING
  | PASSED
  | REJECTED
  | CANCELLED
  | TIMEOUT
  | ERROR.

#[global] Instance VoteStatus_eq_dec : EqDecision VoteStatus.
Proof. solve_decision. Defined.

(** [status.value] *)
Definition VoteStatus_value (s : VoteStatus) : string :=
  match s with
  | PENDING => "pending"
  | PASSED => "passed"
  | REJECTED => "rejected"
  | CANCELLED => "cancelled"
  | TIMEOUT => "timeout"
  | ERROR => "error"
  end.

(** A callback is a reference to a Python callable; this module stores it
    and never calls it. *)
Definition Callback : Type := positive.

(** A lookup [d[k]] that raises when the key is missing. *)
Inductive result (A : Type) : Type :=
  | Ok (a : A)
  | KeyError (k : string).
Arguments Ok {A} a.
Arguments KeyError {A} k.

(** ** [VoteTypeConfig] *)

Module VoteTypeConfig.

Record t : Type := mk {
  vote_type : string;
  name_key : string;
  description_key : string;
  required_percentage : Q;
  timeout : Q;
  callback : option Callback;
  start_keywords : list string;
  consult_keywords : list string
}.

(** The dataclass constructor followed by [__post_init__]: a missing
    keyword list becomes the empty list. *)
Definition init (vote_type name_key description_key : string)
    (required_percentage timeout : Q) (callback : option Callback)
    (start_keywords consult_keywords : option (list string)) : t :=
  {| vote_type := vote_type;
     name_key := name_key;
     description_key := description_key;
     required_percentage := required_percentage;
     timeout := timeout;
     callback := callback;
     start_keywords := default [] start_keywords;
     consult_keywords := default [] consult_keywords |}.

End VoteTypeConfig.

(** ** [VoteTypeRegistry] *)

Module VoteTypeRegistry.

Record t : Type := mk {
  _registry : gmap string VoteTypeConfig.t;
  _keyword_map : gmap string string
}.

Definition init : t := {| _registry := ∅; _keyword_map := ∅ |}.

(** [for keyword in keywords: keyword_map[keyword] = vote_type] *)
Definition map_keywords (vote_type : string) (keywords : list string)
    (keyword_map : gmap string string) : gmap string string :=
  foldl (λ km keyword, <[keyword := vote_type]> km) keyword_map keywords.

Definition register (config : VoteTypeConfig.t) (self : t) : bool * t :=
  if decide (is_Some (_registry self !! VoteTypeConfig.vote_type config))
  then (false, self)
  else
    let registry := <[VoteTypeConfig.vote_type config := config]> (_registry self) in
    let km1 := map_keywords (VoteTypeConfig.vote_type config)
                 (VoteTypeConfig.start_keywords config) (_keyword_map self) in
    let km2 := map_keywords (VoteTypeConfig.vote_type config)
                 (VoteTypeConfig.consult_keywords config) km1 in
    (true, {| _registry := registry; _keyword_map := km2 |}).

Definition unregister (vote_type : string) (self : t) : bool * t :=
  match _registry self !! vote_type with
  | None => (false, self)
  | Some config =>
      let km := foldl (λ km keyword, delete keyword km) (_keyword_map self)
                  (VoteTypeConfig.start_keywords config
                   ++ VoteTypeConfig.consult_keywords config) in
      (true, {| _registry := delete vote_type (_registry self);
                _keyword_map := km |})
  end.

Definition get_config (vote_type : string) (self : t) : option VoteTypeConfig.t :=
  _registry self !! vote_type.

Definition get_by_keyword (keyword : string) (self : t)
    : result (option (VoteTypeConfig.t * bool)) :=
  match _keyword_map self !! keyword with
  | None => Ok None
  | Some vote_type =>
      match _registry self !! vote_type with
      | None => KeyError vote_type
      | Some config =>
          Ok (Some (config,
                    bool_decide (keyword ∈ VoteTypeConfig.consult_keywords config)))
      end
  end.

Definition is_registered (vote_type : string) (self : t) : bool :=
  bool_decide (is_Some (_registry self !! vote_type)).

(** [get_all_configs]: a copy of the kind map. *)
Definition get_all_configs (self : t) : gmap string VoteTypeConfig.t :=
  _registry self.

(** [clear] *)
Definition clear (self : t) : t := {| _registry := ∅; _keyword_map := ∅ |}.

(** The calls that change a registry, for statements about sequences. *)
Inductive call : Type :=
  | Register (config : VoteTypeConfig.t)
  | Unregister (vote_type : string)
  | Clear.

Definition exec (c : call) (self : t) : t :=
  match c with
  | Register config => snd (register config self)
  | Unregister vote_type => snd (unregister vote_type self)
  | Clear => clear self
  end.

Definition exec_all (cs : list call) (self : t) : t :=
  foldl (λ r c, exec c r) self cs.

End VoteTypeRegistry.

(** ** The dict returned by [Vote.get_progress] *)

Module Progress.

Record t : Type := mk {
  vote_id : string;
  type : string;
  status : string;
  description : string;
  initiator : string;
  total_voters : Z;
  yes_votes : Z;
  no_votes : Z;
  not_voted : Z;
  voted_count : Z;
  current_percentage : Q;
  required_percentage : Q;
  required_yes : Z;
  elapsed_time : Q;
  remaining_time : Q;
  timeout : Q
}.

End Progress.

(** ** [Vote] *)

Module Vote.

Record t : Type := mk {
  vote_id : string;
  vote_type : string;
  initiator : string;
  initiator_id : string;
  eligible_voters : gset string;
  required_percentage : Q;
  timeout : Q;
  callback : option Callback;
  description : string;
  index : Z;
  yes_votes : gset string;
  no_votes : gset string;
  status : VoteStatus;
  start_time : Q
}.

(** [Vote.__init__]; [now] is the reading of [time.time()]. *)
Definition init (now : Q) (vote_id vote_type initiator initiator_id : string)
    (eligible_voters : gset string) (required_percentage timeout : Q)
    (callback : option Callback) (description : string) (index : Z) : t :=
  {| vote_id := vote_id;
     vote_type := vote_type;
     initiator := initiator;
     initiator_id := initiator_id;
     eligible_voters := eligible_voters;
     required_percentage := Qmax 0 (Qmin 1 required_percentage);
     timeout := timeout;
     callback := callback;
     description := description;
     index := index;
     yes_votes := ∅;
     no_votes := ∅;
     status := PENDING;
     start_time := now |}.

(** Assignments to the mutable attributes. *)
Definition set_votes (yes no : gset string) (self : t) : t :=
  {| vote_id := vote_id self;
     vote_type := vote_type self;
     initiator := initiator self;
     initiator_id := initiator_id self;
     eligible_voters := eligible_voters self;
     required_percentage := required_percentage self;
     timeout := timeout self;
     callback := callback self;
     description := description self;
     index := index self;
     yes_votes := yes;
     no_votes := no;
     status := status self;
     start_time := start_time self |}.

Definition set_status (s : VoteStatus) (self : t) : t :=
  {| vote_id := vote_id self;
     vote_type := vote_type self;
     initiator := initiator self;
     initiator_id := initiator_id self;
     eligible_voters := eligible_voters self;
     required_percentage := required_percentage self;
     timeout := timeout self;
     callback := callback self;
     description := description self;
     index := index self;
     yes_votes := yes_votes self;
     no_votes := no_votes self;
     status := s;
     start_time := start_time self |}.

(** [Vote.cast_vote]: the pair is (success, is_new_vote). *)
Definition cast_vote (voter_id : string) (vote_yes : bool) (self : t)
    : (bool * bool) * t :=
  if decide (status self ≠ PENDING) then ((false, false), self)
  else if decide (voter_id ∉ eligible_voters self) then ((false, false), self)
  else
    let is_new_vote :=
      andb (bool_decide (voter_id ∉ yes_votes self))
           (bool_decide (voter_id ∉ no_votes self)) in
    let yes1 := yes_votes self ∖ {[voter_id]} in
    let no1 := no_votes self ∖ {[voter_id]} in
    if vote_yes
    then ((true, is_new_vote), set_votes (yes1 ∪ {[voter_id]}) no1 self)
    else ((true, is_new_vote), set_votes yes1 (no1 ∪ {[voter_id]}) self).

(** [Vote.withdraw_vote] *)
Definition withdraw_vote (voter_id : string) (self : t) : bool * t :=
  if decide (status self ≠ PENDING) then (false, self)
  else if decide (voter_id ∉ eligible_voters self) then (false, self)
  else if decide ((voter_id ∉ yes_votes self) ∧ (voter_id ∉ no_votes self))
  then (false, self)
  else
    (true, set_votes (yes_votes self ∖ {[voter_id]})
                     (no_votes self ∖ {[voter_id]}) self).

(** The counts and the two fractions computed by [check_result], with the
    source's guard on the denominator. *)
Definition total_voters (self : t) : Z := Z.of_nat (size (eligible_voters self)).
Definition yes_count (self : t) : Z := Z.of_nat (size (yes_votes self)).
Definition no_count (self : t) : Z := Z.of_nat (size (no_votes self)).

Definition current_percentage (self : t) : Q :=
  if 0 <? total_voters self
  then Float.truediv (yes_count self) (total_voters self)
  else 0%Q.

Definition max_possible (self : t) : Q :=
  let voted_count := yes_count self + no_count self in
  let remaining := total_voters self - voted_count in
  if 0 <? total_voters self
  then Float.truediv (yes_count self + remaining) (total_voters self)
  else 0%Q.

(** [Vote.check_result]; [None] is "no result yet". *)
Definition check_result (now : Q) (self : t) : option VoteStatus * t :=
  if decide (status self ≠ PENDING) then (Some (status self), self)
  else if total_voters self =? 0 then (None, self)
  else if Qgeb (current_percentage self) (required_percentage self)
  then (Some PASSED, set_status PASSED self)
  else if Qltb (max_possible self) (required_percentage self)
  then (Some REJECTED, set_status REJECTED self)
  else if Qgtb (now - start_time self)%Q (timeout self)
  then (Some TIMEOUT, set_status TIMEOUT self)
  else (None, self).

(** [Vote.cancel] *)
Definition cancel (self : t) : bool * t :=
  if decide (status self ≠ PENDING) then (false, self)
  else (true, set_status CANCELLED self).

(** The calls that reach one ballot, for statements about sequences. *)
Inductive call : Type :=
  | Cast (voter_id : string) (vote_yes : bool)
  | Withdraw (voter_id : string)
  | CheckResult (now : Q)
  | Cancel.

Definition exec (c : call) (self : t) : t :=
  match c with
  | Cast voter_id vote_yes => snd (cast_vote voter_id vote_yes self)
  | Withdraw voter_id => snd (withdraw_vote voter_id self)
  | CheckResult now => snd (check_result now self)
  | Cancel => snd (cancel self)
  end.

Definition exec_all (cs : list call) (self : t) : t :=
  foldl (λ v c, exec c v) self cs.

(** [Vote.get_progress]; [now] is the reading of [time.time()]. *)
Definition get_progress (now : Q) (self : t) : Progress.t :=
  let total := Z.of_nat (size (eligible_voters self)) in
  let yes_count := Z.of_nat (size (yes_votes self)) in
  let no_count := Z.of_nat (size (no_votes self)) in
  let voted_count := yes_count + no_count in
  let remaining := total - voted_count in
  let current_percentage :=
    if 0 <? total
    then Float.mul (Float.truediv yes_count total) (Float.of_int 100)
    else 0%Q in
  let required_yes :=
    py_int (Float.mul (Float.of_int total) (required_percentage self)) in
  let elapsed := (now - start_time self)%Q in
  let remaining_time := Qmax 0 (Float.sub (timeout self) elapsed) in
  {| Progress.vote_id := vote_id self;
     Progress.type := vote_type self;
     Progress.status := VoteStatus_value (status self);
     Progress.description := description self;
     Progress.initiator := initiator self;
     Progress.total_voters := total;
     Progress.yes_votes := yes_count;
     Progress.no_votes := no_count;
     Progress.not_voted := remaining;
     Progress.voted_count := voted_count;
     Progress.current_percentage := current_percentage;
     Progress.required_percentage :=
       Float.mul (required_percentage self) (Float.of_int 100);
     Progress.required_yes := required_yes;
     Progress.elapsed_time := elapsed;
     Progress.remaining_time := remaining_time;
     Progress.timeout := timeout self |}.

End Vote.

(** ** Python dicts that are iterated: association lists in insertion order *)

Module Dict.

Definition t (V : Type) : Type := list (string * V).

(** [d.get(k)] *)
Fixpoint get {V} (k : string) (d : t V) : option V :=
  match d with
  | [] => None
  | (k', v) :: d' => if decide (k' = k) then Some v else get k d'
  end.

(** [d[k] = v]: an existing key keeps its place, a new key goes last. *)
Fixpoint set {V} (k : string) (v : V) (d : t V) : t V :=
  match d with
  | [] => [(k, v)]
  | (k', v') :: d' =>
      if decide (k' = k) then (k, v) :: d' else (k', v') :: set k v d'
  end.

(** [del d[k]] for a key of [d]. *)
Fixpoint del {V} (k : string) (d : t V) : t V :=
  match d with
  | [] => []
  | (k', v') :: d' => if decide (k' = k) then d' else (k', v') :: del k d'
  end.

Definition keys {V} (d : t V) : list string := d.*1.
Definition values {V} (d : t V) : list V := d.*2.

(** The keys of a dict are distinct. *)
Definition wf {V} (d : t V) : Prop := NoDup (keys d).

End Dict.

(** ** [VoteManager] *)

Module VoteManager.

Record t : Type := mk {
  active_votes : Dict.t Vote.t;
  _vote_counter : Z
}.

Definition init : t := {| active_votes := []; _vote_counter := 0 |}.

(** [get_all_pending_votes] *)
Definition get_all_pending_votes (self : t) : list Vote.t :=
  filter (λ vote, Vote.status vote = PENDING) (Dict.values (active_votes self)).

(** The f-string [f"{vote_type}_{counter}_{int(time.time())}"]. *)
Definition make_vote_id (vote_type : string) (counter : Z) (now : Q) : string :=
  vote_type +:+ "_" +:+ pretty counter +:+ "_" +:+ pretty (py_int now).

(** [create_vote]; the clock is read twice: [now_id] for the id and [now]
    inside [Vote.__init__]. *)
Definition create_vote (now_id now : Q) (vote_type initiator initiator_id : string)
    (eligible_voters : gset string) (required_percentage timeout : Q)
    (callback : option Callback) (description : string) (self : t)
    : option Vote.t * t :=
  if decide (Exists (λ vote, Vote.vote_type vote = vote_type
                             ∧ Vote.status vote = PENDING)
                    (Dict.values (active_votes self)))
  then (None, self)
  else
    let counter := _vote_counter self + 1 in
    let vote_id := make_vote_id vote_type counter now_id in
    let pending_count := Z.of_nat (length (get_all_pending_votes self)) in
    let index := pending_count + 1 in
    let vote := Vote.init now vote_id vote_type initiator initiator_id
                  eligible_voters required_percentage timeout callback
                  description index in
    (Some vote, {| active_votes := Dict.set vote_id vote (active_votes self);
                   _vote_counter := counter |}).

(** [get_vote] *)
Definition get_vote (vote_id : string) (self : t) : option Vote.t :=
  Dict.get vote_id (active_votes self).

(** [get_vote_by_index]: the first match in iteration order. *)
Definition get_vote_by_index (index : Z) (self : t) : option Vote.t :=
  List.find (λ vote, bool_decide (Vote.status vote = PENDING
                                  ∧ Vote.index vote = index))
            (Dict.values (active_votes self)).

(** [get_pending_vote_by_type] *)
Definition get_pending_vote_by_type (vote_type : string) (self : t)
    : option Vote.t :=
  List.find (λ vote, bool_decide (Vote.vote_type vote = vote_type
                                  ∧ Vote.status vote = PENDING))
            (Dict.values (active_votes self)).

(** A method of the ballot stored under [vote_id] mutates the object the
    dict holds: the new object is stored back under its key. *)
Definition store (vote_id : string) (vote : Vote.t) (self : t) : t :=
  {| active_votes := Dict.set vote_id vote (active_votes self);
     _vote_counter := _vote_counter self |}.

(** [cast_vote] *)
Definition cast_vote (vote_id voter_id : string) (vote_yes : bool) (self : t)
    : (bool * bool) * t :=
  match get_vote vote_id self with
  | None => ((false, false), self)
  | Some vote =>
      let '(r, vote') := Vote.cast_vote voter_id vote_yes vote in
      (r, store vote_id vote' self)
  end.

(** The abstain handler of [logic/system/vote.py] calls
    [vote.withdraw_vote] on a ballot it got from the manager. *)
Definition withdraw_vote (vote_id voter_id : string) (self : t) : bool * t :=
  match get_vote vote_id self with
  | None => (false, self)
  | Some vote =>
      let '(r, vote') := Vote.withdraw_vote voter_id vote in
      (r, store vote_id vote' self)
  end.

(** [delete_vote] *)
Definition delete_vote (vote_id : string) (self : t) : bool * t :=
  match get_vote vote_id self with
  | None => (false, self)
  | Some vote =>
      let '(r, vote') := Vote.cancel vote in
      (r, store vote_id vote' self)
  end.

(** [check_and_finalize_vote] *)
Definition check_and_finalize_vote (now : Q) (vote_id : string) (self : t)
    : option VoteStatus * t :=
  match get_vote vote_id self with
  | None => (None, self)
  | Some vote =>
      let '(r, vote') := Vote.check_result now vote in
      (r, store vote_id vote' self)
  end.

(** The test of the sweep's first loop on one entry. *)
Definition expired (cutoff_time : Q) (vote : Vote.t) : bool :=
  if decide (Vote.status vote ≠ PENDING)
  then Qltb (Vote.start_time vote) cutoff_time
  else false.

(** [cleanup_finished_votes] *)
Definition cleanup_finished_votes (now : Q) (keep_recent_minutes : Z) (self : t)
    : Z * t :=
  let keep_recent_minutes :=
    if keep_recent_minutes <? 0 then 0 else keep_recent_minutes in
  let current_time := now in
  let cutoff_time := (current_time - inject_Z (keep_recent_minutes * 60))%Q in
  let to_remove :=
    (List.filter (λ kv, expired cutoff_time kv.2) (active_votes self)).*1 in
  let active_votes' :=
    foldl (λ d vote_id, Dict.del vote_id d) (active_votes self) to_remove in
  (Z.of_nat (length to_remove),
   {| active_votes := active_votes'; _vote_counter := _vote_counter self |}).

(** The calls that reach the manager, for statements about sequences. *)
Inductive call : Type :=
  | CreateVote (now_id now : Q) (vote_type initiator initiator_id : string)
      (eligible_voters : gset string) (required_percentage timeout : Q)
      (callback : option Callback) (description : string)
  | CastVote (vote_id voter_id : string) (vote_yes : bool)
  | WithdrawVote (vote_id voter_id : string)
  | DeleteVote (vote_id : string)
  | CheckAndFinalize (now : Q) (vote_id : string)
  | Cleanup (now : Q) (keep_recent_minutes : Z).

Definition exec (c : call) (self : t) : t :=
  match c with
  | CreateVote now_id now vote_type initiator initiator_id eligible_voters
      required_percentage timeout callback description =>
      snd (create_vote now_id now vote_type initiator initiator_id eligible_voters
             required_percentage timeout callback description self)
  | CastVote vote_id voter_id vote_yes =>
      snd (cast_vote vote_id voter_id vote_yes self)
  | WithdrawVote vote_id voter_id => snd (withdraw_vote vote_id voter_id self)
  | DeleteVote vote_id => snd (delete_vote vote_id self)
  | CheckAndFinalize now vote_id => snd (check_and_finalize_vote now vote_id self)
  | Cleanup now keep_recent_minutes =>
      snd (cleanup_finished_votes now keep_recent_minutes self)
  end.

Definition exec_all (cs : list call) (self : t) : t :=
  foldl (λ m c, exec c m) self cs.

(** The display indices of the ballots that are open, in iteration order. *)
Definition pending_indices (self : t) : list Z :=
  Vote.index <$> get_all_pending_votes self.

(** The indices [1, ..., n]. *)
Definition one_to (n : nat) : list Z := Z.of_nat <$> seq 1 n.

(** The open ballots carry exactly the indices [1..N], each once. *)
Definition dense_indices (self : t) : Prop :=
  pending_indices self ≡ₚ one_to (length (get_all_pending_votes self)).

(** Every ballot of the manager is open. *)
Definition all_open (self : t) : Prop :=
  Forall (λ vote, Vote.status vote = PENDING) (Dict.values (active_votes self)).

(** No call of the sequence leaves a ballot closed. *)
Fixpoint never_resolved (cs : list call) (self : t) : Prop :=
  match cs with
  | [] => True
  | c :: cs' => all_open (exec c self) ∧ never_resolved cs' (exec c self)
  end.

End VoteManager.

(** ** The administrative handlers of [logic/system/vote.py] *)

Module VoteSystem.

(** What a handler sends: a reply to the sender or a broadcast, named by
    its translation key; the broadcast of [_handle_remove_all] carries the
    count.  The texts of the messages and the cancellation of the monitor
    task are left out. *)
Inductive output : Type :=
  | Reply (tr_key : string)
  | Broadcast (tr_key : string) (count : option Z).

(** The loop [for vote in pending_votes: if delete_vote(vote.vote_id):
    count += 1]. *)
Definition delete_each (pending_votes : list Vote.t) (m : VoteManager.t)
    : Z * VoteManager.t :=
  foldl (λ (acc : Z * VoteManager.t) vote,
           let '(ok, m') := VoteManager.delete_vote (Vote.vote_id vote) acc.2 in
           (if ok then acc.1 + 1 else acc.1, m'))
        (0, m) pending_votes.

(** [_handle_remove_all] *)
Definition _handle_remove_all (is_admin : bool) (m : VoteManager.t)
    : list output * VoteManager.t :=
  if negb is_admin then ([Reply "admin_only"], m)
  else
    let pending_votes := VoteManager.get_all_pending_votes m in
    match pending_votes with
    | [] => ([Reply "no_pending_votes"], m)
    | _ :: _ =>
        let '(count, m') := delete_each pending_votes m in
        ([Broadcast "all_votes_removed" (Some count)], m')
    end.

(** [_handle_delete]: the keyword that cancels the only open ballot. *)
Definition _handle_delete (m : VoteManager.t) : list output * VoteManager.t :=
  let pending_votes := VoteManager.get_all_pending_votes m in
  match pending_votes with
  | [] => ([Reply "no_active_vote"], m)
  | [vote] =>
      let '(success, m') := VoteManager.delete_vote (Vote.vote_id vote) m in
      if success then ([Broadcast "vote_deleted" None], m') else ([], m')
  | _ :: _ :: _ => ([Reply "multiple_votes_cancel"], m)
  end.

(** [_select_vote_for_abstain]: the ballot chosen, or the reply sent when
    none is. *)
Definition _select_vote_for_abstain (pending_votes : list Vote.t)
    (index : option Z) (m : VoteManager.t) : list output * option Vote.t :=
  match index with
  | Some i =>
      match VoteManager.get_vote_by_index i m with
      | None => ([Reply "vote_not_found"], None)
      | Some vote => ([], Some vote)
      end
  | None =>
      match pending_votes with
      | [vote] => ([], Some vote)
      | _ => ([Reply "multiple_votes_specify_abstain"], None)
      end
  end.

(** [_handle_abstain_keyword]; [actual_voter_id] is the result of the
    awaited [_get_voter_id_from_boardcast], which is falsy when it is
    [None] or the empty string.  The handler calls [withdraw_vote] on the
    ballot object it selected, which the manager holds under the ballot's
    id. *)
Definition _handle_abstain_keyword (actual_voter_id : option string)
    (index : option Z) (m : VoteManager.t) : list output * VoteManager.t :=
  let pending_votes := VoteManager.get_all_pending_votes m in
  match pending_votes with
  | [] => ([Reply "no_active_vote"], m)
  | _ :: _ =>
      match _select_vote_for_abstain pending_votes index m with
      | (out, None) => (out, m)
      | (_, Some vote) =>
          match actual_voter_id with
          | None => ([Reply "not_eligible"], m)
          | Some voter =>
              if decide (voter = EmptyString) then ([Reply "not_eligible"], m)
              else if decide (voter ∉ Vote.eligible_voters vote)
              then ([Reply "not_eligible"], m)
              else
                let '(success, m') :=
                  VoteManager.withdraw_vote (Vote.vote_id vote) voter m in
                if success then ([Broadcast "abstain_success" None], m')
                else ([Reply "not_voted_yet"], m')
          end
      end
  end.

End VoteSystem.

(** ** [BasicConfig.get_keys] of [config/basic_config.py] *)

Module BasicConfig.

(** A value loaded from JSON or YAML: a dict, or anything else (a string,
    a number, a list, [None]), which has no [get] method. *)
Inductive value : Type :=
  | VDict (entries : list (string * value))
  | VOther (repr : string).

(** What a call gives: a value or the exception it raises. *)
Inductive outcome : Type :=
  | Value (v : value)
  | AttributeError
  | IndexError.

(** [result.get(k, default)]; [None] when [result] has no [get]. *)
Definition get (k : string) (default : value) (result : value) : option value :=
  match result with
  | VDict entries => Some (from_option id default (Dict.get k entries))
  | VOther _ => None
  end.

(** The loop [for k in key[:-1]: result = result.get(k, {})]. *)
Fixpoint descend (keys : list string) (result : value) : option value :=
  match keys with
  | [] => Some result
  | k :: keys' =>
      match get k (VDict []) result with
      | Some result' => descend keys' result'
      | None => None
      end
  end.

(** [get_keys]; [self] is the config's own dict. *)
Definition get_keys (key : list string) (default : value)
    (self : list (string * value)) : outcome :=
  match descend (removelast key) (VDict self) with
  | None => AttributeError
  | Some result =>
      match result with
      | VOther _ => AttributeError
      | VDict _ =>
          match last key with
          | None => IndexError
          | Some k =>
              match get k default result with
              | Some v => Value v
              | None => AttributeError
              end
          end
      end
  end.

End BasicConfig.

(** ** [McMessageBuilder.replace_emoji_with_placeholder] of
       [builder/mc_builder.py] *)

Module McMessageBuilder.

(** A Python [str] is a sequence of code points. *)
Definition text : Type := list N.

(** The character class of [emoji_pattern]. *)
Definition is_emoji (c : N) : bool :=
  ((0x1f600 <=? c) && (c <=? 0x1f64f)
   || (0x1f300 <=? c) && (c <=? 0x1f5ff)
   || (0x1f680 <=? c) && (c <=? 0x1f6ff)
   || (0x1f700 <=? c) && (c <=? 0x1f77f)
   || (0x1f780 <=? c) && (c <=? 0x1f7ff)
   || (0x1f800 <=? c) && (c <=? 0x1f8ff)
   || (0x1f900 <=? c) && (c <=? 0x1f9ff)
   || (0x1fa00 <=? c) && (c <=? 0x1fa6f)
   || (0x1fa70 <=? c) && (c <=? 0x1faff)
   || (0x2600 <=? c) && (c <=? 0x26ff)
   || (0x2700 <=? c) && (c <=? 0x27bf))%N%bool.

(** The code points of the replacement, "[emoji]". *)
Definition placeholder : text := [91; 101; 109; 111; 106; 105; 93]%N.

(** [emoji_pattern.sub("[emoji]", text)]: every maximal run of characters
    of the class is replaced by one placeholder; [in_run] says that the
    character before belongs to a run already replaced. *)
Fixpoint sub_from (in_run : bool) (t : text) : text :=
  match t with
  | [] => []
  | c :: t' =>
      if is_emoji c
      then if in_run then sub_from true t' else placeholder ++ sub_from true t'
      else c :: sub_from false t'
  end.

Definition replace_emoji_with_placeholder (t : text) : text := sub_from false t.

End McMessageBuilder.


(** ** Predicates used in the statements *)

(** The character [c] does not occur in [s]. *)
Fixpoint free_of (c : ascii) (s : string) : Prop :=
  match s with
  | EmptyString => True
  | String a s' => a ≠ c ∧ free_of c s'
  end.

(** Every id of the manager was made from a counter value already used. *)
Definition ids_bounded (m : VoteManager.t) : Prop :=
  Forall (λ id, ∃ vote_type counter now,
            id = VoteManager.make_vote_id vote_type counter now
            ∧ counter ≤ VoteManager._vote_counter m)
         (Dict.keys (VoteManager.active_votes m)).

(** What holds of a manager on which no ballot was ever closed: all its
    ballots are open and carry, in creation order, the indices [1..N]. *)
Definition numbered (m : VoteManager.t) : Prop :=
  VoteManager.all_open m
  ∧ Vote.index <$> Dict.values (VoteManager.active_votes m)
    = VoteManager.one_to (length (VoteManager.active_votes m))
  ∧ ids_bounded m.

(** What holds of every ballot made by [Vote.init] and changed by calls. *)
Definition ballot_ok (v : Vote.t) : Prop :=
  Vote.yes_votes v ## Vote.no_votes v
  ∧ Vote.yes_votes v ∪ Vote.no_votes v ⊆ Vote.eligible_voters v
  ∧ Vote.status v ≠ ERROR
  ∧ (0 <= Vote.required_percentage v)%Q
  ∧ (Vote.required_percentage v <= 1)%Q.

(** The statuses in which a ballot is closed by the engine. *)
Definition closed_status (s : VoteStatus) : Prop :=
  s = PASSED ∨ s = REJECTED ∨ s = CANCELLED ∨ s = TIMEOUT.

(** The keywords of a config: the start keywords, then the consult ones. *)
Definition keywords_of (config : VoteTypeConfig.t) : list string :=
  VoteTypeConfig.start_keywords config ++ VoteTypeConfig.consult_keywords config.

(** What holds of every registry built by [register], [unregister] and
    [clear]: a config is stored under its own kind, and a keyword points
    to a registered kind that lists it. *)
Definition registry_ok (r : VoteTypeRegistry.t) : Prop :=
  (∀ vote_type config,
     VoteTypeRegistry._registry r !! vote_type = Some config →
     VoteTypeConfig.vote_type config = vote_type)
  ∧ (∀ keyword vote_type,
       VoteTypeRegistry._keyword_map r !! keyword = Some vote_type →
       ∃ config, VoteTypeRegistry._registry r !! vote_type = Some config
                 ∧ keyword ∈ keywords_of config).

(** What holds of every manager built from the empty one by its calls:
    the ids are distinct and made from used counter values, a ballot is
    stored under its own id, at most one open ballot exists per kind, and
    every ballot satisfies the ballot invariant. *)
Definition manager_ok (m : VoteManager.t) : Prop :=
  Dict.wf (VoteManager.active_votes m)
  ∧ ids_bounded m
  ∧ Forall (λ kv, Vote.vote_id kv.2 = kv.1) (VoteManager.active_votes m)
  ∧ NoDup (Vote.vote_type <$> VoteManager.get_all_pending_votes m)
  ∧ Forall ballot_ok (Dict.values (VoteManager.active_votes m)).

(** The ballot a manager call is addressed to, with the ballot method it
    runs there. *)
Definition addressed (c : VoteManager.call) : option (string * Vote.call) :=
  match c with
  | VoteManager.CastVote vote_id voter_id vote_yes =>
      Some (vote_id, Vote.Cast voter_id vote_yes)
  | VoteManager.WithdrawVote vote_id voter_id =>
      Some (vote_id, Vote.Withdraw voter_id)
  | VoteManager.DeleteVote vote_id => Some (vote_id, Vote.Cancel)
  | VoteManager.CheckAndFinalize now vote_id =>
      Some (vote_id, Vote.CheckResult now)
  | VoteManager.CreateVote _ _ _ _ _ _ _ _ _ _ => None
  | VoteManager.Cleanup _ _ => None
  end.

(** ** Examples used below *)

(** The spec's boundary example: four voters, threshold one half. *)
Definition quorum_example : Vote.t :=
  Vote.init 0 "kick_1_0" "kick" "ann" "A" {["A"; "B"; "C"; "D"]} 0.5 1 None "vote" 1.

(** A ballot with one voter who approved, resolved by [check_result]. *)
Definition passed_example : Vote.t :=
  Vote.exec_all [Vote.Cast "A" true; Vote.CheckResult 0]
    (Vote.init 0 "stop_1_0" "stop" "ann" "A" {["A"]} 1 300 None "vote" 1).

(** Two configs of the same kind with different keywords. *)
Definition shutdown_config : VoteTypeConfig.t :=
  VoteTypeConfig.init "shutdown" "shutdown_name" "shutdown_description"
    1 300 None (Some ["shutdown"]) (Some ["restart?"]).

Definition shutdown_config_bis : VoteTypeConfig.t :=
  VoteTypeConfig.init "shutdown" "other_name" "other_description"
    0.5 60 None (Some ["halt"]) None.

(** A call that opens a ballot of the given kind at the given time, for
    two voters who must both approve. *)
Definition open_ballot (now : Q) (vote_type : string) : VoteManager.call :=
  VoteManager.CreateVote now now vote_type "ann" "1" {["A"; "B"]} 1 300 None
    "vote".

(** One open ballot of kind "kick". *)
Definition one_open_example : VoteManager.t :=
  VoteManager.exec_all [open_ballot 0 "kick"] VoteManager.init.

(** One ballot, created and cancelled at time 5. *)
Definition closed_example : VoteManager.t :=
  VoteManager.exec_all
    [open_ballot 5 "kick"; VoteManager.DeleteVote "kick_1_5"]
    VoteManager.init.

(** A cancelled ballot, then an open one of another kind. *)
Definition closed_and_open_example : VoteManager.t :=
  VoteManager.exec_all
    [open_ballot 5 "kick"; VoteManager.DeleteVote "kick_1_5";
     open_ballot 6 "stop"]
    VoteManager.init.

(** An open ballot with nobody eligible. *)
Definition nobody_example : VoteManager.t :=
  VoteManager.exec_all
    [VoteManager.CreateVote 0 0 "kick" "ann" "1" ∅ 1 300 None "vote"]
    VoteManager.init.

(** Three ballots of different kinds, all open. *)
Definition three_open_calls : list VoteManager.call :=
  [open_ballot 0 "a"; open_ballot 1 "b";
   VoteManager.CastVote "a_1_0" "A" true; open_ballot 2 "c"].

Definition three_open_example : VoteManager.t :=
  VoteManager.exec_all three_open_calls VoteManager.init.

(** Two ballots, the first of which is then cancelled. *)
Definition gap_example : VoteManager.t :=
  VoteManager.exec_all
    [open_ballot 0 "a"; open_ballot 0 "b"; VoteManager.DeleteVote "a_1_0"]
    VoteManager.init.

(** ... and a third ballot created after the cancellation. *)
Definition duplicate_example : VoteManager.t :=
  VoteManager.exec_all [open_ballot 0 "c"] gap_example.

(** Three voters, threshold one half. *)
Definition three_voters_example : Vote.t :=
  Vote.init 0 "kick_1_0" "kick" "ann" "A" {["A"; "B"; "C"]} 0.5 300 None
    "vote" 1.

(** Five voters, and the threshold that the Python literal [0.8] denotes. *)
Definition five_voters_example : Vote.t :=
  Vote.init 0 "kick_1_0" "kick" "ann" "A" {["A"; "B"; "C"; "D"; "E"]}
    (Float.round 0.8) 300 None "vote" 1.

(** Ten voters, and the threshold that the Python literal [0.7] denotes. *)
Definition ten_voters_example : Vote.t :=
  Vote.init 0 "kick_1_0" "kick" "ann" "A"
    {["A"; "B"; "C"; "D"; "E"; "F"; "G"; "H"; "I"; "J"]}
    (Float.round 0.7) 300 None "vote" 1.

(** A second kind that shares the keyword "shutdown". *)
Definition restart_config : VoteTypeConfig.t :=
  VoteTypeConfig.init "restart" "restart_name" "restart_description"
    0.5 60 None (Some ["restart"; "shutdown"]) (Some ["reboot?"]).

(** * Properties *)

(** ** Float comparisons *)

Lemma Qgeb_spec a b : Qgeb a b = true ↔ (b <= a)%Q.
Proof. unfold Qgeb. apply Qle_bool_iff. Qed.

Lemma Qltb_spec a b : Qltb a b = true ↔ (a < b)%Q.
Proof.
  unfold Qltb. rewrite negb_true_iff, <- not_true_iff_false, Qle_bool_iff.
  split; [apply Qnot_le_lt | apply Qlt_not_le].
Qed.

Lemma Qgtb_spec a b : Qgtb a b = true ↔ (b < a)%Q.
Proof. unfold Qgtb. fold (Qltb b a). apply Qltb_spec. Qed.

(** Created before the cutoff = older than the window. *)
Lemma before_cutoff_iff_aged (start now window : Q) :
  (start < now - window)%Q ↔ (window < now - start)%Q.
Proof. split; intros; lra. Qed.

Lemma Qminus_0_r (a : Q) : (a - 0 == a)%Q.
Proof. ring. Qed.

Lemma Qgeb_false a b : Qgeb a b = false ↔ ¬ (b <= a)%Q.
Proof. rewrite <- Qgeb_spec. destruct (Qgeb a b); naive_solver. Qed.

Lemma Qltb_false a b : Qltb a b = false ↔ ¬ (a < b)%Q.
Proof. rewrite <- Qltb_spec. destruct (Qltb a b); naive_solver. Qed.

Lemma Qgtb_false a b : Qgtb a b = false ↔ ¬ (b < a)%Q.
Proof. rewrite <- Qgtb_spec. destruct (Qgtb a b); naive_solver. Qed.

(** ** Floats: rounding *)

Section float.
Local Open Scope Q_scope.
Import Float.

Lemma pow2_pos (e : Z) : 0 < 2 ^ e.
Proof. by apply Qpower_0_lt. Qed.

Lemma pow2_plus (a b : Z) : 2 ^ (a + b) == 2 ^ a * 2 ^ b.
Proof. by apply Qpower_plus. Qed.

Lemma pow2_le (a b : Z) : (a ≤ b)%Z → 2 ^ a <= 2 ^ b.
Proof. intros. by apply Qpower_le_compat_l. Qed.

Lemma pow2_lt (a b : Z) : (a < b)%Z → 2 ^ a < 2 ^ b.
Proof. intros. by apply Qpower_lt_compat_l. Qed.

Lemma pow2_lt_inv (a b : Z) : 2 ^ a < 2 ^ b → (a < b)%Z.
Proof. intros. by apply (Qpower_lt_compat_l_inv 2). Qed.

Lemma pow2_inject (n : Z) : (0 ≤ n)%Z → inject_Z (2 ^ n) == 2 ^ n.
Proof. intros. by rewrite Zpower_Qpower. Qed.

Lemma pow2_cancel (e : Z) : 2 ^ (- e) * 2 ^ e == 1.
Proof. rewrite <- pow2_plus. by replace (- e + e)%Z with 0%Z by lia. Qed.

Lemma pow2_succ (e : Z) : 2 ^ (e + 1) == 2 * 2 ^ e.
Proof. rewrite pow2_plus. change (2 ^ 1) with 2. ring. Qed.

(** *** Rounding to an integer *)

Lemma rne_cases (x : Q) :
  let f := Qfloor x in
  (x - inject_Z f < 1 # 2 ∧ rne x = f)
  ∨ (x - inject_Z f == 1 # 2 ∧ rne x = if Z.even f then f else (f + 1)%Z)
  ∨ (1 # 2 < x - inject_Z f ∧ rne x = (f + 1)%Z).
Proof.
  intros f. unfold rne. fold f.
  destruct (Qcompare_spec (x - inject_Z f) (1 # 2)); auto.
Qed.

#[global] Instance rne_comp : Proper (Qeq ==> eq) rne.
Proof.
  intros x y Hxy. unfold rne.
  rewrite (Qfloor_comp _ _ Hxy).
  by rewrite (Qcompare_comp (x - inject_Z (Qfloor y)) (y - inject_Z (Qfloor y))
                (Qplus_comp _ _ Hxy _ _ (Qeq_refl _)) (1 # 2) (1 # 2) (Qeq_refl _)).
Qed.

Lemma rne_Z (n : Z) : rne (inject_Z n) = n.
Proof.
  destruct (rne_cases (inject_Z n)) as [[_ H]|[[H _]|[H _]]];
    rewrite Qfloor_Z in *; [done|exfalso; lra..].
Qed.

Lemma floor_bounds (x : Q) : inject_Z (Qfloor x) <= x < inject_Z (Qfloor x) + 1.
Proof.
  split; [apply Qfloor_le|].
  pose proof (Qlt_floor x) as H. by rewrite inject_Z_plus in H.
Qed.

Lemma rne_le (x y : Q) : x <= y → (rne x ≤ rne y)%Z.
Proof.
  intros Hxy. pose proof (Qfloor_resp_le _ _ Hxy) as Hf.
  pose proof (floor_bounds x) as [Hx1 Hx2].
  pose proof (floor_bounds y) as [Hy1 Hy2].
  destruct (decide (Qfloor x = Qfloor y)) as [Heq|Hne].
  - destruct (rne_cases x) as [[Hx ->]|[[Hx ->]|[Hx ->]]];
    destruct (rne_cases y) as [[Hy ->]|[[Hy ->]|[Hy ->]]];
    rewrite <- ?Heq in *; try (destruct (Z.even _)); try lia; exfalso; lra.
  - destruct (rne_cases x) as [[Hx ->]|[[Hx ->]|[Hx ->]]];
    destruct (rne_cases y) as [[Hy ->]|[[Hy ->]|[Hy ->]]];
    try (destruct (Z.even (Qfloor x))); try (destruct (Z.even (Qfloor y))); lia.
Qed.

Lemma rne_bounds (x : Q) : x - (1 # 2) <= inject_Z (rne x) <= x + (1 # 2).
Proof.
  pose proof (floor_bounds x) as [Hx1 Hx2].
  destruct (rne_cases x) as [[Hx ->]|[[Hx ->]|[Hx ->]]];
    try (destruct (Z.even _)); rewrite ?inject_Z_plus;
    change (inject_Z 1) with 1; split; lra.
Qed.


(** *** The binary logarithm *)

Lemma Qmake_mult (x : Q) : x * inject_Z (Z.pos (Qden x)) == inject_Z (Qnum x).
Proof.
  destruct x as [n d]. unfold Qeq, Qmult, inject_Z. simpl. lia.
Qed.

Lemma ilog2_spec (x : Q) : 0 < x → 2 ^ ilog2 x <= x < 2 ^ (ilog2 x + 1).
Proof.
  intros Hx.
  assert (0 < Qnum x)%Z as Hn by (destruct x; unfold Qlt in Hx; simpl in *; lia).
  pose proof (Z.log2_spec _ Hn) as [Ha1 Ha2].
  pose proof (Z.log2_spec (Z.pos (Qden x)) eq_refl) as [Hb1 Hb2].
  pose proof (Z.log2_nonneg (Qnum x)) as Ha0.
  pose proof (Z.log2_nonneg (Z.pos (Qden x))) as Hb0.
  rewrite <- Z.add_1_r in Ha2, Hb2.
  rewrite Zle_Qle in Ha1, Hb1. rewrite Zlt_Qlt in Ha2, Hb2.
  rewrite pow2_inject in Ha1, Ha2, Hb1, Hb2 by lia.
  rewrite pow2_succ in Ha2, Hb2.
  pose proof (Qmake_mult x) as Hmul.
  unfold ilog2.
  set (a := Z.log2 (Qnum x)) in *. set (b := Z.log2 (Z.pos (Qden x))) in *.
  assert (2 ^ (a - b) * 2 ^ b == 2 ^ a) as Hab.
  { rewrite <- pow2_plus. by replace (a - b + b)%Z with a by lia. }
  pose proof (pow2_pos a) as HA. pose proof (pow2_pos b) as HB.
  pose proof (pow2_pos (a - b)) as HP.
  set (N := inject_Z (Qnum x)) in *. set (D := inject_Z (Z.pos (Qden x))) in *.
  set (A := 2 ^ a) in *. set (B := 2 ^ b) in *.
  destruct (Qle_bool (2 ^ (a - b)) x) eqn:Hle.
  - apply Qle_bool_iff in Hle. split; [done|]. rewrite pow2_succ.
    set (P := 2 ^ (a - b)) in *. nra.
  - assert (x < 2 ^ (a - b)) as Hlt.
    { apply Qnot_le_lt. intros H%Qle_bool_iff. congruence. }
    replace (a - b - 1 + 1)%Z with (a - b)%Z by lia. split; [|done].
    assert (2 * 2 ^ (a - b - 1) == 2 ^ (a - b)) as Hhalf.
    { rewrite <- pow2_succ. by replace (a - b - 1 + 1)%Z with (a - b)%Z by lia. }
    pose proof (pow2_pos (a - b - 1)) as HP'.
    set (P := 2 ^ (a - b)) in *. set (P' := 2 ^ (a - b - 1)) in *. nra.
Qed.

Lemma ilog2_unique (x : Q) (l : Z) :
  2 ^ l <= x → x < 2 ^ (l + 1) → ilog2 x = l.
Proof.
  intros H1 H2.
  assert (0 < x) as Hx by (eapply Qlt_le_trans; [apply (pow2_pos l)|done]).
  destruct (ilog2_spec x Hx) as [H3 H4].
  assert (ilog2 x < l + 1)%Z
    by (apply pow2_lt_inv; eapply Qle_lt_trans; [exact H3|exact H2]).
  assert (l < ilog2 x + 1)%Z
    by (apply pow2_lt_inv; eapply Qle_lt_trans; [exact H1|exact H4]).
  lia.
Qed.

Lemma ilog2_comp (x y : Q) : 0 < x → x == y → ilog2 x = ilog2 y.
Proof.
  intros Hx Hxy. symmetry. destruct (ilog2_spec x Hx) as [H1 H2].
  apply ilog2_unique; by rewrite <- Hxy.
Qed.

Lemma ilog2_le (x y : Q) : 0 < x → x <= y → (ilog2 x ≤ ilog2 y)%Z.
Proof.
  intros Hx Hxy.
  assert (0 < y) as Hy by (by eapply Qlt_le_trans).
  destruct (ilog2_spec x Hx) as [H1 _]. destruct (ilog2_spec y Hy) as [_ H2].
  assert (ilog2 x < ilog2 y + 1)%Z; [|lia].
  apply pow2_lt_inv. eapply Qle_lt_trans; [exact H1|].
  eapply Qle_lt_trans; [exact Hxy|exact H2].
Qed.

(** *** Rounding to a double *)

Lemma round_zero (x : Q) : x == 0 → round x = 0.
Proof. intros H. unfold round. by rewrite (proj2 (Qeq_bool_iff _ _) H). Qed.

Lemma round_nonzero (x : Q) :
  ¬ x == 0 →
  round x = inject_Z (rne (x * 2 ^ (- ulp_exp x))) * 2 ^ ulp_exp x.
Proof.
  intros H. unfold round.
  destruct (Qeq_bool x 0) eqn:E; [by apply Qeq_bool_iff in E|done].
Qed.

Lemma Qabs_gt0 (x : Q) : ¬ x == 0 → 0 < Qabs x.
Proof.
  intros Hx. apply Qabs_case; intros H.
  - apply Qle_lteq in H as [H|H]; [done|]. by destruct Hx.
  - apply Qle_lteq in H as [H|H]; [lra|]. by destruct Hx.
Qed.

Lemma ulp_exp_comp (x y : Q) : ¬ x == 0 → x == y → ulp_exp x = ulp_exp y.
Proof.
  intros Hx Hxy. unfold ulp_exp.
  rewrite (ilog2_comp (Qabs x) (Qabs y)); [done|by apply Qabs_gt0|].
  by apply Qabs_wd.
Qed.

Lemma ulp_exp_pos (x : Q) :
  0 < x → ulp_exp x = Z.max (ilog2 x - 52) (-1074).
Proof.
  intros Hx. unfold ulp_exp. rewrite (ilog2_comp (Qabs x) x); [done| |].
  - apply Qabs_gt0. lra.
  - apply Qabs_pos. lra.
Qed.

#[global] Instance round_comp : Proper (Qeq ==> Qeq) round.
Proof.
  intros x y Hxy. destruct (Qeq_dec x 0) as [Hx|Hx].
  - rewrite !round_zero; [done|lra|done].
  - rewrite !round_nonzero; [|intros ?; apply Hx; lra|done].
    rewrite <- (ulp_exp_comp x y) by done.
    apply Qmult_comp; [|done].
    by rewrite (rne_comp _ _ (Qmult_comp _ _ Hxy _ _ (Qeq_refl _))).
Qed.

(** Scaling by the unit in the last place and back. *)
Lemma scaled_le (x y : Q) (e : Z) :
  x <= y →
  inject_Z (rne (x * 2 ^ (- e))) * 2 ^ e <= inject_Z (rne (y * 2 ^ (- e))) * 2 ^ e.
Proof.
  intros Hxy. pose proof (pow2_pos e). pose proof (pow2_pos (- e)).
  apply Qmult_le_compat_r; [|lra].
  rewrite <- Zle_Qle. apply rne_le. apply Qmult_le_compat_r; [done|lra].
Qed.

Lemma scaled_below (x : Q) (e k : Z) :
  (0 ≤ k)%Z → x <= 2 ^ (e + k) →
  inject_Z (rne (x * 2 ^ (- e))) * 2 ^ e <= 2 ^ (e + k).
Proof.
  intros Hk Hx. pose proof (pow2_pos e) as He. pose proof (pow2_pos (- e)) as He'.
  pose proof (pow2_cancel e) as Hc. rewrite pow2_plus in Hx |- *.
  rewrite (Qmult_comm (2 ^ e)). apply Qmult_le_compat_r; [|lra].
  rewrite <- (pow2_inject k) by done. rewrite <- Zle_Qle.
  rewrite <- (rne_Z (2 ^ k)). apply rne_le. rewrite (pow2_inject k) by done.
  pose proof (pow2_pos k).
  set (P := 2 ^ e) in *. set (P' := 2 ^ (- e)) in *. set (K := 2 ^ k) in *.
  nra.
Qed.

Lemma scaled_above (x : Q) (e k : Z) :
  (0 ≤ k)%Z → 2 ^ (e + k) <= x →
  2 ^ (e + k) <= inject_Z (rne (x * 2 ^ (- e))) * 2 ^ e.
Proof.
  intros Hk Hx. pose proof (pow2_pos e) as He. pose proof (pow2_pos (- e)) as He'.
  pose proof (pow2_cancel e) as Hc. rewrite pow2_plus in Hx |- *.
  rewrite (Qmult_comm (2 ^ e)). apply Qmult_le_compat_r; [|lra].
  rewrite <- (pow2_inject k) by done. rewrite <- Zle_Qle.
  rewrite <- (rne_Z (2 ^ k)) at 1. apply rne_le. rewrite (pow2_inject k) by done.
  pose proof (pow2_pos k).
  set (P := 2 ^ e) in *. set (P' := 2 ^ (- e)) in *. set (K := 2 ^ k) in *.
  nra.
Qed.

Lemma round_le_pos (x y : Q) : 0 < x → x <= y → round x <= round y.
Proof.
  intros Hx Hxy. assert (0 < y) as Hy by lra.
  rewrite !round_nonzero by lra. rewrite !ulp_exp_pos by done.
  pose proof (ilog2_le x y Hx Hxy) as Hl.
  destruct (ilog2_spec x Hx) as [_ Hx2]. destruct (ilog2_spec y Hy) as [Hy1 _].
  set (lx := ilog2 x) in *. set (ly := ilog2 y) in *.
  destruct (decide (Z.max (lx - 52) (-1074) = Z.max (ly - 52) (-1074)))
    as [->|Hne]; [by apply scaled_le|].
  set (ex := Z.max (lx - 52) (-1074)) in *.
  set (ey := Z.max (ly - 52) (-1074)) in *.
  assert (ex + 53 ≤ ey + 52)%Z as Hex by lia.
  assert (ey = ly - 52)%Z as Hey by lia.
  apply Qle_trans with (2 ^ (ex + 53)).
  - apply scaled_below; [done|]. apply Qlt_le_weak.
    eapply Qlt_le_trans; [exact Hx2|]. apply pow2_le. lia.
  - apply Qle_trans with (2 ^ (ey + 52)); [by apply pow2_le|].
    apply scaled_above; [done|].
    by replace (ey + 52)%Z with ly by lia.
Qed.

Lemma round_nonneg (x : Q) : 0 <= x → 0 <= round x.
Proof.
  intros Hx. destruct (Qeq_dec x 0) as [H0|H0]; [by rewrite round_zero|].
  rewrite round_nonzero by done.
  pose proof (pow2_pos (ulp_exp x)). pose proof (pow2_pos (- ulp_exp x)).
  apply Qmult_le_0_compat; [|lra].
  change 0 with (inject_Z 0). rewrite <- Zle_Qle.
  rewrite <- (rne_Z 0). apply rne_le. change (inject_Z 0) with 0.
  apply Qmult_le_0_compat; lra.
Qed.

Lemma round_nonpos (x : Q) : x <= 0 → round x <= 0.
Proof.
  intros Hx. destruct (Qeq_dec x 0) as [H0|H0]; [by rewrite round_zero|].
  rewrite round_nonzero by done.
  pose proof (pow2_pos (ulp_exp x)). pose proof (pow2_pos (- ulp_exp x)).
  assert (inject_Z (rne (x * 2 ^ (- ulp_exp x))) <= 0) as Hr.
  { change 0 with (inject_Z 0). rewrite <- Zle_Qle.
    rewrite <- (rne_Z 0). apply rne_le. change (inject_Z 0) with 0.
    set (P := 2 ^ _) in *. nra. }
  set (P := 2 ^ ulp_exp x) in *. nra.
Qed.

Lemma round_le (x y : Q) : 0 <= x → x <= y → round x <= round y.
Proof.
  intros Hx Hxy. destruct (Qeq_dec x 0) as [H0|H0].
  - rewrite (round_zero x) by done. apply round_nonneg. lra.
  - apply round_le_pos; [|done]. apply Qle_lteq in Hx as [?|Hx]; [done|].
    by destruct H0.
Qed.

(** Numbers with a mantissa of at most 53 bits and an exponent in range are
    doubles: rounding leaves them as they are. *)
Lemma round_exact (m e : Z) :
  (Z.abs m < 2 ^ 53)%Z → (-1074 ≤ e)%Z →
  round (inject_Z m * 2 ^ e) == inject_Z m * 2 ^ e.
Proof.
  intros Hm He. destruct (decide (m = 0%Z)) as [->|Hm0].
  { rewrite round_zero; ring. }
  pose proof (pow2_pos e) as HP.
  assert (¬ inject_Z m * 2 ^ e == 0) as Hx0.
  { intros H. apply Qmult_integral in H as [H|H]; [|lra].
    apply Hm0. by apply (inject_Z_injective m 0). }
  rewrite round_nonzero by done. unfold ulp_exp.
  set (x := inject_Z m * 2 ^ e) in *.
  pose proof (Qabs_gt0 x Hx0) as Hpos.
  destruct (ilog2_spec _ Hpos) as [Hl1 _].
  assert (Qabs x < 2 ^ (e + 53)) as Hub.
  { unfold x. rewrite Qabs_Qmult, (Qabs_pos (2 ^ e)) by lra.
    rewrite (pow2_plus e 53), (Qmult_comm (2 ^ e)).
    apply Qmult_lt_compat_r; [done|].
    change (Qabs (inject_Z m)) with (inject_Z (Z.abs m)).
    rewrite <- (pow2_inject 53) by done. by rewrite <- Zlt_Qlt. }
  assert (ilog2 (Qabs x) < e + 53)%Z as Hl
    by (apply pow2_lt_inv; eapply Qle_lt_trans; [exact Hl1|exact Hub]).
  set (e' := Z.max (ilog2 (Qabs x) - 52) (-1074)).
  assert (e' ≤ e)%Z as He' by lia.
  assert (x * 2 ^ (- e') == inject_Z (m * 2 ^ (e - e'))) as ->.
  { unfold x. rewrite inject_Z_mult, (pow2_inject (e - e')) by lia.
    replace (e - e')%Z with (e + - e')%Z by lia. rewrite pow2_plus. ring. }
  rewrite rne_Z, inject_Z_mult, (pow2_inject (e - e')) by lia.
  unfold x. rewrite <- Qmult_assoc, <- pow2_plus.
  by replace (e - e' + e')%Z with e by lia.
Qed.

Lemma round_Z (n : Z) : (Z.abs n < 2 ^ 53)%Z → round (inject_Z n) == inject_Z n.
Proof.
  intros Hn. pose proof (round_exact n 0 Hn) as H.
  change (2 ^ 0) with 1 in H. rewrite Qmult_1_r in H. apply H. lia.
Qed.


(** For a normal number the error is at most half a unit in the last
    place, which is at most [x * 2^-53]. *)
Lemma round_upper (x : Q) :
  2 ^ (-1022) <= x → round x <= x + x * 2 ^ (-53).
Proof.
  intros Hn. pose proof (pow2_pos (-1022)) as H0.
  assert (0 < x) as Hx by lra.
  rewrite round_nonzero by lra. rewrite ulp_exp_pos by done.
  destruct (ilog2_spec x Hx) as [Hl1 Hl2].
  assert (-1022 ≤ ilog2 x)%Z as Hl.
  { assert (-1022 < ilog2 x + 1)%Z; [|lia]. apply pow2_lt_inv. lra. }
  rewrite Z.max_l by lia. set (e := (ilog2 x - 52)%Z).
  pose proof (rne_bounds (x * 2 ^ (- e))) as [_ Hb].
  pose proof (pow2_pos e) as He. pose proof (pow2_pos (- e)) as He'.
  pose proof (pow2_cancel e) as Hc.
  assert (2 ^ e == 2 ^ ilog2 x * 2 ^ (-52)) as Hsplit by (by rewrite <- pow2_plus).
  assert (2 * 2 ^ (-53) == 2 ^ (-52)) as Hh by reflexivity.
  pose proof (pow2_pos (-53)).
  set (r := inject_Z _) in *.
  set (P := 2 ^ e) in *. set (P' := 2 ^ (- e)) in *.
  set (L := 2 ^ ilog2 x) in *. set (u := 2 ^ (-53)) in *. set (u2 := 2 ^ (-52)) in *.
  assert (r * P <= x + (1 # 2) * P) by nra.
  nra.
Qed.

(** Rounding is odd, hence monotone on the whole line. *)
Lemma rne_opp (x : Q) : rne (- x) = (- rne x)%Z.
Proof.
  pose proof (floor_bounds x) as [Hx1 Hx2].
  pose proof (floor_bounds (- x)) as [Hy1 Hy2].
  pose proof (rne_cases x) as Cx. pose proof (rne_cases (- x)) as Cy.
  cbv zeta in Cx, Cy.
  remember (Qfloor x) as f eqn:Hf. remember (Qfloor (- x)) as g eqn:Hg0.
  clear Hf Hg0.
  assert (f ≤ - g)%Z as H1 by (rewrite Zle_Qle, inject_Z_opp; lra).
  assert (- g < f + 2)%Z as H2.
  { rewrite Zlt_Qlt, inject_Z_opp, inject_Z_plus.
    change (inject_Z 2) with 2. lra. }
  assert (g = - f ∨ g = - f - 1)%Z as [Hg|Hg] by lia.
  - assert (x == inject_Z f) as Hx.
    { rewrite Hg, inject_Z_opp in Hy1. lra. }
    rewrite (rne_comp _ _ Hx).
    assert (- x == inject_Z (- f)) as Hx' by (rewrite inject_Z_opp; lra).
    rewrite (rne_comp _ _ Hx'). by rewrite !rne_Z.
  - assert (inject_Z g == - inject_Z f - 1) as HgQ.
    { rewrite Hg. unfold Z.sub. rewrite inject_Z_plus, !inject_Z_opp.
      change (inject_Z 1) with 1. ring. }
    assert (Z.even g = negb (Z.even f)) as Hpar.
    { rewrite Hg, Z.even_sub, Z.even_opp. by destruct (Z.even f). }
    destruct Cx as [[Hx ->]|[[Hx ->]|[Hx ->]]];
    destruct Cy as [[Hy ->]|[[Hy ->]|[Hy ->]]];
    rewrite ?Hpar; try (destruct (Z.even f)); simpl; try lia; exfalso; lra.
Qed.

Lemma round_opp (x : Q) : round (- x) == - round x.
Proof.
  destruct (Qeq_dec x 0) as [Hx|Hx].
  { rewrite !round_zero; [done|done|lra]. }
  assert (¬ - x == 0) as Hx' by (intros ?; apply Hx; lra).
  rewrite !round_nonzero by done.
  assert (ulp_exp (- x) = ulp_exp x) as ->.
  { unfold ulp_exp. rewrite (ilog2_comp (Qabs (- x)) (Qabs x)); [done| |].
    - by apply Qabs_gt0.
    - apply Qabs_opp. }
  assert (- x * 2 ^ (- ulp_exp x) == - (x * 2 ^ (- ulp_exp x))) as Hs by ring.
  rewrite (rne_comp _ _ Hs), rne_opp, inject_Z_opp. ring.
Qed.

Lemma round_mono (x y : Q) : x <= y → round x <= round y.
Proof.
  intros Hxy. destruct (Qlt_le_dec 0 x) as [Hx|Hx].
  { by apply round_le_pos. }
  destruct (Qlt_le_dec y 0) as [Hy|Hy].
  - assert (round (- y) <= round (- x)) as H by (apply round_le_pos; lra).
    rewrite !round_opp in H. lra.
  - pose proof (round_nonpos x Hx). pose proof (round_nonneg y Hy). lra.
Qed.

Lemma round_1 : round 1 == 1.
Proof. by apply (round_Z 1). Qed.

(** *** Shares *)

Lemma share_le (a b t : Z) :
  (0 < t)%Z → (a ≤ b)%Z → inject_Z a / inject_Z t <= inject_Z b / inject_Z t.
Proof.
  intros Ht Hab. unfold Qdiv. apply Qmult_le_compat_r.
  - by rewrite <- Zle_Qle.
  - apply Qlt_le_weak, Qinv_lt_0_compat.
    change 0 with (inject_Z 0). by rewrite <- Zlt_Qlt.
Qed.

Lemma truediv_le (a b t : Z) :
  (0 < t)%Z → (a ≤ b)%Z → truediv a t <= truediv b t.
Proof. intros. by apply round_mono, share_le. Qed.

Lemma truediv_nonneg (a t : Z) : (0 ≤ a)%Z → (0 < t)%Z → 0 <= truediv a t.
Proof.
  intros Ha Ht. apply round_nonneg, Qle_shift_div_l.
  - change 0 with (inject_Z 0). by rewrite <- Zlt_Qlt.
  - rewrite Qmult_0_l. change 0 with (inject_Z 0). by rewrite <- Zle_Qle.
Qed.

Lemma truediv_same (t : Z) : (0 < t)%Z → truediv t t == 1.
Proof.
  intros Ht. unfold truediv.
  assert (inject_Z t / inject_Z t == 1) as H.
  { apply Qmult_inv_r. intros H0. apply (inject_Z_injective t 0) in H0. lia. }
  rewrite (round_comp _ _ H). apply round_1.
Qed.

(** Below [2^53] voters a share that is not the whole is not rounded up to
    the whole: the largest double below 1 is [1 - 2^-53]. *)
Lemma truediv_lt_1 (y t : Z) :
  (y < t)%Z → (0 < t)%Z → (t ≤ 2 ^ 53)%Z → truediv y t < 1.
Proof.
  intros Hy Ht Hbig.
  pose proof (round_exact (2 ^ 53 - 1) (-53) eq_refl) as Hq.
  assert (inject_Z (2 ^ 53 - 1) * 2 ^ (-53) < 1) as Hlt by reflexivity.
  eapply Qle_lt_trans; [|exact Hlt]. rewrite <- Hq by done.
  apply round_mono.
  assert (0 < inject_Z t) as HtQ
    by (change 0 with (inject_Z 0); by rewrite <- Zlt_Qlt).
  apply Qle_shift_div_r; [done|].
  assert (inject_Z y <= inject_Z t - 1) as HyQ.
  { assert (y ≤ t + - 1)%Z as H by lia.
    rewrite Zle_Qle, inject_Z_plus in H. change (inject_Z (-1)) with (-1) in H.
    lra. }
  assert (inject_Z t <= inject_Z (2 ^ 53)) as HbQ by (by rewrite <- Zle_Qle).
  assert (inject_Z (2 ^ 53 - 1) * 2 ^ (-53) == 1 - / inject_Z (2 ^ 53)) as ->
    by reflexivity.
  assert (inject_Z (2 ^ 53) * / inject_Z (2 ^ 53) == 1) as Hinv by reflexivity.
  assert (0 < / inject_Z (2 ^ 53)) as Hpos by reflexivity.
  set (U := inject_Z (2 ^ 53)) in *. set (u := / U) in *.
  set (Y := inject_Z y) in *. set (T := inject_Z t) in *. nra.
Qed.

End float.

(** The bound on the number of voters is needed: of [2^54] voters, all but
    one is a share that rounds to the whole. *)
Lemma truediv_rounds_to_1 : (Float.truediv (2 ^ 54 - 1) (2 ^ 54) == 1)%Q.
Proof. by vm_compute. Qed.

(** A count just above [2^53] is not a double: its conversion rounds. *)
Lemma of_int_rounds : (Float.of_int (2 ^ 53 + 3) == inject_Z (2 ^ 53 + 4))%Q.
Proof. by vm_compute. Qed.

(** *** The rounding against the Standard Library's binary64

    On every share [a / b] with [0 <= a <= b <= 16], [Float.truediv] gives
    the value that [SFdiv] of the Standard Library's specification of
    IEEE 754 arithmetic gives at precision 53 and maximal exponent 1024;
    and on the product of every [n <= 10] with every share [a / b] with
    [0 <= a <= b <= 10], [Float.mul] gives the value that [SFmul] gives. *)

Lemma truediv_is_SFdiv :
  forallb Float.truediv_agrees (Float.shares_up_to 16) = true.
Proof. by vm_compute. Qed.

Lemma mul_is_SFmul :
  forallb (λ ab, forallb (λ n, Float.mul_agrees (Z.of_nat n) ab) (seq 0 11))
    (Float.shares_up_to 10) = true.
Proof. by vm_compute. Qed.

(** ** One ballot *)

Section vote.
Implicit Types (v : Vote.t) (voter : string) (x : bool) (now : Q).

Lemma set_status_same v : Vote.set_status (Vote.status v) v = v.
Proof. by destruct v. Qed.

Lemma set_votes_same v : Vote.set_votes (Vote.yes_votes v) (Vote.no_votes v) v = v.
Proof. by destruct v. Qed.

Lemma cast_vote_closed voter x v :
  Vote.status v ≠ PENDING → Vote.cast_vote voter x v = ((false, false), v).
Proof. intros. unfold Vote.cast_vote. by rewrite decide_True. Qed.

Lemma withdraw_vote_closed voter v :
  Vote.status v ≠ PENDING → Vote.withdraw_vote voter v = (false, v).
Proof. intros. unfold Vote.withdraw_vote. by rewrite decide_True. Qed.

Lemma check_result_closed now v :
  Vote.status v ≠ PENDING → Vote.check_result now v = (Some (Vote.status v), v).
Proof. intros. unfold Vote.check_result. by rewrite decide_True. Qed.

Lemma cancel_closed v :
  Vote.status v ≠ PENDING → Vote.cancel v = (false, v).
Proof. intros. unfold Vote.cancel. by rewrite decide_True. Qed.

Lemma exec_closed c v : Vote.status v ≠ PENDING → Vote.exec c v = v.
Proof.
  intros Hv. destruct c; simpl.
  - by rewrite cast_vote_closed.
  - by rewrite withdraw_vote_closed.
  - by rewrite check_result_closed.
  - by rewrite cancel_closed.
Qed.

Lemma exec_all_closed cs v : Vote.status v ≠ PENDING → Vote.exec_all cs v = v.
Proof.
  intros Hv. induction cs as [|c cs IH]; [done|].
  unfold Vote.exec_all in *. simpl. by rewrite exec_closed.
Qed.

(** What a successful cast stores. *)
Lemma cast_vote_open voter x v :
  Vote.status v = PENDING → voter ∈ Vote.eligible_voters v →
  Vote.cast_vote voter x v =
    ((true, andb (bool_decide (voter ∉ Vote.yes_votes v))
                 (bool_decide (voter ∉ Vote.no_votes v))),
     if x
     then Vote.set_votes (Vote.yes_votes v ∖ {[voter]} ∪ {[voter]})
                         (Vote.no_votes v ∖ {[voter]}) v
     else Vote.set_votes (Vote.yes_votes v ∖ {[voter]})
                         (Vote.no_votes v ∖ {[voter]} ∪ {[voter]}) v).
Proof.
  intros Hs Hel. unfold Vote.cast_vote.
  rewrite decide_False by (by rewrite Hs; intros []).
  rewrite decide_False by (by intros []).
  by destruct x.
Qed.

(** Every call keeps the two sets apart. *)
Lemma exec_disjoint c v :
  Vote.yes_votes v ## Vote.no_votes v →
  Vote.yes_votes (Vote.exec c v) ## Vote.no_votes (Vote.exec c v).
Proof.
  intros Hd. destruct c as [voter x|voter|now|]; simpl.
  - unfold Vote.cast_vote.
    do 2 (destruct (decide _); [done|]). destruct x; simpl; set_solver.
  - unfold Vote.withdraw_vote.
    do 3 (destruct (decide _); [done|]). simpl; set_solver.
  - unfold Vote.check_result.
    case_decide; [done|]. by repeat (destruct (_ : bool); [done|]).
  - unfold Vote.cancel. by case_decide.
Qed.

Lemma exec_all_app cs1 cs2 v :
  Vote.exec_all (cs1 ++ cs2) v = Vote.exec_all cs2 (Vote.exec_all cs1 v).
Proof. unfold Vote.exec_all. apply foldl_app. Qed.

(** Calls never touch what [__init__] fixed. *)
Lemma exec_index c v : Vote.index (Vote.exec c v) = Vote.index v.
Proof.
  destruct c as [voter x|voter|now|]; simpl.
  - unfold Vote.cast_vote.
    do 2 (destruct (decide _); [done|]). by destruct x.
  - unfold Vote.withdraw_vote. by do 3 (destruct (decide _); [done|]).
  - unfold Vote.check_result.
    case_decide; [done|]. by repeat (destruct (_ : bool); [done|]).
  - unfold Vote.cancel. by case_decide.
Qed.

Lemma exec_vote_type c v : Vote.vote_type (Vote.exec c v) = Vote.vote_type v.
Proof.
  destruct c as [voter x|voter|now|]; simpl.
  - unfold Vote.cast_vote.
    do 2 (destruct (decide _); [done|]). by destruct x.
  - unfold Vote.withdraw_vote. by do 3 (destruct (decide _); [done|]).
  - unfold Vote.check_result.
    case_decide; [done|]. by repeat (destruct (_ : bool); [done|]).
  - unfold Vote.cancel. by case_decide.
Qed.

End vote.

(** *** The decision of [check_result] *)

Section decision.
Variables (now : Q) (v : Vote.t).
Hypothesis Hopen : Vote.status v = PENDING.
Hypothesis Hvoters : Vote.eligible_voters v ≠ ∅.

Local Abbreviation T := (Vote.total_voters v).
Local Abbreviation Y := (Vote.yes_count v).
Local Abbreviation N0 := (Vote.no_count v).

Lemma total_voters_pos : 0 < Vote.total_voters v.
Proof using Hvoters.
  unfold Vote.total_voters.
  assert (size (Vote.eligible_voters v) ≠ 0%nat); [|lia].
  intros ?%size_empty_iff. by apply Hvoters, leibniz_equiv.
Qed.

Lemma current_percentage_eq : Vote.current_percentage v = Float.truediv Y T.
Proof using Hvoters.
  unfold Vote.current_percentage.
  pose proof total_voters_pos as ->%Z.ltb_lt. done.
Qed.

Lemma max_possible_eq :
  Vote.max_possible v = Float.truediv (Y + (T - Y - N0)) T.
Proof using Hvoters.
  unfold Vote.max_possible.
  pose proof total_voters_pos as ->%Z.ltb_lt. f_equal. lia.
Qed.

(** The four outcomes, in the order the source tests them. *)
Lemma check_result_cases :
  let p := Vote.required_percentage v in
  let share := Float.truediv Y T in
  let best := Float.truediv (Y + (T - Y - N0)) T in
  ((p <= share)%Q ∧
     Vote.check_result now v = (Some PASSED, Vote.set_status PASSED v))
  ∨ (¬ (p <= share)%Q ∧ (best < p)%Q ∧
     Vote.check_result now v = (Some REJECTED, Vote.set_status REJECTED v))
  ∨ (¬ (p <= share)%Q ∧ ¬ (best < p)%Q ∧
     (Vote.timeout v < now - Vote.start_time v)%Q ∧
     Vote.check_result now v = (Some TIMEOUT, Vote.set_status TIMEOUT v))
  ∨ (¬ (p <= share)%Q ∧ ¬ (best < p)%Q ∧
     ¬ (Vote.timeout v < now - Vote.start_time v)%Q ∧
     Vote.check_result now v = (None, v)).
Proof using Hopen Hvoters.
  intros p share best. unfold Vote.check_result.
  rewrite decide_False by (by rewrite Hopen; intros []).
  pose proof total_voters_pos as Hpos.
  destruct (Z.eqb_spec (Vote.total_voters v) 0) as [?|_]; [lia|].
  rewrite current_percentage_eq, max_possible_eq. fold share best.
  destruct (Qgeb share _) eqn:Hpass.
  { left. by apply Qgeb_spec in Hpass. }
  apply Qgeb_false in Hpass. right.
  destruct (Qltb best _) eqn:Hrej.
  { left. by apply Qltb_spec in Hrej. }
  apply Qltb_false in Hrej. right.
  destruct (Qgtb _ _) eqn:Hlate.
  { left. by apply Qgtb_spec in Hlate. }
  apply Qgtb_false in Hlate. by right.
Qed.

End decision.

(** C2. For a Pending ballot with a non-empty eligibility set of size [T],
    threshold [p], [Y] approvals and [N0] rejections, [check_result] returns
    and stores: Passed iff [Y/T >= p]; otherwise Rejected iff
    [(Y + (T - Y - N0))/T < p] (strictly); otherwise TimedOut iff the time
    elapsed since creation is strictly above the timeout; otherwise it
    returns no decision and the ballot is unchanged, hence Pending.  The
    two quotients are the ones the program computes, Python's [int / int],
    rounded to a double.  Against the exact shares, for a threshold that is
    a double: a ballot whose exact share of approvals reaches the threshold
    passes, and a ballot is rejected only when the exact share still
    reachable is strictly below the threshold. *)
Theorem C2_check_result_decision (now : Q) (v : Vote.t) :
  Vote.status v = PENDING →
  Vote.eligible_voters v ≠ ∅ →
  let T := Vote.total_voters v in
  let Y := Vote.yes_count v in
  let N0 := Vote.no_count v in
  let p := Vote.required_percentage v in
  let passes := (p <= Float.truediv Y T)%Q in
  let hopeless := (Float.truediv (Y + (T - Y - N0)) T < p)%Q in
  let late := (Vote.timeout v < now - Vote.start_time v)%Q in
  let r := (Vote.check_result now v).1 in
  let v' := (Vote.check_result now v).2 in
  (r = Some PASSED ↔ passes)
  ∧ (r = Some REJECTED ↔ ¬ passes ∧ hopeless)
  ∧ (r = Some TIMEOUT ↔ ¬ passes ∧ ¬ hopeless ∧ late)
  ∧ (r = None ↔ ¬ passes ∧ ¬ hopeless ∧ ¬ late)
  ∧ v' = Vote.set_status (default PENDING r) v
  ∧ Vote.status v' = default PENDING r
  ∧ ((Float.round p == p)%Q → (p <= inject_Z Y / inject_Z T)%Q →
     r = Some PASSED)
  ∧ ((Float.round p == p)%Q → r = Some REJECTED →
     (inject_Z (Y + (T - Y - N0)) / inject_Z T < p)%Q).
Proof.
  intros Hopen Hvoters. cbv zeta.
  assert (∀ a : Z,
    (Float.round (Vote.required_percentage v) == Vote.required_percentage v)%Q →
    (Vote.required_percentage v <= inject_Z a / inject_Z (Vote.total_voters v))%Q →
    (Vote.required_percentage v <= Float.truediv a (Vote.total_voters v))%Q)
    as Hexact.
  { intros a Hp Hle. rewrite <- Hp. by apply round_mono. }
  destruct (check_result_cases now v Hopen Hvoters)
    as [(?&->)|[(?&?&->)|[(?&?&?&->)|(?&?&?&->)]]]; simpl;
    (split_and!; [naive_solver..| | | |]); try done.
  all: try (by rewrite <- Hopen, set_status_same).
  all: try (intros Hp Hle; exfalso; by eauto).
  intros Hp _. apply Qnot_le_lt. intros Hle.
  apply Hexact in Hle; [|done]. by apply Qlt_not_le in Hle.
Qed.

(** The spec's example (four voters, threshold 0.5, timeout 1), and five
    voters with the threshold [0.8] of whom four approve: the double for
    [0.8] is above four fifths, and the quotient [4 / 5] is that double. *)
Lemma C2_witness :
  (Vote.check_result 1
     (Vote.exec_all [Vote.Cast "A" false; Vote.Cast "B" false] quorum_example)).1
    = None
  ∧ (Vote.check_result 1
       (Vote.exec_all [Vote.Cast "A" false; Vote.Cast "B" false; Vote.Cast "C" false]
          quorum_example)).1
    = Some REJECTED
  ∧ (Vote.check_result (3 # 2)
       (Vote.exec_all [Vote.Cast "A" false; Vote.Cast "B" false] quorum_example)).1
    = Some TIMEOUT
  ∧ (Vote.check_result 0
       (Vote.exec_all [Vote.Cast "A" true; Vote.Cast "B" true; Vote.Cast "C" true;
                       Vote.Cast "D" true]
          five_voters_example)).1
    = Some PASSED.
Proof.
  split_and!.
  - destruct (C2_check_result_decision 1
      (Vote.exec_all [Vote.Cast "A" false; Vote.Cast "B" false] quorum_example))
      as (_ & _ & _ & H & _); [reflexivity | by vm_compute |].
    apply H. by vm_compute.
  - destruct (C2_check_result_decision 1
      (Vote.exec_all [Vote.Cast "A" false; Vote.Cast "B" false; Vote.Cast "C" false]
         quorum_example))
      as (_ & H & _); [reflexivity | by vm_compute |].
    apply H. by vm_compute.
  - destruct (C2_check_result_decision (3 # 2)
      (Vote.exec_all [Vote.Cast "A" false; Vote.Cast "B" false] quorum_example))
      as (_ & _ & H & _); [reflexivity | by vm_compute |].
    apply H. by vm_compute.
  - destruct (C2_check_result_decision 0
      (Vote.exec_all [Vote.Cast "A" true; Vote.Cast "B" true; Vote.Cast "C" true;
                      Vote.Cast "D" true]
         five_voters_example))
      as (H & _); [reflexivity | by vm_compute |].
    apply H. by vm_compute.
Defined.

(** *** Terminal statuses *)


(** C3. Once the status of a ballot is not Pending, no cast, withdraw,
    checkResult or cancel changes it (the ballot as a whole is unchanged);
    checkResult returns the stored status, and does so again after any
    number of further calls. *)
Theorem C3_terminal_status_is_final (v : Vote.t) :
  Vote.status v ≠ PENDING →
  (∀ voter x, Vote.cast_vote voter x v = ((false, false), v))
  ∧ (∀ voter, Vote.withdraw_vote voter v = (false, v))
  ∧ (∀ now, Vote.check_result now v = (Some (Vote.status v), v))
  ∧ Vote.cancel v = (false, v)
  ∧ (∀ cs, Vote.status (Vote.exec_all cs v) = Vote.status v)
  ∧ (∀ cs now, (Vote.check_result now (Vote.exec_all cs v)).1
               = Some (Vote.status v)).
Proof.
  intros Hv. split_and!; intros.
  - by apply cast_vote_closed.
  - by apply withdraw_vote_closed.
  - by apply check_result_closed.
  - by apply cancel_closed.
  - by rewrite exec_all_closed.
  - by rewrite exec_all_closed, check_result_closed.
Qed.

Lemma C3_witness :
  Vote.status passed_example = PASSED
  ∧ Vote.status
      (Vote.exec_all [Vote.Cast "A" false; Vote.Withdraw "A"; Vote.Cancel;
                      Vote.CheckResult 1000] passed_example) = PASSED
  ∧ (Vote.check_result 1000
       (Vote.exec_all [Vote.CheckResult 500; Vote.CheckResult 600] passed_example)).1
    = Some PASSED.
Proof.
  assert (Vote.status passed_example ≠ PENDING) as H by (by vm_compute).
  split_and!.
  - reflexivity.
  - apply (C3_terminal_status_is_final passed_example H).
  - apply (C3_terminal_status_is_final passed_example H).
Defined.

(** *** Approve and reject sets *)

(** C5. For every ballot and every sequence of calls (cast and withdraw,
    and also checkResult and cancel), the approve set and the reject set
    stay disjoint. *)
Theorem C5_approve_reject_disjoint (cs : list Vote.call) (v : Vote.t) :
  Vote.yes_votes v ## Vote.no_votes v →
  Vote.yes_votes (Vote.exec_all cs v) ## Vote.no_votes (Vote.exec_all cs v).
Proof.
  revert v. induction cs as [|c cs IH]; intros v Hd; [done|].
  change (Vote.exec_all (c :: cs) v) with (Vote.exec_all cs (Vote.exec c v)).
  by apply IH, exec_disjoint.
Qed.

Lemma C5_witness :
  let v := Vote.exec_all
             [Vote.Cast "A" true; Vote.Cast "A" false; Vote.Cast "B" true;
              Vote.Withdraw "A"; Vote.Cast "A" true]
             quorum_example in
  Vote.yes_votes v ## Vote.no_votes v.
Proof.
  apply (C5_approve_reject_disjoint _ quorum_example).
  simpl. apply disjoint_empty_l.
Defined.

(** A new ballot has empty sets, so the invariant holds from creation. *)
Lemma init_disjoint now vote_id vote_type initiator initiator_id eligible
    required_percentage timeout callback description index :
  let v := Vote.init now vote_id vote_type initiator initiator_id eligible
             required_percentage timeout callback description index in
  Vote.yes_votes v ## Vote.no_votes v.
Proof. simpl. apply disjoint_empty_l. Qed.

(** *** Casting the same choice twice *)

Lemma recast_yes (voter : string) (X : gset string) :
  voter ∈ X → X ∖ {[voter]} ∪ {[voter]} = X.
Proof.
  intros. apply set_eq. intros y. destruct (decide (y = voter)); set_solver.
Qed.

Lemma recast_other (voter : string) (X : gset string) :
  voter ∉ X → X ∖ {[voter]} = X.
Proof. set_solver. Qed.

(** C6. For a Pending ballot, an eligible voter and a choice, a second
    cast of the same choice right after the first is accepted, is not a new
    vote, and leaves the approve and reject sets (and the whole ballot, so
    all counts) as they were after the first cast. *)
Theorem C6_cast_same_choice_twice (voter : string) (x : bool) (v : Vote.t) :
  Vote.status v = PENDING →
  voter ∈ Vote.eligible_voters v →
  let v1 := (Vote.cast_vote voter x v).2 in
  let r2 := (Vote.cast_vote voter x v1).1 in
  let v2 := (Vote.cast_vote voter x v1).2 in
  r2 = (true, false)
  ∧ Vote.yes_votes v2 = Vote.yes_votes v1
  ∧ Vote.no_votes v2 = Vote.no_votes v1
  ∧ Vote.yes_count v2 = Vote.yes_count v1
  ∧ Vote.no_count v2 = Vote.no_count v1
  ∧ v2 = v1.
Proof.
  intros Hs Hel. cbv zeta.
  rewrite (cast_vote_open voter x v Hs Hel). cbn [snd].
  set (v1 := if x then _ else _).
  assert (Vote.status v1 = PENDING) as Hs1 by (by destruct x).
  assert (voter ∈ Vote.eligible_voters v1) as Hel1 by (by destruct x).
  rewrite (cast_vote_open voter x v1 Hs1 Hel1). cbn [fst snd].
  destruct x; subst v1; cbn [Vote.yes_votes Vote.no_votes Vote.set_votes].
  - rewrite (recast_yes voter (_ ∪ {[voter]})) by set_solver.
    rewrite (recast_other voter (_ ∖ {[voter]})) by set_solver.
    rewrite bool_decide_eq_false_2 by set_solver. done.
  - rewrite (recast_yes voter (_ ∪ {[voter]})) by set_solver.
    rewrite (recast_other voter (_ ∖ {[voter]})) by set_solver.
    rewrite (bool_decide_eq_false_2 (_ ∉ _ ∖ _ ∪ _)) by set_solver.
    by rewrite andb_false_r.
Qed.

Lemma C6_witness :
  let v1 := (Vote.cast_vote "B" true quorum_example).2 in
  (Vote.cast_vote "B" true v1).1 = (true, false)
  ∧ (Vote.cast_vote "B" true v1).2 = v1.
Proof.
  assert (Vote.status quorum_example = PENDING) as Hs by reflexivity.
  assert ("B" ∈ Vote.eligible_voters quorum_example) as Hel by (by vm_compute).
  pose proof (C6_cast_same_choice_twice "B" true quorum_example Hs Hel) as H.
  cbv zeta in *. split; apply H.
Defined.

(** *** Refused calls *)

(** C10. When cast returns accepted = false or withdraw returns false, the
    ballot (approve set, reject set and status included) is exactly as
    before the call; cast is refused exactly for a status that is not
    Pending or a voter who is not eligible, and withdraw moreover when the
    voter has no recorded vote. *)
Theorem C10_refused_call_changes_nothing (voter : string) (x : bool) (v : Vote.t) :
  ((Vote.cast_vote voter x v).1.1 = false →
     (Vote.cast_vote voter x v).2 = v)
  ∧ ((Vote.withdraw_vote voter v).1 = false →
     (Vote.withdraw_vote voter v).2 = v)
  ∧ ((Vote.cast_vote voter x v).1.1 = false ↔
     Vote.status v ≠ PENDING ∨ voter ∉ Vote.eligible_voters v)
  ∧ ((Vote.withdraw_vote voter v).1 = false ↔
     Vote.status v ≠ PENDING ∨ voter ∉ Vote.eligible_voters v
     ∨ (voter ∉ Vote.yes_votes v ∧ voter ∉ Vote.no_votes v)).
Proof.
  unfold Vote.cast_vote, Vote.withdraw_vote.
  destruct (decide (Vote.status v ≠ PENDING)) as [Hs|Hs]; simpl.
  { naive_solver. }
  destruct (decide (voter ∉ Vote.eligible_voters v)) as [He|He]; simpl.
  { naive_solver. }
  destruct (decide (voter ∉ Vote.yes_votes v ∧ voter ∉ Vote.no_votes v))
    as [Hn|Hn]; destruct x; simpl; naive_solver.
Qed.

Lemma C10_witness :
  (Vote.cast_vote "Z" true quorum_example).2 = quorum_example
  ∧ (Vote.withdraw_vote "A" quorum_example).2 = quorum_example
  ∧ (Vote.cast_vote "A" false passed_example).2 = passed_example.
Proof.
  split_and!.
  - apply (C10_refused_call_changes_nothing "Z" true quorum_example). reflexivity.
  - apply (C10_refused_call_changes_nothing "A" true quorum_example). reflexivity.
  - apply (C10_refused_call_changes_nothing "A" false passed_example). reflexivity.
Defined.

(** ** The registry *)

(** A first registration stores the config under its kind. *)
Lemma register_new config self :
  VoteTypeRegistry._registry self !! VoteTypeConfig.vote_type config = None →
  (VoteTypeRegistry.register config self).1 = true
  ∧ VoteTypeRegistry.get_config (VoteTypeConfig.vote_type config)
      (VoteTypeRegistry.register config self).2 = Some config.
Proof.
  intros Hnew. unfold VoteTypeRegistry.register.
  rewrite decide_False by (rewrite Hnew; by intros [? [=]]).
  split; [done|]. unfold VoteTypeRegistry.get_config. simpl.
  apply lookup_insert_eq.
Qed.

(** C8. Registering a config whose kind is already registered returns
    false and leaves the kind map and the keyword map unchanged: the
    registered config still resolves and every keyword resolves as before. *)
Theorem C8_register_duplicate_kind (config : VoteTypeConfig.t)
    (self : VoteTypeRegistry.t) :
  is_Some (VoteTypeRegistry._registry self !! VoteTypeConfig.vote_type config) →
  let r := VoteTypeRegistry.register config self in
  r.1 = false
  ∧ r.2 = self
  ∧ VoteTypeRegistry._registry r.2 = VoteTypeRegistry._registry self
  ∧ VoteTypeRegistry._keyword_map r.2 = VoteTypeRegistry._keyword_map self
  ∧ VoteTypeRegistry.get_config (VoteTypeConfig.vote_type config) r.2
    = VoteTypeRegistry.get_config (VoteTypeConfig.vote_type config) self
  ∧ (∀ keyword, VoteTypeRegistry.get_by_keyword keyword r.2
                = VoteTypeRegistry.get_by_keyword keyword self).
Proof.
  intros Hdup. unfold VoteTypeRegistry.register.
  by rewrite decide_True.
Qed.

Lemma C8_witness :
  let reg := (VoteTypeRegistry.register shutdown_config VoteTypeRegistry.init).2 in
  (VoteTypeRegistry.register shutdown_config_bis reg).1 = false
  ∧ VoteTypeRegistry.get_config "shutdown"
      (VoteTypeRegistry.register shutdown_config_bis reg).2
    = Some shutdown_config
  ∧ VoteTypeRegistry.get_by_keyword "halt"
      (VoteTypeRegistry.register shutdown_config_bis reg).2 = Ok None.
Proof.
  set (reg := (VoteTypeRegistry.register shutdown_config VoteTypeRegistry.init).2).
  assert (is_Some (VoteTypeRegistry._registry reg
                     !! VoteTypeConfig.vote_type shutdown_config_bis)) as H.
  { exists shutdown_config. by vm_compute. }
  pose proof (C8_register_duplicate_kind shutdown_config_bis reg H) as (H1&H2&_).
  cbv zeta in *. rewrite H2. split_and!; [exact H1 | by vm_compute | by vm_compute].
Defined.

(** ** Dicts *)

Section dict.
Context {V : Type}.
Implicit Types (d : Dict.t V) (k : string) (v : V).

Lemma dict_get_set k v d : Dict.get k (Dict.set k v d) = Some v.
Proof.
  induction d as [|[k' v'] d IH]; simpl.
  - by rewrite decide_True.
  - destruct (decide (k' = k)) as [->|Hne]; simpl.
    + by rewrite decide_True.
    + by rewrite decide_False.
Qed.

Lemma dict_set_same k v d : Dict.get k d = Some v → Dict.set k v d = d.
Proof.
  induction d as [|[k' v'] d IH]; simpl; [done|].
  destruct (decide (k' = k)) as [->|Hne].
  - by intros [= ->].
  - intros H. by rewrite IH.
Qed.

Lemma dict_get_None k d : Dict.get k d = None ↔ k ∉ Dict.keys d.
Proof.
  unfold Dict.keys. induction d as [|[k' v'] d IH]; simpl.
  - split; [intros _; apply not_elem_of_nil | done].
  - rewrite not_elem_of_cons. destruct (decide (k' = k)) as [->|Hne].
    + split; [done | by intros []].
    + rewrite IH. naive_solver.
Qed.

Lemma dict_get_elem k v d : Dict.get k d = Some v → (k, v) ∈ d.
Proof.
  induction d as [|[k' v'] d IH]; simpl; [done|].
  destruct (decide (k' = k)) as [->|Hne].
  - intros [= ->]. apply list_elem_of_here.
  - intros H. apply list_elem_of_further. auto.
Qed.

Lemma dict_elem_get k v d : Dict.wf d → (k, v) ∈ d → Dict.get k d = Some v.
Proof.
  unfold Dict.wf, Dict.keys. induction d as [|[k' v'] d IH]; simpl.
  - by intros _ ?%elem_of_nil.
  - intros [Hk Hd]%NoDup_cons [[= -> ->]|Hin]%elem_of_cons.
    + by rewrite decide_True.
    + rewrite decide_False; [by apply IH|].
      intros ->. apply Hk. apply list_elem_of_fmap. by exists (k, v).
Qed.

(** A new key goes last. *)
Lemma dict_set_new k v d : k ∉ Dict.keys d → Dict.set k v d = d ++ [(k, v)].
Proof.
  unfold Dict.keys. induction d as [|[k' v'] d IH]; simpl; [done|].
  intros [Hne Hk]%not_elem_of_cons.
  rewrite decide_False by done. by rewrite IH.
Qed.

(** Storing under a present key keeps the keys and their order. *)
Lemma dict_set_keys k v v' d :
  Dict.get k d = Some v → Dict.keys (Dict.set k v' d) = Dict.keys d.
Proof.
  unfold Dict.keys. induction d as [|[k0 v0] d IH]; simpl; [done|].
  destruct (decide (k0 = k)) as [->|Hne]; csimpl; [done|].
  intros H. f_equal. by apply IH.
Qed.

(** ... and every attribute on which the old and the new value agree. *)
Lemma dict_set_values {B} (f : V → B) k v v' d :
  Dict.get k d = Some v → f v' = f v →
  f <$> Dict.values (Dict.set k v' d) = f <$> Dict.values d.
Proof.
  unfold Dict.values. intros Hget Hf.
  induction d as [|[k0 v0] d IH]; simpl in *; [done|].
  destruct (decide (k0 = k)) as [->|Hne]; csimpl.
  - injection Hget as ->. by rewrite Hf.
  - f_equal. by apply IH.
Qed.

Lemma dict_del_absent k d : k ∉ Dict.keys d → Dict.del k d = d.
Proof.
  unfold Dict.keys. induction d as [|[k' v'] d IH]; simpl; [done|].
  intros [Hne Hk]%not_elem_of_cons.
  rewrite decide_False by done. by rewrite IH.
Qed.

Lemma dict_del_all_cons k v d ks :
  k ∉ ks →
  foldl (λ d k', Dict.del k' d) ((k, v) :: d) ks
  = (k, v) :: foldl (λ d k', Dict.del k' d) d ks.
Proof.
  revert d. induction ks as [|k' ks IH]; intros d; simpl; [done|].
  intros [Hne Hk]%not_elem_of_cons.
  rewrite decide_False by done. by apply IH.
Qed.

(** Deleting the keys of the entries selected by [P] leaves the other
    entries, in their order. *)
Lemma dict_del_filtered (P : string * V → bool) d :
  Dict.wf d →
  foldl (λ d k, Dict.del k d) d (List.filter P d).*1
  = List.filter (λ kv, negb (P kv)) d.
Proof.
  unfold Dict.wf, Dict.keys. induction d as [|[k v] d IH]; simpl; [done|].
  intros [Hk Hd]%NoDup_cons. destruct (P (k, v)) eqn:HP; simpl.
  - rewrite decide_True by done. by apply IH.
  - rewrite dict_del_all_cons; [by rewrite IH|].
    intros ((k0&v0)&Heq&Hin)%list_elem_of_fmap. simpl in Heq. subst k0.
    apply Hk. apply list_elem_of_fmap. exists (k, v0). split; [done|].
    apply list_elem_of_In. apply list_elem_of_In in Hin.
    by apply List.filter_In in Hin as [? _].
Qed.

End dict.

(** ** The manager *)

Section manager.
Implicit Types (m : VoteManager.t) (vote : Vote.t) (id : string).

Lemma store_same id vote m :
  VoteManager.get_vote id m = Some vote → VoteManager.store id vote m = m.
Proof.
  unfold VoteManager.get_vote, VoteManager.store. intros H.
  rewrite dict_set_same by done. by destruct m.
Qed.

(** [create_vote] when a ballot of the kind is open, and when none is. *)
Lemma create_vote_blocked now_id now vote_type initiator initiator_id eligible
    p timeout cb description m :
  Exists (λ vote, Vote.vote_type vote = vote_type ∧ Vote.status vote = PENDING)
         (Dict.values (VoteManager.active_votes m)) →
  VoteManager.create_vote now_id now vote_type initiator initiator_id eligible
    p timeout cb description m = (None, m).
Proof. intros. unfold VoteManager.create_vote. by rewrite decide_True. Qed.

Lemma create_vote_free now_id now vote_type initiator initiator_id eligible
    p timeout cb description m :
  ¬ Exists (λ vote, Vote.vote_type vote = vote_type ∧ Vote.status vote = PENDING)
           (Dict.values (VoteManager.active_votes m)) →
  let vote_id :=
    VoteManager.make_vote_id vote_type (VoteManager._vote_counter m + 1) now_id in
  let vote :=
    Vote.init now vote_id vote_type initiator initiator_id eligible p timeout
      cb description
      (Z.of_nat (length (VoteManager.get_all_pending_votes m)) + 1) in
  VoteManager.create_vote now_id now vote_type initiator initiator_id eligible
    p timeout cb description m
  = (Some vote,
     {| VoteManager.active_votes :=
          Dict.set vote_id vote (VoteManager.active_votes m);
        VoteManager._vote_counter := VoteManager._vote_counter m + 1 |}).
Proof. intros. unfold VoteManager.create_vote. by rewrite decide_False. Qed.

(** The sweep keeps the entries that are not expired, in their order. *)
Lemma cleanup_finished_votes_eq now keep m :
  Dict.wf (VoteManager.active_votes m) →
  let cutoff_time := (now - inject_Z (Z.max keep 0 * 60))%Q in
  VoteManager.cleanup_finished_votes now keep m
  = (Z.of_nat (length (List.filter (λ kv, VoteManager.expired cutoff_time kv.2)
                         (VoteManager.active_votes m))),
     {| VoteManager.active_votes :=
          List.filter (λ kv, negb (VoteManager.expired cutoff_time kv.2))
            (VoteManager.active_votes m);
        VoteManager._vote_counter := VoteManager._vote_counter m |}).
Proof.
  intros Hwf. unfold VoteManager.cleanup_finished_votes.
  assert ((if keep <? 0 then 0 else keep) = Z.max keep 0) as ->.
  { destruct (Z.ltb_spec keep 0); lia. }
  rewrite dict_del_filtered by done. by rewrite length_fmap.
Qed.

Lemma expired_spec cutoff_time vote :
  VoteManager.expired cutoff_time vote = true
  ↔ Vote.status vote ≠ PENDING ∧ (Vote.start_time vote < cutoff_time)%Q.
Proof.
  unfold VoteManager.expired. destruct (decide _) as [Hs|Hs].
  - rewrite Qltb_spec. naive_solver.
  - naive_solver.
Qed.

(** With every ballot open the sweep removes nothing. *)
Lemma cleanup_all_open now keep m :
  VoteManager.all_open m →
  VoteManager.cleanup_finished_votes now keep m = (0, m).
Proof.
  unfold VoteManager.all_open, Dict.values. intros Hopen.
  unfold VoteManager.cleanup_finished_votes.
  set (P := λ kv : string * Vote.t, VoteManager.expired _ kv.2).
  assert (List.filter P (VoteManager.active_votes m) = []) as ->.
  { induction (VoteManager.active_votes m) as [|[k v] d IH]; [done|].
    apply Forall_cons in Hopen as [Hv Hd]. simpl in Hv.
    assert (P (k, v) = false) as HP.
    { unfold P, VoteManager.expired. simpl.
      by rewrite decide_False by (by rewrite Hv; intros []). }
    simpl. rewrite HP. by apply IH. }
  simpl. by destruct m.
Qed.

End manager.

(** *** Creation *)

(** C4 (as the code has it). [create_vote] returns nothing exactly when a
    Pending ballot of the kind exists, and then changes nothing; otherwise
    it creates a Pending ballot of the kind whose eligibility set is the
    set passed in, empty or not, and stores it under its id.  The test for
    an empty eligibility set is made by the caller in
    [logic/system/vote.py], not by the manager. *)
Theorem C4_create_vote_guard (now_id now : Q)
    (vote_type initiator initiator_id : string) (eligible : gset string)
    (p timeout : Q) (cb : option Callback) (description : string)
    (m : VoteManager.t) :
  let r := VoteManager.create_vote now_id now vote_type initiator initiator_id
             eligible p timeout cb description m in
  (r.1 = None ↔
     ∃ vote, vote ∈ Dict.values (VoteManager.active_votes m)
             ∧ Vote.vote_type vote = vote_type ∧ Vote.status vote = PENDING)
  ∧ (r.1 = None → r.2 = m)
  ∧ (∀ vote, r.1 = Some vote →
       Vote.eligible_voters vote = eligible
       ∧ Vote.vote_type vote = vote_type
       ∧ Vote.status vote = PENDING
       ∧ VoteManager.get_vote (Vote.vote_id vote) r.2 = Some vote).
Proof.
  cbv zeta.
  destruct (decide (Exists (λ vote, Vote.vote_type vote = vote_type
                                    ∧ Vote.status vote = PENDING)
                           (Dict.values (VoteManager.active_votes m))))
    as [Hex|Hex].
  - rewrite create_vote_blocked by done. simpl. split_and!; try done.
    split; [intros _|done]. apply Exists_exists in Hex. naive_solver.
  - rewrite create_vote_free by done. simpl. split_and!; try done.
    + split; [done|]. intros Hex'. destruct Hex. apply Exists_exists. naive_solver.
    + intros vote [= <-]. split_and!; try done.
      unfold VoteManager.get_vote. simpl. apply dict_get_set.
Qed.

Lemma C4_witness :
  (VoteManager.create_vote 7 7 "kick" "bob" "2" {["A"]} 1 300 None "vote"
     one_open_example).1 = None
  ∧ (VoteManager.create_vote 7 7 "kick" "bob" "2" {["A"]} 1 300 None "vote"
       one_open_example).2 = one_open_example.
Proof.
  pose proof (C4_create_vote_guard 7 7 "kick" "bob" "2" {["A"]} 1 300 None "vote"
                one_open_example) as (H1 & H2 & _).
  cbv zeta in *.
  assert ((VoteManager.create_vote 7 7 "kick" "bob" "2" {["A"]} 1 300 None "vote"
             one_open_example).1 = None) as HNone.
  { apply H1. eexists. split_and!; [apply list_elem_of_here | reflexivity..]. }
  split; [exact HNone | exact (H2 HNone)].
Defined.

(** The manager does create a ballot nobody can vote on: the claim that
    creation needs a non-empty eligibility set fails for [create_vote]. *)
Lemma C4_counterexample :
  ∃ vote,
    (VoteManager.create_vote 0 0 "kick" "ann" "1" ∅ 1 300 None "vote"
       VoteManager.init).1 = Some vote
    ∧ Vote.eligible_voters vote = ∅
    ∧ Vote.status vote = PENDING.
Proof. eexists. split_and!; reflexivity. Qed.

(** *** The sweep *)

(** C7 (as the code has it). On a manager state, [cleanup_finished_votes]
    removes exactly the ballots whose status is not Pending and whose age
    (current time minus creation time) is strictly above the retention
    window, a negative window counting as zero; it returns the number
    removed; a Pending ballot is never removed.  With a window of zero or
    less every closed ballot created strictly before the current time is
    removed. *)
Theorem C7_cleanup_sweep (now : Q) (keep : Z) (m : VoteManager.t) :
  Dict.wf (VoteManager.active_votes m) →
  let window := inject_Z (Z.max keep 0 * 60) in
  let purged vote :=
    Vote.status vote ≠ PENDING ∧ (window < now - Vote.start_time vote)%Q in
  let n := (VoteManager.cleanup_finished_votes now keep m).1 in
  let m' := (VoteManager.cleanup_finished_votes now keep m).2 in
  (∀ id vote, (id, vote) ∈ VoteManager.active_votes m' ↔
                (id, vote) ∈ VoteManager.active_votes m ∧ ¬ purged vote)
  ∧ n = Z.of_nat (length (VoteManager.active_votes m))
        - Z.of_nat (length (VoteManager.active_votes m'))
  ∧ (∀ id vote, (id, vote) ∈ VoteManager.active_votes m →
                Vote.status vote = PENDING →
                (id, vote) ∈ VoteManager.active_votes m')
  ∧ (keep ≤ 0 → ∀ id vote, (id, vote) ∈ VoteManager.active_votes m →
                Vote.status vote ≠ PENDING →
                (Vote.start_time vote < now)%Q →
                (id, vote) ∉ VoteManager.active_votes m').
Proof.
  intros Hwf. cbv zeta. rewrite cleanup_finished_votes_eq by done. simpl.
  set (cutoff_time := (now - inject_Z (Z.max keep 0 * 60))%Q).
  assert (∀ id vote,
    (id, vote) ∈ List.filter (λ kv, negb (VoteManager.expired cutoff_time kv.2))
                   (VoteManager.active_votes m)
    ↔ (id, vote) ∈ VoteManager.active_votes m
      ∧ ¬ (Vote.status vote ≠ PENDING
           ∧ (inject_Z (Z.max keep 0 * 60) < now - Vote.start_time vote)%Q))
    as Hmem.
  { intros id vote. rewrite !list_elem_of_In, List.filter_In. simpl.
    rewrite negb_true_iff, <- not_true_iff_false, expired_spec.
    unfold cutoff_time.
    by rewrite before_cutoff_iff_aged. }
  split_and!.
  - exact Hmem.
  - rewrite <- (List.filter_length
                  (λ kv, VoteManager.expired cutoff_time kv.2)
                  (VoteManager.active_votes m)). lia.
  - intros id vote Hin Hs. apply Hmem. split; [done|]. by intros [? _].
  - intros Hkeep id vote Hin Hs Hlt [_ Hnp]%Hmem. apply Hnp. split; [done|].
    replace (Z.max keep 0) with 0 by lia. simpl.
    apply before_cutoff_iff_aged. by rewrite Qminus_0_r.
Qed.

Lemma C7_witness :
  (VoteManager.cleanup_finished_votes 700 10 closed_and_open_example).1 = 1
  ∧ Vote.status <$> Dict.values (VoteManager.active_votes
      (VoteManager.cleanup_finished_votes 700 10 closed_and_open_example).2)
    = [PENDING].
Proof.
  assert (Dict.wf (VoteManager.active_votes closed_and_open_example)) as Hwf.
  { unfold Dict.wf. vm_compute. repeat constructor; set_solver. }
  pose proof (C7_cleanup_sweep 700 10 closed_and_open_example Hwf) as (_&Hn&_).
  cbv zeta in Hn. split; [rewrite Hn|]; by vm_compute.
Defined.

(** A ballot created and cancelled at time 5 survives a sweep with window
    zero made at time 5: such a sweep does not remove all closed ballots. *)
Lemma C7_counterexample :
  Vote.status <$> Dict.values (VoteManager.active_votes closed_example)
    = [CANCELLED]
  ∧ VoteManager.cleanup_finished_votes 5 0 closed_example = (0, closed_example).
Proof. split; by vm_compute. Qed.

(** *** Ballots nobody can vote on *)

(** C9. A Pending ballot with an empty eligibility set gets no decision
    from [check_result], whatever the time, and is left unchanged, so it
    stays Pending after any number of checks; in a manager it is never
    finalized and never removed by the sweep. *)
Theorem C9_empty_eligibility_stays_pending (vote : Vote.t) :
  Vote.status vote = PENDING →
  Vote.eligible_voters vote = ∅ →
  (∀ now, Vote.check_result now vote = (None, vote))
  ∧ (∀ nows, Vote.exec_all (Vote.CheckResult <$> nows) vote = vote)
  ∧ (∀ m id now keep,
       Dict.wf (VoteManager.active_votes m) →
       (id, vote) ∈ VoteManager.active_votes m →
       VoteManager.check_and_finalize_vote now id m = (None, m)
       ∧ (id, vote) ∈ VoteManager.active_votes
                        (VoteManager.cleanup_finished_votes now keep m).2).
Proof.
  intros Hs He.
  assert (∀ now, Vote.check_result now vote = (None, vote)) as Hcheck.
  { intros now. unfold Vote.check_result.
    rewrite decide_False by (by rewrite Hs; intros []).
    unfold Vote.total_voters. by rewrite He, size_empty. }
  split_and!; [done| |].
  - intros nows. induction nows as [|now nows IH]; [done|].
    unfold Vote.exec_all in *. simpl. by rewrite Hcheck.
  - intros m id now keep Hwf Hin. split.
    + unfold VoteManager.check_and_finalize_vote.
      assert (VoteManager.get_vote id m = Some vote) as Hget
        by (by apply dict_elem_get).
      rewrite Hget, Hcheck. by rewrite store_same.
    + rewrite cleanup_finished_votes_eq by done. simpl.
      apply list_elem_of_In, List.filter_In. split; [by apply list_elem_of_In|].
      simpl. unfold VoteManager.expired.
      by rewrite decide_False by (by rewrite Hs; intros []).
Qed.

Lemma C9_witness :
  (VoteManager.check_and_finalize_vote 1000000 "kick_1_0" nobody_example).1 = None
  ∧ (VoteManager.cleanup_finished_votes 1000000 0 nobody_example).2
    = nobody_example.
Proof.
  assert (Dict.wf (VoteManager.active_votes nobody_example)) as Hwf.
  { unfold Dict.wf. vm_compute. repeat constructor; set_solver. }
  set (vote := Vote.init 0 "kick_1_0" "kick" "ann" "1" ∅ 1 300 None "vote" 1).
  assert ((("kick_1_0", vote) : string * Vote.t)
          ∈ VoteManager.active_votes nobody_example) as Hin.
  { vm_compute. apply list_elem_of_here. }
  pose proof (C9_empty_eligibility_stays_pending vote eq_refl eq_refl)
    as (_ & _ & H).
  destruct (H nobody_example "kick_1_0" 1000000%Q 0 Hwf Hin) as [H1 _].
  split; [by rewrite H1 | by vm_compute].
Defined.

(** ** Ballot ids are fresh *)

Lemma string_app_cons a (s1 s2 : string) :
  String a s1 +:+ s2 = String a (s1 +:+ s2).
Proof. reflexivity. Qed.

Lemma string_app_assoc (s1 s2 s3 : string) :
  (s1 +:+ s2) +:+ s3 = s1 +:+ (s2 +:+ s3).
Proof.
  induction s1 as [|a s1 IH]; [done|]. by rewrite !string_app_cons, IH.
Qed.

Lemma free_of_app c (s1 s2 : string) :
  free_of c (s1 +:+ s2) ↔ free_of c s1 ∧ free_of c s2.
Proof.
  induction s1 as [|a s1 IH].
  - change (EmptyString +:+ s2) with s2. simpl. naive_solver.
  - rewrite string_app_cons. simpl. rewrite IH. naive_solver.
Qed.

(** A string is cut in one way at its last occurrence of a character. *)
Lemma cut_at_last c (a1 a2 d1 d2 : string) :
  free_of c d1 → free_of c d2 →
  a1 +:+ String c d1 = a2 +:+ String c d2 → a1 = a2 ∧ d1 = d2.
Proof.
  intros Hd1 Hd2. revert a2.
  induction a1 as [|x a1 IH]; intros [|y a2];
    rewrite ?string_app_cons; change (EmptyString +:+ ?s)%stdpp with s.
  - by intros [= ->].
  - intros [= <- ->]. apply free_of_app in Hd1 as [_ [[] _]]. done.
  - intros [= -> <-]. apply free_of_app in Hd2 as [_ [[] _]]. done.
  - intros [= -> H]. apply IH in H as [-> ->]. done.
Qed.

Lemma pretty_N_char_not_underscore x : pretty_N_char x ≠ "_"%char.
Proof. unfold pretty_N_char. by repeat case_match. Qed.

Lemma pretty_N_go_free x s :
  free_of "_" s → free_of "_" (pretty_N_go x s).
Proof.
  revert s. induction (N.lt_wf_0 x) as [x _ IH]; intros s Hs.
  assert (x = 0 ∨ 0 < x)%N as [->|Hx] by lia.
  - by rewrite pretty_N_go_0.
  - rewrite pretty_N_go_step by done. apply IH.
    + by apply N.div_lt.
    + simpl. split; [apply pretty_N_char_not_underscore | done].
Qed.

Lemma pretty_N_free (x : N) : free_of "_" (pretty x).
Proof.
  unfold pretty, pretty_N. case_decide; [simpl; naive_solver|].
  by apply pretty_N_go_free.
Qed.

Lemma pretty_Z_free (x : Z) : free_of "_" (pretty x).
Proof.
  destruct x as [|x|x]; unfold pretty, pretty_Z.
  - simpl. naive_solver.
  - apply pretty_N_free.
  - apply free_of_app. split; [simpl; naive_solver | apply pretty_N_free].
Qed.

(** The counter can be read back from an id. *)
Lemma make_vote_id_counter ty1 ty2 c1 c2 t1 t2 :
  VoteManager.make_vote_id ty1 c1 t1 = VoteManager.make_vote_id ty2 c2 t2 →
  c1 = c2.
Proof.
  unfold VoteManager.make_vote_id. intros H.
  rewrite <- !(string_app_assoc _ (pretty _) ("_" +:+ _)) in H.
  rewrite <- !(string_app_assoc ty1), <- !(string_app_assoc ty2) in H.
  apply cut_at_last in H as [H _]; [|apply pretty_Z_free..].
  rewrite !(string_app_assoc _ "_" (pretty _)) in H.
  apply cut_at_last in H as [_ H]; [|apply pretty_Z_free..].
  by apply (inj pretty) in H.
Qed.

(** ** Display indices *)

Section indices.
Implicit Types (m : VoteManager.t) (vote : Vote.t) (id : string).

Lemma one_to_S n :
  VoteManager.one_to (S n) = VoteManager.one_to n ++ [Z.of_nat (S n)].
Proof. unfold VoteManager.one_to. by rewrite seq_S, fmap_app. Qed.

(** With every ballot open, the open ballots are all the ballots. *)
Lemma all_open_pending m :
  VoteManager.all_open m →
  VoteManager.get_all_pending_votes m
  = Dict.values (VoteManager.active_votes m).
Proof.
  unfold VoteManager.all_open, VoteManager.get_all_pending_votes.
  induction (Dict.values (VoteManager.active_votes m)) as [|v l IH]; [done|].
  intros [Hv Hl]%Forall_cons. rewrite filter_cons_True by done.
  f_equal. by apply IH.
Qed.

(** The id made from the next counter value is not a key yet. *)
Lemma next_id_fresh vote_type now m :
  ids_bounded m →
  VoteManager.make_vote_id vote_type (VoteManager._vote_counter m + 1) now
  ∉ Dict.keys (VoteManager.active_votes m).
Proof.
  unfold ids_bounded. rewrite Forall_forall. intros Hb Hin.
  destruct (Hb _ Hin) as (ty & c & t & Heq & Hle).
  apply make_vote_id_counter in Heq. lia.
Qed.

(** A method call on a stored ballot keeps the numbering. *)
Lemma store_numbered id vote vote' m :
  VoteManager.get_vote id m = Some vote →
  Vote.index vote' = Vote.index vote →
  VoteManager.all_open (VoteManager.store id vote' m) →
  numbered m → numbered (VoteManager.store id vote' m).
Proof.
  unfold VoteManager.get_vote. intros Hget Hidx Hopen (_ & Hnum & Hids).
  assert (Dict.keys (Dict.set id vote' (VoteManager.active_votes m))
          = Dict.keys (VoteManager.active_votes m)) as Hkeys
    by (by eapply dict_set_keys).
  split_and!; [done| |].
  - simpl. rewrite (dict_set_values Vote.index id vote vote') by done.
    rewrite Hnum. f_equal.
    apply (f_equal length) in Hkeys. unfold Dict.keys in Hkeys.
    by rewrite !length_fmap in Hkeys.
  - unfold ids_bounded. simpl. by rewrite Hkeys.
Qed.

Lemma create_numbered now_id now vote_type initiator initiator_id eligible
    p timeout cb description m :
  numbered m →
  numbered (VoteManager.create_vote now_id now vote_type initiator initiator_id
              eligible p timeout cb description m).2.
Proof.
  intros Hm.
  destruct (decide (Exists (λ vote, Vote.vote_type vote = vote_type
                                    ∧ Vote.status vote = PENDING)
                           (Dict.values (VoteManager.active_votes m))))
    as [Hex|Hex].
  { by rewrite create_vote_blocked. }
  rewrite create_vote_free by done. cbn [snd].
  destruct Hm as (Hopen & Hnum & Hids).
  rewrite dict_set_new by (by apply next_id_fresh).
  unfold numbered, VoteManager.all_open, ids_bounded, Dict.values, Dict.keys.
  cbn [VoteManager.active_votes VoteManager._vote_counter].
  rewrite !fmap_app, length_app. cbn [fmap list_fmap length].
  split_and!.
  - apply Forall_app. split; [exact Hopen|]. by apply Forall_singleton.
  - unfold Dict.values in Hnum. rewrite Hnum.
    replace (length (VoteManager.active_votes m) + 1)%nat
      with (S (length (VoteManager.active_votes m))) by lia.
    rewrite one_to_S. f_equal. simpl. f_equal.
    rewrite all_open_pending by done. unfold Dict.values.
    rewrite length_fmap. lia.
  - apply Forall_app. split.
    + eapply Forall_impl; [exact Hids|]. simpl.
      intros id (ty & c & t & -> & Hle). exists ty, c, t. split; [done|lia].
    + apply Forall_singleton. eexists _, _, _. split; [done|lia].
Qed.

Lemma exec_numbered c m :
  numbered m → VoteManager.all_open (VoteManager.exec c m) →
  numbered (VoteManager.exec c m).
Proof.
  intros Hm.
  destruct c as [now_id now ty ini iid el p tmo cb de | vote_id voter_id vote_yes
                | vote_id voter_id | vote_id | now vote_id | now keep];
    cbn [VoteManager.exec].
  - intros _. by apply create_numbered.
  - unfold VoteManager.cast_vote.
    destruct (VoteManager.get_vote vote_id m) as [vote|] eqn:Hget; [|done].
    pose proof (exec_index (Vote.Cast voter_id vote_yes) vote) as Hidx.
    simpl in Hidx. destruct (Vote.cast_vote _ _ _) as [r vote']. simpl in *.
    intros. by eapply store_numbered.
  - unfold VoteManager.withdraw_vote.
    destruct (VoteManager.get_vote vote_id m) as [vote|] eqn:Hget; [|done].
    pose proof (exec_index (Vote.Withdraw voter_id) vote) as Hidx.
    simpl in Hidx. destruct (Vote.withdraw_vote _ _) as [r vote']. simpl in *.
    intros. by eapply store_numbered.
  - unfold VoteManager.delete_vote.
    destruct (VoteManager.get_vote vote_id m) as [vote|] eqn:Hget; [|done].
    pose proof (exec_index Vote.Cancel vote) as Hidx.
    simpl in Hidx. destruct (Vote.cancel _) as [r vote']. simpl in *.
    intros. by eapply store_numbered.
  - unfold VoteManager.check_and_finalize_vote.
    destruct (VoteManager.get_vote vote_id m) as [vote|] eqn:Hget; [|done].
    pose proof (exec_index (Vote.CheckResult now) vote) as Hidx.
    simpl in Hidx. destruct (Vote.check_result _ _) as [r vote']. simpl in *.
    intros. by eapply store_numbered.
  - intros _. destruct Hm as (Hopen & ?). by rewrite cleanup_all_open.
Qed.

Lemma init_numbered : numbered VoteManager.init.
Proof.
  split_and!; [apply Forall_nil_2 | done | apply Forall_nil_2].
Qed.

Lemma exec_all_numbered cs m :
  numbered m → VoteManager.never_resolved cs m →
  numbered (VoteManager.exec_all cs m).
Proof.
  revert m. induction cs as [|c cs IH]; intros m Hm; [done|].
  intros [Hopen Hrest]. unfold VoteManager.exec_all in *. simpl.
  apply IH; [|done]. by apply exec_numbered.
Qed.

End indices.

(** What [create_vote] aims at: a created ballot gets the index 1 + (number
    of Pending ballots at creation), and no call changes the index of a
    ballot.  So for every sequence of calls from the empty manager after
    which no ballot has ever left Pending, the Pending ballots carry, in
    creation order, exactly the indices 1..N. *)
Lemma display_indices_while_open :
  (∀ now_id now vote_type initiator initiator_id eligible p timeout cb
     description m vote,
     (VoteManager.create_vote now_id now vote_type initiator initiator_id
        eligible p timeout cb description m).1 = Some vote →
     Vote.index vote
     = 1 + Z.of_nat (length (VoteManager.get_all_pending_votes m)))
  ∧ (∀ cs, VoteManager.never_resolved cs VoteManager.init →
       let m := VoteManager.exec_all cs VoteManager.init in
       VoteManager.pending_indices m
       = VoteManager.one_to (length (VoteManager.get_all_pending_votes m))
       ∧ VoteManager.dense_indices m
       ∧ NoDup (VoteManager.pending_indices m))
  ∧ (∀ c vote, Vote.index (Vote.exec c vote) = Vote.index vote).
Proof.
  split_and!.
  - intros now_id now vote_type initiator initiator_id eligible p timeout cb
      description m vote.
    unfold VoteManager.create_vote. case_decide; [done|].
    simpl. intros [= <-]. simpl. lia.
  - intros cs Hcs m.
    pose proof (exec_all_numbered cs _ init_numbered Hcs) as (Hopen & Hnum & _).
    fold m in Hopen, Hnum.
    assert (VoteManager.pending_indices m
            = VoteManager.one_to
                (length (VoteManager.get_all_pending_votes m))) as Heq.
    { unfold VoteManager.pending_indices.
      rewrite all_open_pending by done. rewrite Hnum.
      unfold Dict.values. by rewrite length_fmap. }
    split_and!; [done | unfold VoteManager.dense_indices; by rewrite Heq |].
    rewrite Heq. unfold VoteManager.one_to.
    apply NoDup_fmap; [apply _ | apply NoDup_seq].
  - apply exec_index.
Qed.

(** C1 (fails on the code).  Nothing renumbers the ballots left open when
    one is resolved.  After [create_vote] for the kinds a and b and
    [delete_vote] of the first ballot, the one Pending ballot carries index
    2.  After a further [create_vote] for the kind c, two ballots are
    Pending, b and c, and both carry the display index 2: the Pending
    indices are 2, 2 and not 1, 2.  [get_vote_by_index] then finds b under
    index 2, nothing under index 1, and c under no index at all. *)
Theorem C1_duplicate_display_index :
  VoteManager.pending_indices gap_example = [2]
  ∧ ¬ VoteManager.dense_indices gap_example
  ∧ Vote.vote_id <$> VoteManager.get_all_pending_votes duplicate_example
    = ["b_2_0"; "c_3_0"]
  ∧ VoteManager.pending_indices duplicate_example = [2; 2]
  ∧ ¬ NoDup (VoteManager.pending_indices duplicate_example)
  ∧ ¬ VoteManager.dense_indices duplicate_example
  ∧ Vote.vote_id <$> VoteManager.get_vote_by_index 2 duplicate_example
    = Some "b_2_0"
  ∧ VoteManager.get_vote_by_index 1 duplicate_example = None
  ∧ ∀ i, Vote.vote_id <$> VoteManager.get_vote_by_index i duplicate_example
         ≠ Some "c_3_0".
Proof.
  assert (VoteManager.pending_indices gap_example = [2]) as Hgap
    by (by vm_compute).
  assert (VoteManager.pending_indices duplicate_example = [2; 2]) as Hdup
    by (by vm_compute).
  split_and!; [done | | by vm_compute | done | | | by vm_compute
               | by vm_compute |].
  - unfold VoteManager.dense_indices, VoteManager.pending_indices in *.
    rewrite Hgap. rewrite <- (length_fmap Vote.index), Hgap. simpl.
    intros Hp. apply Permutation_singleton_l in Hp. discriminate.
  - rewrite Hdup. intros Hnd. apply NoDup_cons in Hnd as [Hnin _].
    apply Hnin, list_elem_of_here.
  - unfold VoteManager.dense_indices, VoteManager.pending_indices in *.
    rewrite Hdup. rewrite <- (length_fmap Vote.index), Hdup. simpl.
    intros Hp. assert (1 ∈ [2; 2]) as Hin.
    { rewrite Hp. apply list_elem_of_here. }
    set_solver.
  - intros i. unfold VoteManager.get_vote_by_index.
    destruct (decide (i = 2)) as [->|Hi]; [by vm_compute|].
    set (l := Dict.values _). vm_compute in l. subst l. cbn [List.find].
    rewrite bool_decide_eq_false_2 by (by intros []).
    rewrite !bool_decide_eq_false_2; [done|..]; simpl; intros [_ ?]; congruence.
Qed.

(** * Further properties of the modules *)

(** ** Ballots: what calls keep *)

Section ballot_invariants.
Implicit Types (v : Vote.t) (c : Vote.call).

Lemma exec_eligible c v :
  Vote.eligible_voters (Vote.exec c v) = Vote.eligible_voters v.
Proof.
  destruct c as [voter x|voter|now|]; simpl.
  - unfold Vote.cast_vote.
    do 2 (destruct (decide _); [done|]). by destruct x.
  - unfold Vote.withdraw_vote. by do 3 (destruct (decide _); [done|]).
  - unfold Vote.check_result.
    destruct (decide _); [done|]. by repeat (destruct (_ : bool); [done|]).
  - unfold Vote.cancel. by destruct (decide _).
Qed.

Lemma exec_required_percentage c v :
  Vote.required_percentage (Vote.exec c v) = Vote.required_percentage v.
Proof.
  destruct c as [voter x|voter|now|]; simpl.
  - unfold Vote.cast_vote.
    do 2 (destruct (decide _); [done|]). by destruct x.
  - unfold Vote.withdraw_vote. by do 3 (destruct (decide _); [done|]).
  - unfold Vote.check_result.
    destruct (decide _); [done|]. by repeat (destruct (_ : bool); [done|]).
  - unfold Vote.cancel. by destruct (decide _).
Qed.

Lemma exec_vote_id c v : Vote.vote_id (Vote.exec c v) = Vote.vote_id v.
Proof.
  destruct c as [voter x|voter|now|]; simpl.
  - unfold Vote.cast_vote.
    do 2 (destruct (decide _); [done|]). by destruct x.
  - unfold Vote.withdraw_vote. by do 3 (destruct (decide _); [done|]).
  - unfold Vote.check_result.
    destruct (decide _); [done|]. by repeat (destruct (_ : bool); [done|]).
  - unfold Vote.cancel. by destruct (decide _).
Qed.

Lemma exec_subset c v :
  Vote.yes_votes v ∪ Vote.no_votes v ⊆ Vote.eligible_voters v →
  Vote.yes_votes (Vote.exec c v) ∪ Vote.no_votes (Vote.exec c v)
  ⊆ Vote.eligible_voters (Vote.exec c v).
Proof.
  intros Hsub. destruct c as [voter x|voter|now|]; simpl.
  - unfold Vote.cast_vote.
    do 2 (destruct (decide _); [done|]). destruct x; simpl; set_solver.
  - unfold Vote.withdraw_vote.
    do 3 (destruct (decide _); [done|]). simpl; set_solver.
  - unfold Vote.check_result.
    destruct (decide _); [done|]. by repeat (destruct (_ : bool); [done|]).
  - unfold Vote.cancel. by destruct (decide _).
Qed.

(** A call leaves the status alone or moves it from Pending to one of the
    four closed statuses. *)
Lemma exec_status c v :
  Vote.status (Vote.exec c v) = Vote.status v
  ∨ (Vote.status v = PENDING ∧ closed_status (Vote.status (Vote.exec c v))).
Proof.
  unfold closed_status.
  destruct (decide (Vote.status v ≠ PENDING)) as [Hs|Hs].
  { left. by rewrite exec_closed. }
  apply dec_stable in Hs.
  destruct c as [voter x|voter|now|]; simpl.
  - left. unfold Vote.cast_vote.
    do 2 (destruct (decide _); [done|]). by destruct x.
  - left. unfold Vote.withdraw_vote. by do 3 (destruct (decide _); [done|]).
  - unfold Vote.check_result. destruct (decide _); [by left|].
    repeat (destruct (_ : bool); [simpl; by auto 6|]). by left.
  - unfold Vote.cancel. destruct (decide _); [by left|]. simpl. auto 6.
Qed.

Lemma exec_ballot_ok c v : ballot_ok v → ballot_ok (Vote.exec c v).
Proof.
  intros (Hd & Hsub & Herr & Hp0 & Hp1). split_and!.
  - by apply exec_disjoint.
  - by apply exec_subset.
  - destruct (exec_status c v) as [->|[_ Hc]]; [done|].
    unfold closed_status in Hc. intros Heq. rewrite Heq in Hc. naive_solver.
  - by rewrite exec_required_percentage.
  - by rewrite exec_required_percentage.
Qed.

Lemma exec_all_ballot_ok cs v : ballot_ok v → ballot_ok (Vote.exec_all cs v).
Proof.
  revert v. induction cs as [|c cs IH]; intros v Hv; [done|].
  change (Vote.exec_all (c :: cs) v) with (Vote.exec_all cs (Vote.exec c v)).
  by apply IH, exec_ballot_ok.
Qed.

Lemma exec_all_eligible cs v :
  Vote.eligible_voters (Vote.exec_all cs v) = Vote.eligible_voters v.
Proof.
  revert v. induction cs as [|c cs IH]; intros v; [done|].
  change (Vote.exec_all (c :: cs) v) with (Vote.exec_all cs (Vote.exec c v)).
  by rewrite IH, exec_eligible.
Qed.

(** The threshold stored by [__init__] lies in [0, 1]. *)
Lemma clamp_bounds (p : Q) :
  (0 <= Qmax 0 (Qmin 1 p))%Q ∧ (Qmax 0 (Qmin 1 p) <= 1)%Q.
Proof.
  split; [apply Q.le_max_l|].
  apply Q.max_lub; [done | apply Q.le_min_l].
Qed.

Lemma init_ballot_ok now vote_id vote_type initiator initiator_id eligible
    p timeout cb description index :
  ballot_ok (Vote.init now vote_id vote_type initiator initiator_id eligible
               p timeout cb description index).
Proof.
  unfold ballot_ok. simpl. pose proof (clamp_bounds p) as [??].
  split_and!; try done; set_solver.
Qed.

(** Under the invariant the counts add up to at most the electorate. *)
Lemma ballot_ok_counts v :
  ballot_ok v → Vote.yes_count v + Vote.no_count v ≤ Vote.total_voters v.
Proof.
  intros (Hd & Hsub & _).
  unfold Vote.yes_count, Vote.no_count, Vote.total_voters.
  apply subseteq_size in Hsub. rewrite size_union in Hsub by done. lia.
Qed.

End ballot_invariants.

(** X1. Whatever calls are made on a new ballot, its eligibility set is
    the one it was created with, every recorded vote is by an eligible
    voter, no voter is recorded twice, and approvals plus rejections never
    exceed the number of eligible voters. *)
Theorem X1_votes_within_eligibility (now : Q)
    (vote_id vote_type initiator initiator_id : string) (eligible : gset string)
    (p timeout : Q) (cb : option Callback) (description : string) (index : Z)
    (cs : list Vote.call) :
  let v := Vote.exec_all cs
             (Vote.init now vote_id vote_type initiator initiator_id eligible
                p timeout cb description index) in
  Vote.eligible_voters v = eligible
  ∧ Vote.yes_votes v ⊆ eligible
  ∧ Vote.no_votes v ⊆ eligible
  ∧ Vote.yes_votes v ## Vote.no_votes v
  ∧ 0 ≤ (Vote.get_progress now v).(Progress.not_voted)
  ∧ Vote.yes_count v + Vote.no_count v ≤ Z.of_nat (size eligible).
Proof.
  intros v.
  assert (ballot_ok v) as Hok by apply exec_all_ballot_ok, init_ballot_ok.
  assert (Vote.eligible_voters v = eligible) as Hel
    by (unfold v; by rewrite exec_all_eligible).
  pose proof (ballot_ok_counts v Hok) as Hcount.
  destruct Hok as (Hd & Hsub & _). rewrite Hel in Hsub.
  unfold Vote.total_voters in Hcount. rewrite Hel in Hcount.
  split_and!; [done | set_solver | set_solver | done | | done].
  unfold Vote.get_progress. simpl. rewrite Hel.
  unfold Vote.yes_count, Vote.no_count in Hcount. lia.
Qed.

(** X2. The status of a ballot only ever moves from Pending to Passed,
    Rejected, Cancelled or TimedOut: a single call either keeps the status
    or makes that move, cast and withdraw never change it, and no sequence
    of calls on a new ballot reaches Error or returns to Pending once
    closed. *)
Theorem X2_status_transitions (c : Vote.call) (v : Vote.t) :
  (Vote.status (Vote.exec c v) = Vote.status v
   ∨ (Vote.status v = PENDING ∧ closed_status (Vote.status (Vote.exec c v))))
  ∧ (∀ voter x, Vote.status (Vote.cast_vote voter x v).2 = Vote.status v)
  ∧ (∀ voter, Vote.status (Vote.withdraw_vote voter v).2 = Vote.status v)
  ∧ (∀ cs, Vote.status v ≠ ERROR → Vote.status (Vote.exec_all cs v) ≠ ERROR)
  ∧ (∀ cs, Vote.status (Vote.exec_all cs v) = PENDING → Vote.status v = PENDING).
Proof.
  split_and!.
  - apply exec_status.
  - intros voter x. unfold Vote.cast_vote.
    do 2 (destruct (decide _); [done|]). by destruct x.
  - intros voter. unfold Vote.withdraw_vote.
    by do 3 (destruct (decide _); [done|]).
  - intros cs. revert v. induction cs as [|c' cs IH]; intros v Hv; [done|].
    change (Vote.exec_all (c' :: cs) v)
      with (Vote.exec_all cs (Vote.exec c' v)).
    apply IH. destruct (exec_status c' v) as [->|[_ Hc]]; [done|].
    unfold closed_status in Hc. intros Heq. rewrite Heq in Hc. naive_solver.
  - intros cs. revert v. induction cs as [|c' cs IH]; intros v Hv; [done|].
    change (Vote.exec_all (c' :: cs) v)
      with (Vote.exec_all cs (Vote.exec c' v)) in Hv.
    apply IH in Hv. destruct (exec_status c' v) as [Heq|[? _]]; [|done].
    by rewrite <- Heq.
Qed.

Lemma X2_witness :
  Vote.status
    (Vote.exec_all [Vote.Cast "A" true; Vote.Cancel; Vote.CheckResult 9]
       quorum_example) ≠ ERROR.
Proof.
  apply (X2_status_transitions Vote.Cancel quorum_example). by vm_compute.
Defined.

(** ** Ballots: decisions *)

Section decisions.
Implicit Types (v : Vote.t) (now : Q).

Lemma check_result_nobody now v :
  Vote.status v = PENDING → Vote.eligible_voters v = ∅ →
  Vote.check_result now v = (None, v).
Proof.
  intros Hs He. unfold Vote.check_result.
  rewrite decide_False by (by rewrite Hs; intros []).
  unfold Vote.total_voters. by rewrite He, size_empty.
Qed.

(** Passing and rejecting do not read the clock. *)
Lemma check_result_by_votes now now' v :
  (Vote.check_result now v).1 = Some PASSED
  ∨ (Vote.check_result now v).1 = Some REJECTED →
  Vote.check_result now' v = Vote.check_result now v.
Proof.
  destruct (decide (Vote.status v ≠ PENDING)) as [Hs|Hs].
  { intros _. by rewrite !check_result_closed. }
  apply dec_stable in Hs.
  destruct (decide (Vote.eligible_voters v = ∅)) as [He|He].
  { rewrite (check_result_nobody now) by done. simpl. naive_solver. }
  destruct (check_result_cases now v Hs He)
    as [(?&->)|[(?&?&->)|[(?&?&?&->)|(?&?&?&->)]]];
  destruct (check_result_cases now' v Hs He)
    as [(?&->)|[(?&?&->)|[(?&?&?&->)|(?&?&?&->)]]];
  simpl; naive_solver.
Qed.

(** With everybody's vote recorded nothing is left undecided. *)
Lemma everybody_voted_counts v :
  Vote.yes_votes v ## Vote.no_votes v →
  Vote.yes_votes v ∪ Vote.no_votes v = Vote.eligible_voters v →
  Vote.total_voters v = Vote.yes_count v + Vote.no_count v.
Proof.
  intros Hd Hall. unfold Vote.total_voters, Vote.yes_count, Vote.no_count.
  rewrite <- Hall, size_union by done. lia.
Qed.

End decisions.

(** X3. Once every eligible voter has a recorded vote, [check_result] on
    a Pending ballot always decides: it returns Passed or Rejected, never
    "no decision" and never TimedOut, whatever the time of the check. *)
Theorem X3_complete_ballot_is_decided (now : Q) (v : Vote.t) :
  Vote.status v = PENDING →
  Vote.eligible_voters v ≠ ∅ →
  Vote.yes_votes v ## Vote.no_votes v →
  Vote.yes_votes v ∪ Vote.no_votes v = Vote.eligible_voters v →
  (Vote.check_result now v).1 = Some PASSED
  ∨ (Vote.check_result now v).1 = Some REJECTED.
Proof.
  intros Hs He Hd Hall.
  pose proof (everybody_voted_counts v Hd Hall) as Heq.
  destruct (check_result_cases now v Hs He)
    as [(?&->)|[(?&?&->)|[(Hnp&Hnr&_)|(Hnp&Hnr&_)]]]; simpl; auto;
    replace (Vote.yes_count v
             + (Vote.total_voters v - Vote.yes_count v - Vote.no_count v))
      with (Vote.yes_count v) in Hnr by lia;
    destruct Hnp; by apply Qnot_lt_le.
Qed.

Lemma X3_witness :
  (Vote.check_result 1000
     (Vote.exec_all [Vote.Cast "A" true; Vote.Cast "B" false;
                     Vote.Cast "C" false; Vote.Cast "D" false]
        quorum_example)).1 = Some REJECTED.
Proof.
  set (v := Vote.exec_all _ _).
  destruct (X3_complete_ballot_is_decided 1000 v) as [H|H].
  - reflexivity.
  - by vm_compute.
  - unfold v. apply exec_all_ballot_ok, init_ballot_ok.
  - by vm_compute.
  - exfalso. revert H. by vm_compute.
  - exact H.
Defined.

(** X4. The outcome of [check_result] depends on the clock only through
    the timeout test: a check that returns Passed or Rejected returns the
    same at every other time (so a ballot whose threshold is met passes
    even after its deadline); a check that returns TimedOut does so at
    every later time; a check that returns no decision does so at every
    earlier time. *)
Theorem X4_decision_and_time (now now' : Q) (v : Vote.t) :
  ((Vote.check_result now v).1 = Some PASSED
   ∨ (Vote.check_result now v).1 = Some REJECTED →
   Vote.check_result now' v = Vote.check_result now v)
  ∧ ((now <= now')%Q → (Vote.check_result now v).1 = Some TIMEOUT →
     Vote.check_result now' v = Vote.check_result now v)
  ∧ ((now' <= now)%Q → (Vote.check_result now v).1 = None →
     Vote.check_result now' v = (None, v)).
Proof.
  split; [apply check_result_by_votes|].
  destruct (decide (Vote.status v ≠ PENDING)) as [Hs|Hs].
  { rewrite !check_result_closed by done. simpl. naive_solver. }
  apply dec_stable in Hs.
  destruct (decide (Vote.eligible_voters v = ∅)) as [He|He].
  { rewrite !check_result_nobody by done. simpl. naive_solver. }
  destruct (check_result_cases now v Hs He)
    as [(?&->)|[(?&?&->)|[(?&?&Hl&->)|(?&?&Hl&->)]]];
  destruct (check_result_cases now' v Hs He)
    as [(?&->)|[(?&?&->)|[(?&?&Hl'&->)|(?&?&Hl'&->)]]];
  simpl; split; intros Hle; try done; try naive_solver; intros _; exfalso.
  - apply Hl'. lra.
  - apply Hl. lra.
Qed.

Lemma X4_witness :
  Vote.check_result 1000 (Vote.exec_all [Vote.Cast "A" true; Vote.Cast "B" true]
                            quorum_example)
  = Vote.check_result 0 (Vote.exec_all [Vote.Cast "A" true; Vote.Cast "B" true]
                           quorum_example).
Proof.
  set (v := Vote.exec_all _ _).
  destruct (X4_decision_and_time 0 1000 v) as [H _].
  apply H. left. by vm_compute.
Defined.

(** ** Ballots: the threshold *)

(** X5. [Vote.__init__] clamps the required percentage into [0, 1]: the
    stored threshold is between 0 and 1, equals the argument when that is
    already in range, and a ballot created with a threshold of zero or
    less (and somebody eligible) passes at its first check with no vote
    cast. *)
Theorem X5_threshold_is_clamped (now now' : Q)
    (vote_id vote_type initiator initiator_id : string) (eligible : gset string)
    (p timeout : Q) (cb : option Callback) (description : string) (index : Z) :
  let v := Vote.init now vote_id vote_type initiator initiator_id eligible
             p timeout cb description index in
  (0 <= Vote.required_percentage v)%Q
  ∧ (Vote.required_percentage v <= 1)%Q
  ∧ ((0 <= p)%Q → (p <= 1)%Q → (Vote.required_percentage v == p)%Q)
  ∧ ((1 <= p)%Q → (Vote.required_percentage v == 1)%Q)
  ∧ ((p <= 0)%Q → eligible ≠ ∅ →
     Vote.check_result now' v = (Some PASSED, Vote.set_status PASSED v)).
Proof.
  intros v. pose proof (clamp_bounds p) as [H0 H1].
  split_and!; try done.
  - intros Hp0 Hp1. simpl. rewrite Q.min_r, Q.max_r by done. reflexivity.
  - intros Hp1. simpl. rewrite Q.min_l, Q.max_r by done. reflexivity.
  - intros Hp He.
    assert (Vote.required_percentage v == 0)%Q as Hrp.
    { simpl. rewrite Q.min_r by (by apply Qle_trans with 0%Q).
      by rewrite Q.max_l. }
    destruct (check_result_cases now' v eq_refl He)
      as [(?&->)|[(Hnp&_)|[(Hnp&_)|(Hnp&_)]]]; [done|exfalso; apply Hnp..];
      rewrite Hrp; (apply truediv_nonneg; [|by apply total_voters_pos]);
      unfold Vote.yes_count; lia.
Qed.

Lemma X5_witness :
  (Vote.required_percentage
     (Vote.init 0 "kick_1_0" "kick" "ann" "1" {["A"]} 7 300 None "vote" 1)
   <= 1)%Q
  ∧ (Vote.check_result 0
       (Vote.init 0 "kick_1_0" "kick" "ann" "1" {["A"]} (-1) 300 None "vote" 1)).1
    = Some PASSED.
Proof.
  split.
  - apply (X5_threshold_is_clamped 0 0 "kick_1_0" "kick" "ann" "1" {["A"]} 7
             300 None "vote" 1).
  - destruct (X5_threshold_is_clamped 0 0 "kick_1_0" "kick" "ann" "1" {["A"]}
                (-1) 300 None "vote" 1) as (_&_&_&_&H).
    rewrite H; [done | by vm_compute | by vm_compute].
Defined.

(** X6. For a Pending ballot that satisfies the ballot invariant and has
    somebody eligible: when every eligible voter has approved,
    [check_result] returns Passed whatever the threshold; and when the
    threshold is 1 and there are at most [2^53] eligible voters, it returns
    Passed only then.  (Of more voters than that, all but one approving
    would be a share that rounds to 1.0.) *)
Theorem X6_unanimity (now : Q) (v : Vote.t) :
  ballot_ok v →
  Vote.status v = PENDING →
  Vote.eligible_voters v ≠ ∅ →
  (Vote.yes_votes v = Vote.eligible_voters v →
   (Vote.check_result now v).1 = Some PASSED)
  ∧ (Vote.total_voters v ≤ 2 ^ 53 →
     (Vote.required_percentage v == 1)%Q →
     (Vote.check_result now v).1 = Some PASSED →
     Vote.yes_votes v = Vote.eligible_voters v).
Proof.
  intros (Hd & Hsub & _ & Hp0 & Hp1) Hs He.
  pose proof (total_voters_pos v He) as Hpos.
  pose proof (Hcases := check_result_cases now v Hs He).
  split.
  - intros Hall.
    assert (Vote.yes_count v = Vote.total_voters v) as Hy
      by (unfold Vote.yes_count, Vote.total_voters; by rewrite Hall).
    destruct Hcases as [(?&->)|[(Hnp&_)|[(Hnp&_)|(Hnp&_)]]];
      [done|exfalso; apply Hnp..];
      rewrite Hy, truediv_same by done; exact Hp1.
  - intros Hsize Hone Hpass.
    assert (Vote.required_percentage v
            <= Float.truediv (Vote.yes_count v) (Vote.total_voters v))%Q
      as Hmet.
    { destruct Hcases as [(?&_)|[(_&_&Heq)|[(_&_&_&Heq)|(_&_&_&Heq)]]];
        [done|rewrite Heq in Hpass; discriminate..]. }
    rewrite Hone in Hmet.
    assert (¬ Vote.yes_count v < Vote.total_voters v) as Hall.
    { intros Hlt. apply (Qle_not_lt _ _ Hmet). by apply truediv_lt_1. }
    apply set_subseteq_size_eq; [set_solver|].
    unfold Vote.yes_count, Vote.total_voters in Hall. lia.
Qed.

Lemma X6_witness :
  (Vote.check_result 0
     (Vote.exec_all [Vote.Cast "A" true; Vote.Cast "B" true;
                     Vote.Cast "C" true; Vote.Cast "D" true]
        quorum_example)).1 = Some PASSED.
Proof.
  set (v := Vote.exec_all _ _).
  assert (ballot_ok v) as Hok
    by (unfold v; apply exec_all_ballot_ok, init_ballot_ok).
  destruct (X6_unanimity 0 v Hok) as [H _]; [reflexivity | by vm_compute |].
  apply H. by vm_compute.
Defined.

(** ** Ballots: how casts and withdrawals compose *)

Lemma set_votes_twice (y1 n1 y2 n2 : gset string) (v : Vote.t) :
  Vote.set_votes y2 n2 (Vote.set_votes y1 n1 v) = Vote.set_votes y2 n2 v.
Proof. done. Qed.

Lemma set_votes_back (y n : gset string) (v : Vote.t) :
  y = Vote.yes_votes v → n = Vote.no_votes v → Vote.set_votes y n v = v.
Proof. intros -> ->. apply set_votes_same. Qed.

(** X7. For a Pending ballot and an eligible voter with no recorded vote,
    a cast followed by a withdrawal is accepted twice and gives the ballot
    back exactly as it was. *)
Theorem X7_cast_then_withdraw (voter : string) (x : bool) (v : Vote.t) :
  Vote.status v = PENDING →
  voter ∈ Vote.eligible_voters v →
  voter ∉ Vote.yes_votes v →
  voter ∉ Vote.no_votes v →
  Vote.cast_vote voter x v = ((true, true), (Vote.cast_vote voter x v).2)
  ∧ Vote.withdraw_vote voter (Vote.cast_vote voter x v).2 = (true, v).
Proof.
  intros Hs Hel Hy Hn. rewrite (cast_vote_open voter x v Hs Hel). cbn [snd].
  rewrite !bool_decide_eq_true_2 by done. split; [done|].
  unfold Vote.withdraw_vote.
  destruct x; cbn [Vote.status Vote.eligible_voters Vote.yes_votes
                   Vote.no_votes Vote.set_votes];
    (destruct (decide (Vote.status v ≠ PENDING)) as [Hc|_];
       [by rewrite Hs in Hc|]);
    (destruct (decide (voter ∉ Vote.eligible_voters v)) as [Hc|_]; [done|]);
    (destruct (decide _) as [[Hc1 Hc2]|_]; [exfalso; set_solver|]);
    f_equal; rewrite set_votes_twice; apply set_votes_back; set_solver.
Qed.

Lemma X7_witness :
  Vote.withdraw_vote "C" (Vote.cast_vote "C" false quorum_example).2
  = (true, quorum_example).
Proof.
  apply (X7_cast_then_withdraw "C" false quorum_example);
    [reflexivity | by vm_compute | by vm_compute | by vm_compute].
Defined.

(** X8. For a Pending ballot and an eligible voter, the last cast wins: a
    cast of [y] after a cast of [x] leaves the ballot that a single cast
    of [y] leaves, and is reported as accepted and not new. *)
Theorem X8_last_cast_wins (voter : string) (x y : bool) (v : Vote.t) :
  Vote.status v = PENDING →
  voter ∈ Vote.eligible_voters v →
  let v1 := (Vote.cast_vote voter x v).2 in
  (Vote.cast_vote voter y v1).1 = (true, false)
  ∧ (Vote.cast_vote voter y v1).2 = (Vote.cast_vote voter y v).2.
Proof.
  intros Hs Hel. cbv zeta.
  rewrite (cast_vote_open voter x v Hs Hel). cbn [snd].
  set (v1 := if x then _ else _).
  assert (Vote.status v1 = PENDING) as Hs1 by (by destruct x).
  assert (voter ∈ Vote.eligible_voters v1) as Hel1 by (by destruct x).
  rewrite (cast_vote_open voter y v1 Hs1 Hel1).
  rewrite (cast_vote_open voter y v Hs Hel). cbn [fst snd]. split.
  - f_equal. apply andb_false_iff. subst v1.
    destruct x; simpl; [left|right]; apply bool_decide_eq_false_2; set_solver.
  - subst v1.
    destruct x, y; rewrite set_votes_twice; simpl; f_equal; set_solver.
Qed.

Lemma X8_witness :
  (Vote.cast_vote "A" false (Vote.cast_vote "A" true quorum_example).2).2
  = (Vote.cast_vote "A" false quorum_example).2.
Proof.
  apply (X8_last_cast_wins "A" true false quorum_example);
    [reflexivity | by vm_compute].
Defined.

(** ** The progress snapshot *)

Section progress.
Implicit Types (v : Vote.t) (now : Q).

Lemma py_int_le (x : Q) (n : Z) : (x <= inject_Z n)%Q → py_int x ≤ n.
Proof.
  unfold Qle, py_int. simpl. rewrite Z.mul_1_r. intros H.
  apply Z.quot_le_upper_bound; lia.
Qed.

Lemma py_int_nonneg (x : Q) : (0 <= x)%Q → 0 ≤ py_int x.
Proof.
  unfold Qle, py_int. simpl. rewrite Z.mul_1_r. intros H.
  apply Z.quot_pos; lia.
Qed.

(** On a number that is not negative [int()] is the floor. *)
Lemma py_int_floor (x : Q) : (0 <= x)%Q → py_int x = Qfloor x.
Proof.
  destruct x as [n d]. unfold Qle, py_int, Qfloor. simpl.
  rewrite Z.mul_1_r. intros H. apply Z.quot_div_nonneg; lia.
Qed.

Lemma py_int_below (x : Q) (n : Z) :
  (0 <= x)%Q → (x < inject_Z n + 1)%Q → py_int x ≤ n.
Proof.
  intros H0 Hlt. rewrite py_int_floor by done.
  pose proof (Qfloor_le x) as Hf.
  assert (Qfloor x < n + 1); [|lia].
  rewrite Zlt_Qlt, inject_Z_plus. change (inject_Z 1) with 1%Q. lra.
Qed.

Lemma remaining_time_pos now v :
  (0 < (Vote.get_progress now v).(Progress.remaining_time))%Q →
  ¬ (Vote.timeout v < now - Vote.start_time v)%Q.
Proof.
  simpl. intros Hpos Hlate.
  assert (Float.sub (Vote.timeout v) (now - Vote.start_time v) <= 0)%Q as Hle
    by (apply round_nonpos; lra).
  rewrite Q.max_l in Hpos by done. by apply Qlt_irrefl in Hpos.
Qed.

(** The number shown as required, for a count that converts exactly and a
    threshold that is not negative. *)
Lemma required_yes_eq now v :
  Vote.total_voters v < 2 ^ 53 →
  (0 <= Vote.required_percentage v)%Q →
  (Vote.get_progress now v).(Progress.required_yes)
  = Qfloor (Float.round (inject_Z (Vote.total_voters v)
                         * Vote.required_percentage v)).
Proof.
  intros Hsize Hp. simpl. unfold Float.mul, Float.of_int.
  assert (0 <= inject_Z (Vote.total_voters v))%Q as HT.
  { change 0%Q with (inject_Z 0). rewrite <- Zle_Qle.
    unfold Vote.total_voters. lia. }
  assert (Float.round (inject_Z (Z.of_nat (size (Vote.eligible_voters v))))
          == inject_Z (Vote.total_voters v))%Q as Hconv.
  { apply round_Z. unfold Vote.total_voters in *. lia. }
  pose proof (round_comp _ _
    (Qmult_comp _ _ Hconv _ _ (Qeq_refl (Vote.required_percentage v)))) as Heq.
  rewrite py_int_floor.
  - by apply Qfloor_comp.
  - rewrite Heq. apply round_nonneg. by apply Qmult_le_0_compat.
Qed.

(** A share of fewer than [2^50] voters that reaches the threshold: the
    product of the count and the threshold rounds to less than one above
    the approvals. *)
Lemma product_below (y t : Z) (p : Q) :
  0 ≤ y ≤ t → 0 < t → t < 2 ^ 50 → (0 <= p)%Q →
  (p <= Float.truediv y t)%Q →
  (Float.round (inject_Z t * p) < inject_Z y + 1)%Q.
Proof.
  intros [Hy Hyt] Ht Hsize Hp Hmet.
  assert (0 < inject_Z t)%Q as HtQ
    by (change 0%Q with (inject_Z 0); by rewrite <- Zlt_Qlt).
  assert (inject_Z y / inject_Z t * inject_Z t == inject_Z y)%Q as Hshare.
  { field. intros H0. rewrite H0 in HtQ. by apply Qlt_irrefl in HtQ. }
  destruct (decide (y = 0)) as [->|Hy0].
  { unfold Float.truediv in Hmet. rewrite round_zero in Hmet by reflexivity.
    assert (inject_Z t * p == 0)%Q as H0 by nra.
    rewrite (round_zero _ H0). reflexivity. }
  assert (1 <= inject_Z y)%Q as HyQ
    by (change 1%Q with (inject_Z 1); rewrite <- Zle_Qle; lia).
  assert (inject_Z y <= inject_Z (2 ^ 50))%Q as HyU by (rewrite <- Zle_Qle; lia).
  assert (inject_Z t <= inject_Z (2 ^ 50))%Q as HtU by (rewrite <- Zle_Qle; lia).
  assert (2 ^ (-50) * inject_Z (2 ^ 50) == 1)%Q as H50 by reflexivity.
  assert (inject_Z (2 ^ 50) * 2 ^ (-53) == 1 # 8)%Q as H53 by reflexivity.
  pose proof (pow2_pos (-50)) as Hu50. pose proof (pow2_pos (-53)) as Hu53.
  assert (2 ^ (-1022) <= inject_Z y / inject_Z t)%Q as Hnormal.
  { apply Qle_trans with (2 ^ (-50))%Q; [by apply pow2_le|].
    apply Qle_shift_div_l; [done|].
    set (u := (2 ^ (-50))%Q) in *. set (U := inject_Z (2 ^ 50)) in *. nra. }
  pose proof (round_upper _ Hnormal) as Hup. fold (Float.truediv y t) in Hup.
  assert (inject_Z t * p <= inject_Z (8 * y + 1) * 2 ^ (-3))%Q as Hprod.
  { rewrite inject_Z_plus, inject_Z_mult.
    change (inject_Z 8) with 8%Q. change (inject_Z 1) with 1%Q.
    change (2 ^ (-3))%Q with (1 # 8)%Q.
    set (x := (inject_Z y / inject_Z t)%Q) in *.
    set (r := Float.truediv y t) in *. set (u := (2 ^ (-53))%Q) in *.
    set (U := inject_Z (2 ^ 50)) in *. set (Y := inject_Z y) in *.
    set (T := inject_Z t) in *.
    assert (T * p <= T * r)%Q by nra.
    assert (T * r <= Y + Y * u)%Q by nra.
    assert (Y * u <= 1 # 8)%Q by nra.
    lra. }
  apply round_mono in Hprod. rewrite round_exact in Hprod by lia.
  eapply Qle_lt_trans; [exact Hprod|].
  rewrite inject_Z_plus, inject_Z_mult.
  change (inject_Z 8) with 8%Q. change (inject_Z 1) with 1%Q.
  change (2 ^ (-3))%Q with (1 # 8)%Q. lra.
Qed.

End progress.

(** X9. In the snapshot of [get_progress] of a ballot that satisfies the
    ballot invariant and has fewer than [2^50] eligible voters: the number
    of voters who have not voted and the number of approvals shown as
    required both lie between 0 and the number of eligible voters, and the
    remaining time is never negative.  If the ballot is Pending and the
    snapshot shows time remaining, a check at that time does not return
    TimedOut; and whenever a check returns Passed for a Pending ballot, the
    approvals are at least the number shown as required. *)
Theorem X9_progress_snapshot (now : Q) (v : Vote.t) :
  ballot_ok v →
  Vote.total_voters v < 2 ^ 50 →
  let pr := Vote.get_progress now v in
  0 ≤ pr.(Progress.not_voted) ≤ pr.(Progress.total_voters)
  ∧ 0 ≤ pr.(Progress.required_yes) ≤ pr.(Progress.total_voters)
  ∧ (0 <= pr.(Progress.remaining_time))%Q
  ∧ (Vote.status v = PENDING → (0 < pr.(Progress.remaining_time))%Q →
     (Vote.check_result now v).1 ≠ Some TIMEOUT)
  ∧ (Vote.status v = PENDING → (Vote.check_result now v).1 = Some PASSED →
     pr.(Progress.required_yes) ≤ pr.(Progress.yes_votes)).
Proof.
  intros Hok Hsize pr. pose proof (ballot_ok_counts v Hok) as Hcount.
  destruct Hok as (Hd & Hsub & _ & Hp0 & Hp1).
  assert (0 <= inject_Z (Vote.total_voters v))%Q as HT.
  { change 0%Q with (inject_Z 0). rewrite <- Zle_Qle.
    unfold Vote.total_voters. lia. }
  assert (0 <= inject_Z (Vote.total_voters v) * Vote.required_percentage v)%Q
    as Hprod0 by (by apply Qmult_le_0_compat).
  assert (pr.(Progress.required_yes)
          = Qfloor (Float.round (inject_Z (Vote.total_voters v)
                                 * Vote.required_percentage v))) as Hreq
    by (apply required_yes_eq; [lia|done]).
  rewrite Hreq. rewrite <- py_int_floor by (by apply round_nonneg).
  unfold Vote.yes_count, Vote.no_count, Vote.total_voters in Hcount.
  split_and!.
  - simpl. lia.
  - simpl. lia.
  - by apply py_int_nonneg, round_nonneg.
  - change (Progress.total_voters pr) with (Vote.total_voters v).
    apply py_int_le.
    apply Qle_trans with (Float.round (inject_Z (Vote.total_voters v))).
    + apply round_mono. rewrite <- (Qmult_1_r (inject_Z _)) at 2.
      rewrite !(Qmult_comm (inject_Z _)). by apply Qmult_le_compat_r.
    + rewrite round_Z; [apply Qle_refl|]. unfold Vote.total_voters in *. lia.
  - apply Q.le_max_l.
  - intros Hs Hpos Hto. apply remaining_time_pos in Hpos.
    destruct (decide (Vote.eligible_voters v = ∅)) as [He|He].
    { rewrite check_result_nobody in Hto by done. discriminate. }
    destruct (check_result_cases now v Hs He)
      as [(?&Heq)|[(?&?&Heq)|[(?&?&?&Heq)|(?&?&?&Heq)]]];
      rewrite Heq in Hto; try discriminate. done.
  - intros Hs Hpass.
    destruct (decide (Vote.eligible_voters v = ∅)) as [He|He].
    { rewrite check_result_nobody in Hpass by done. discriminate. }
    destruct (check_result_cases now v Hs He)
      as [(Hmet&_)|[(?&?&Heq)|[(?&?&?&Heq)|(?&?&?&Heq)]]];
      [|rewrite Heq in Hpass; discriminate..].
    change (Progress.yes_votes pr) with (Vote.yes_count v).
    apply py_int_below; [by apply round_nonneg|].
    apply product_below; try done.
    + unfold Vote.yes_count, Vote.total_voters. lia.
    + by apply total_voters_pos.
Qed.

(** Ten voters with the threshold [0.7]: the product of 10 and the double
    for [0.7] rounds to 7, which is what the snapshot shows. *)
Lemma X9_witness :
  let pr := Vote.get_progress 0 (Vote.exec_all [Vote.Cast "A" true] ten_voters_example) in
  pr.(Progress.required_yes) = 7 ∧ 0 ≤ pr.(Progress.not_voted).
Proof.
  set (v := Vote.exec_all _ _).
  assert (ballot_ok v) as Hok
    by (unfold v; apply exec_all_ballot_ok, init_ballot_ok).
  assert (Vote.total_voters v < 2 ^ 50) as Hsize by (by vm_compute).
  pose proof (X9_progress_snapshot 0 v Hok Hsize) as (H & _).
  cbv zeta in *. split; [by vm_compute | apply H].
Defined.

Section majority.

(** Below [2^53] voters a share under one half is not rounded up to one
    half: the largest double below one half is [1/2 - 2^-54]. *)
Lemma truediv_lt_half (y t : Z) :
  2 * y < t → 0 < t → t ≤ 2 ^ 53 → (Float.truediv y t < 1 # 2)%Q.
Proof.
  intros Hy Ht Hbig.
  pose proof (round_exact (2 ^ 53 - 1) (-54) eq_refl) as Hq.
  assert (inject_Z (2 ^ 53 - 1) * 2 ^ (-54) < 1 # 2)%Q as Hlt by reflexivity.
  eapply Qle_lt_trans; [|exact Hlt]. rewrite <- Hq by done.
  apply round_mono.
  assert (0 < inject_Z t)%Q as HtQ
    by (change 0%Q with (inject_Z 0); by rewrite <- Zlt_Qlt).
  apply Qle_shift_div_r; [done|].
  assert (2 * inject_Z y <= inject_Z t - 1)%Q as HyQ.
  { assert (2 * y ≤ t + - 1) as H by lia.
    rewrite Zle_Qle, inject_Z_plus, inject_Z_mult in H.
    change (inject_Z (-1)) with (-1)%Q in H. change (inject_Z 2) with 2%Q in H.
    lra. }
  assert (inject_Z t <= inject_Z (2 ^ 53))%Q as HbQ by (by rewrite <- Zle_Qle).
  assert (inject_Z (2 ^ 53 - 1) * 2 ^ (-54)
          == (1 # 2) - (1 # 2) * / inject_Z (2 ^ 53))%Q as -> by reflexivity.
  assert (inject_Z (2 ^ 53) * / inject_Z (2 ^ 53) == 1)%Q as Hinv by reflexivity.
  assert (0 < / inject_Z (2 ^ 53))%Q as Hpos by reflexivity.
  set (U := inject_Z (2 ^ 53)) in *. set (u := (/ U)%Q) in *.
  set (Y := inject_Z y) in *. set (T := inject_Z t) in *. nra.
Qed.

Lemma truediv_ge_half (y t : Z) :
  t ≤ 2 * y → 0 < t → (1 # 2 <= Float.truediv y t)%Q.
Proof.
  intros Hy Ht.
  pose proof (round_exact 1 (-1) eq_refl) as Hq.
  assert (inject_Z 1 * 2 ^ (-1) == 1 # 2)%Q as Hhalf by reflexivity.
  rewrite <- Hhalf, <- Hq by done. apply round_mono. rewrite Hhalf.
  assert (0 < inject_Z t)%Q as HtQ
    by (change 0%Q with (inject_Z 0); by rewrite <- Zlt_Qlt).
  apply Qle_shift_div_l; [done|].
  rewrite Zle_Qle, inject_Z_mult in Hy. change (inject_Z 2) with 2%Q in Hy.
  lra.
Qed.

End majority.

(** X10. With the threshold one half and fewer than [2^53] eligible
    voters, of whom there is at least one, rounding does not distort the
    majority: a Pending ballot passes exactly when twice the approvals
    reach the number of eligible voters.  The number of approvals that
    [get_progress] shows as required is that number halved and rounded
    down, so with an odd number of voters a ballot with exactly the
    approvals shown as required does not pass. *)
Theorem X10_required_yes_can_fall_short (now : Q) (v : Vote.t) :
  Vote.status v = PENDING →
  Vote.eligible_voters v ≠ ∅ →
  (Vote.required_percentage v == 1 # 2)%Q →
  Vote.total_voters v < 2 ^ 53 →
  let pr := Vote.get_progress now v in
  ((Vote.check_result now v).1 = Some PASSED
   ↔ Vote.total_voters v ≤ 2 * Vote.yes_count v)
  ∧ pr.(Progress.required_yes) = Vote.total_voters v / 2
  ∧ (Z.odd (Vote.total_voters v) = true →
     pr.(Progress.yes_votes) = pr.(Progress.required_yes) →
     (Vote.check_result now v).1 ≠ Some PASSED).
Proof.
  intros Hs He Hhalf Hsize pr.
  pose proof (total_voters_pos v He) as Hpos.
  assert ((Vote.check_result now v).1 = Some PASSED
          ↔ Vote.total_voters v ≤ 2 * Vote.yes_count v) as Hiff.
  { destruct (check_result_cases now v Hs He)
      as [(Hmet&->)|[(Hnp&_&->)|[(Hnp&_&_&->)|(Hnp&_&_&->)]]]; simpl;
      (split; [|try done]).
    - intros _. rewrite Hhalf in Hmet.
      destruct (Z.le_gt_cases (Vote.total_voters v) (2 * Vote.yes_count v))
        as [?|Hlt]; [done|].
      exfalso. apply (Qle_not_lt _ _ Hmet). apply truediv_lt_half; lia.
    - done.
    - intros Hle. destruct Hnp. rewrite Hhalf. by apply truediv_ge_half.
    - done.
    - intros Hle. destruct Hnp. rewrite Hhalf. by apply truediv_ge_half.
    - done.
    - intros Hle. destruct Hnp. rewrite Hhalf. by apply truediv_ge_half. }
  assert (pr.(Progress.required_yes) = Vote.total_voters v / 2) as Hreq.
  { unfold pr. rewrite required_yes_eq; [|done|rewrite Hhalf; done].
    assert (inject_Z (Vote.total_voters v) * Vote.required_percentage v
            == inject_Z (Vote.total_voters v) * 2 ^ (-1))%Q as Hprod
      by (rewrite Hhalf; reflexivity).
    rewrite (Qfloor_comp _ _ (round_comp _ _ Hprod)).
    rewrite (Qfloor_comp _ _ (round_exact (Vote.total_voters v) (-1)
                                ltac:(lia) ltac:(lia))).
    rewrite Zdiv_Qdiv. apply Qfloor_comp. reflexivity. }
  split_and!; [done|done|].
  intros Hodd Hyes Hpass. apply Hiff in Hpass.
  change (Progress.yes_votes pr) with (Vote.yes_count v) in Hyes.
  rewrite Hyes, Hreq in Hpass.
  apply Z.odd_spec in Hodd as [k Hk]. rewrite Hk in Hpass.
  replace (2 * k + 1) with (1 + k * 2) in Hpass at 2 by lia.
  rewrite Z.div_add in Hpass by lia. change (1 / 2) with 0 in Hpass. lia.
Qed.

Lemma X10_witness :
  let v := Vote.exec_all [Vote.Cast "A" true] three_voters_example in
  (Vote.get_progress 0 v).(Progress.required_yes) = 1
  ∧ (Vote.check_result 0 v).1 ≠ Some PASSED.
Proof.
  set (v := Vote.exec_all _ _). cbv zeta.
  destruct (X10_required_yes_can_fall_short 0 v) as (_ & Hreq & Hshort);
    [reflexivity | by vm_compute | by vm_compute | by vm_compute |].
  split; [by rewrite Hreq|]. apply Hshort; [reflexivity | by vm_compute].
Defined.

(** ** The registry: keywords *)

Section registry.
Implicit Types (r : VoteTypeRegistry.t) (config : VoteTypeConfig.t)
  (km : gmap string string) (kw ty : string).

Lemma map_keywords_lookup ty kws km kw :
  VoteTypeRegistry.map_keywords ty kws km !! kw
  = if decide (kw ∈ kws) then Some ty else km !! kw.
Proof.
  unfold VoteTypeRegistry.map_keywords. revert km.
  induction kws as [|k kws IH]; intros km; simpl.
  - destruct (decide (kw ∈ [])) as [Hin|_]; [by apply elem_of_nil in Hin|done].
  - rewrite IH, lookup_insert.
    destruct (decide (kw ∈ kws)) as [Hin|Hnin];
    destruct (decide (k = kw)) as [->|Hne];
    destruct (decide (kw ∈ _ :: kws)) as [Hin'|Hnin']; try done;
    rewrite elem_of_cons in *; naive_solver.
Qed.

Lemma delete_keywords_lookup kws km kw :
  foldl (λ km keyword, delete keyword km) km kws !! kw
  = if decide (kw ∈ kws) then None else km !! kw.
Proof.
  revert km. induction kws as [|k kws IH]; intros km; simpl.
  - destruct (decide (kw ∈ [])) as [Hin|_]; [by apply elem_of_nil in Hin|done].
  - rewrite IH, lookup_delete.
    destruct (decide (kw ∈ kws)) as [Hin|Hnin];
    destruct (decide (k = kw)) as [->|Hne];
    destruct (decide (kw ∈ _ :: kws)) as [Hin'|Hnin']; try done;
    rewrite elem_of_cons in *; naive_solver.
Qed.

(** The keyword map after a first registration. *)
Lemma register_keyword_map config r kw :
  VoteTypeRegistry._registry r !! VoteTypeConfig.vote_type config = None →
  VoteTypeRegistry._keyword_map (VoteTypeRegistry.register config r).2 !! kw
  = if decide (kw ∈ keywords_of config)
    then Some (VoteTypeConfig.vote_type config)
    else VoteTypeRegistry._keyword_map r !! kw.
Proof.
  intros Hnew. unfold VoteTypeRegistry.register, keywords_of.
  rewrite decide_False by (rewrite Hnew; by intros [? [=]]). simpl.
  rewrite !map_keywords_lookup.
  destruct (decide (kw ∈ VoteTypeConfig.consult_keywords config)) as [Hc|Hc];
  destruct (decide (kw ∈ VoteTypeConfig.start_keywords config)) as [Hs|Hs];
  destruct (decide (kw ∈ _ ++ _)) as [Hin|Hin]; try done;
  rewrite elem_of_app in Hin; naive_solver.
Qed.

Lemma register_ok config r :
  registry_ok r → registry_ok (VoteTypeRegistry.register config r).2.
Proof.
  intros [Hreg Hkw].
  destruct (VoteTypeRegistry._registry r !! VoteTypeConfig.vote_type config)
    as [old|] eqn:Hlook.
  { unfold VoteTypeRegistry.register.
    rewrite decide_True by (by rewrite Hlook). done. }
  split.
  - unfold VoteTypeRegistry.register.
    rewrite decide_False by (rewrite Hlook; by intros [? [=]]).
    cbn [snd VoteTypeRegistry._registry].
    intros ty cfg. rewrite lookup_insert. case_decide; [by intros [= <-]|].
    apply Hreg.
  - intros kw ty. rewrite register_keyword_map by done.
    assert (VoteTypeRegistry._registry (VoteTypeRegistry.register config r).2
            = <[VoteTypeConfig.vote_type config := config]>
                (VoteTypeRegistry._registry r)) as ->.
    { unfold VoteTypeRegistry.register.
      by rewrite decide_False by (rewrite Hlook; by intros [? [=]]). }
    case_decide as Hin.
    + intros [= <-]. exists config. by rewrite lookup_insert_eq.
    + intros (cfg & Hcfg & Hmem)%Hkw. exists cfg. split; [|done].
      rewrite lookup_insert_ne; [done|]. intros <-. congruence.
Qed.

Lemma unregister_ok ty r :
  registry_ok r → registry_ok (VoteTypeRegistry.unregister ty r).2.
Proof.
  intros [Hreg Hkw]. unfold VoteTypeRegistry.unregister.
  destruct (VoteTypeRegistry._registry r !! ty) as [cfg0|] eqn:Hlook; [|done].
  unfold registry_ok.
  cbn [snd VoteTypeRegistry._registry VoteTypeRegistry._keyword_map]. split.
  - intros ty' cfg. rewrite lookup_delete. case_decide; [done|]. apply Hreg.
  - intros kw ty'. rewrite delete_keywords_lookup.
    case_decide as Hin; [done|].
    intros (cfg & Hcfg & Hmem)%Hkw. exists cfg. split; [|done].
    rewrite lookup_delete_ne; [done|]. intros <-.
    rewrite Hlook in Hcfg. injection Hcfg as <-. by apply Hin.
Qed.

Lemma registry_exec_ok c r : registry_ok r → registry_ok (VoteTypeRegistry.exec c r).
Proof.
  destruct c as [config|ty|]; simpl.
  - apply register_ok.
  - apply unregister_ok.
  - intros _. split; simpl; intros ??; by rewrite lookup_empty.
Qed.

Lemma registry_exec_all_ok cs r :
  registry_ok r → registry_ok (VoteTypeRegistry.exec_all cs r).
Proof.
  revert r. induction cs as [|c cs IH]; intros r Hr; [done|].
  change (VoteTypeRegistry.exec_all (c :: cs) r)
    with (VoteTypeRegistry.exec_all cs (VoteTypeRegistry.exec c r)).
  by apply IH, registry_exec_ok.
Qed.

Lemma registry_init_ok : registry_ok VoteTypeRegistry.init.
Proof. split; simpl; intros ??; by rewrite lookup_empty. Qed.

End registry.

(** X11. In every registry built from the empty one by [register],
    [unregister] and [clear], a keyword lookup never fails on a missing
    kind: it finds nothing, or it returns a config that is registered under
    its own kind and lists the keyword, flagged as consult exactly when the
    keyword is in that config's consult list. *)
Theorem X11_keyword_lookup_is_safe (cs : list VoteTypeRegistry.call)
    (keyword : string) :
  let r := VoteTypeRegistry.exec_all cs VoteTypeRegistry.init in
  VoteTypeRegistry.get_by_keyword keyword r = Ok None
  ∨ ∃ config,
      VoteTypeRegistry.get_by_keyword keyword r
      = Ok (Some (config,
                  bool_decide (keyword ∈ VoteTypeConfig.consult_keywords config)))
      ∧ VoteTypeRegistry.get_config (VoteTypeConfig.vote_type config) r
        = Some config
      ∧ keyword ∈ keywords_of config.
Proof.
  intros r.
  destruct (registry_exec_all_ok cs _ registry_init_ok) as [Hreg Hkw].
  fold r in Hreg, Hkw. unfold VoteTypeRegistry.get_by_keyword.
  destruct (VoteTypeRegistry._keyword_map r !! keyword) as [ty|] eqn:Hk;
    [|by left].
  destruct (Hkw _ _ Hk) as (cfg & Hcfg & Hmem). rewrite Hcfg.
  right. exists cfg. split_and!; [done| |done].
  unfold VoteTypeRegistry.get_config. by rewrite (Hreg _ _ Hcfg).
Qed.

(** X12. Registering a config whose kind is not yet registered returns
    true; afterwards the kind resolves to the config, every keyword of the
    config resolves to it (also a keyword that pointed to another kind
    before), flagged as consult exactly when it is in the consult list,
    and every other keyword and every other kind resolve as before. *)
Theorem X12_register_new_kind (config : VoteTypeConfig.t)
    (r : VoteTypeRegistry.t) :
  VoteTypeRegistry._registry r !! VoteTypeConfig.vote_type config = None →
  let r' := (VoteTypeRegistry.register config r).2 in
  (VoteTypeRegistry.register config r).1 = true
  ∧ VoteTypeRegistry.get_config (VoteTypeConfig.vote_type config) r'
    = Some config
  ∧ (∀ keyword, keyword ∈ keywords_of config →
       VoteTypeRegistry.get_by_keyword keyword r'
       = Ok (Some (config,
                   bool_decide (keyword ∈ VoteTypeConfig.consult_keywords config))))
  ∧ (∀ keyword, keyword ∉ keywords_of config →
       VoteTypeRegistry._keyword_map r' !! keyword
       = VoteTypeRegistry._keyword_map r !! keyword)
  ∧ (∀ vote_type, vote_type ≠ VoteTypeConfig.vote_type config →
       VoteTypeRegistry.get_config vote_type r'
       = VoteTypeRegistry.get_config vote_type r).
Proof.
  intros Hnew r'.
  assert (VoteTypeRegistry._registry r'
          = <[VoteTypeConfig.vote_type config := config]>
              (VoteTypeRegistry._registry r)) as Hreg.
  { unfold r', VoteTypeRegistry.register.
    by rewrite decide_False by (rewrite Hnew; by intros [? [=]]). }
  split_and!.
  - unfold VoteTypeRegistry.register.
    by rewrite decide_False by (rewrite Hnew; by intros [? [=]]).
  - unfold VoteTypeRegistry.get_config. by rewrite Hreg, lookup_insert_eq.
  - intros keyword Hin. unfold VoteTypeRegistry.get_by_keyword.
    unfold r' at 1. rewrite register_keyword_map by done.
    rewrite decide_True by done. by rewrite Hreg, lookup_insert_eq.
  - intros keyword Hnin. unfold r'. rewrite register_keyword_map by done.
    by rewrite decide_False.
  - intros vote_type Hne. unfold VoteTypeRegistry.get_config.
    by rewrite Hreg, lookup_insert_ne.
Qed.

Lemma X12_witness :
  let r := VoteTypeRegistry.exec_all
             [VoteTypeRegistry.Register shutdown_config;
              VoteTypeRegistry.Register restart_config]
             VoteTypeRegistry.init in
  VoteTypeRegistry.get_by_keyword "shutdown" r = Ok (Some (restart_config, false))
  ∧ VoteTypeRegistry.get_by_keyword "reboot?" r = Ok (Some (restart_config, true)).
Proof.
  set (r0 := (VoteTypeRegistry.register shutdown_config VoteTypeRegistry.init).2).
  assert (VoteTypeRegistry._registry r0
            !! VoteTypeConfig.vote_type restart_config = None) as Hnew
    by (by vm_compute).
  destruct (X12_register_new_kind restart_config r0 Hnew) as (_ & _ & H & _).
  split.
  - apply (H "shutdown"). apply (bool_decide_unpack _). by vm_compute.
  - apply (H "reboot?"). apply (bool_decide_unpack _). by vm_compute.
Defined.

(** X13. Unregistering a kind returns true exactly when the kind is
    registered, and nothing changes otherwise.  Afterwards the kind is not
    registered and none of its config's keywords resolves any more, also
    when another kind that is still registered lists the same keyword;
    keywords outside that config and the other kinds resolve as before. *)
Theorem X13_unregister (vote_type : string) (r : VoteTypeRegistry.t) :
  let r' := (VoteTypeRegistry.unregister vote_type r).2 in
  ((VoteTypeRegistry.unregister vote_type r).1
   = VoteTypeRegistry.is_registered vote_type r)
  ∧ (VoteTypeRegistry.is_registered vote_type r = false → r' = r)
  ∧ VoteTypeRegistry.is_registered vote_type r' = false
  ∧ (∀ config keyword,
       VoteTypeRegistry.get_config vote_type r = Some config →
       keyword ∈ keywords_of config →
       VoteTypeRegistry.get_by_keyword keyword r' = Ok None)
  ∧ (∀ config keyword,
       VoteTypeRegistry.get_config vote_type r = Some config →
       keyword ∉ keywords_of config →
       VoteTypeRegistry._keyword_map r' !! keyword
       = VoteTypeRegistry._keyword_map r !! keyword)
  ∧ (∀ other, other ≠ vote_type →
       VoteTypeRegistry.get_config other r'
       = VoteTypeRegistry.get_config other r).
Proof.
  intros r'. subst r'.
  unfold VoteTypeRegistry.unregister, VoteTypeRegistry.is_registered,
    VoteTypeRegistry.get_config, VoteTypeRegistry.get_by_keyword.
  destruct (VoteTypeRegistry._registry r !! vote_type) as [cfg|] eqn:Hlook;
    cbn [fst snd VoteTypeRegistry._registry VoteTypeRegistry._keyword_map].
  - split_and!.
    + symmetry. apply bool_decide_eq_true_2. by eexists.
    + intros Hf. apply bool_decide_eq_false_1 in Hf. destruct Hf. by eexists.
    + rewrite lookup_delete_eq. apply bool_decide_eq_false_2. by intros [? [=]].
    + intros config keyword [= <-] Hin. rewrite delete_keywords_lookup.
      by rewrite decide_True.
    + intros config keyword [= <-] Hnin. rewrite delete_keywords_lookup.
      by rewrite decide_False.
    + intros other Hne. by rewrite lookup_delete_ne.
  - assert (bool_decide (is_Some (VoteTypeRegistry._registry r !! vote_type))
            = false) as Hno.
    { apply bool_decide_eq_false_2. rewrite Hlook. by intros [? [=]]. }
    split_and!; done.
Qed.

Lemma X13_witness :
  let r := VoteTypeRegistry.exec_all
             [VoteTypeRegistry.Register shutdown_config;
              VoteTypeRegistry.Register restart_config;
              VoteTypeRegistry.Unregister "restart"]
             VoteTypeRegistry.init in
  VoteTypeRegistry.is_registered "shutdown" r = true
  ∧ VoteTypeRegistry.get_by_keyword "shutdown" r = Ok None.
Proof.
  set (r0 := VoteTypeRegistry.exec_all
               [VoteTypeRegistry.Register shutdown_config;
                VoteTypeRegistry.Register restart_config]
               VoteTypeRegistry.init).
  destruct (X13_unregister "restart" r0) as (_ & _ & _ & H & _).
  split; [by vm_compute|].
  apply (H restart_config "shutdown");
    [by vm_compute | apply (bool_decide_unpack _); by vm_compute].
Defined.

(** X14. Registering a config of a new kind, none of whose keywords is
    mapped yet, and then unregistering the kind gives back the registry as
    it was: both calls return true and both maps are restored. *)
Theorem X14_register_then_unregister (config : VoteTypeConfig.t)
    (r : VoteTypeRegistry.t) :
  VoteTypeRegistry._registry r !! VoteTypeConfig.vote_type config = None →
  (∀ keyword, keyword ∈ keywords_of config →
     VoteTypeRegistry._keyword_map r !! keyword = None) →
  (VoteTypeRegistry.register config r).1 = true
  ∧ VoteTypeRegistry.unregister (VoteTypeConfig.vote_type config)
      (VoteTypeRegistry.register config r).2 = (true, r).
Proof.
  intros Hnew Hfree.
  pose proof (register_keyword_map config r) as Hkm.
  unfold VoteTypeRegistry.register in *.
  rewrite decide_False in * by (rewrite Hnew; by intros [? [=]]).
  split; [done|]. simpl in *. unfold VoteTypeRegistry.unregister. simpl.
  rewrite lookup_insert_eq. f_equal.
  rewrite delete_insert_id by done.
  destruct r as [reg km]. simpl in *. f_equal.
  apply map_eq. intros kw. rewrite delete_keywords_lookup.
  fold (keywords_of config). case_decide as Hin.
  - symmetry. by apply Hfree.
  - rewrite Hkm by done. by rewrite decide_False.
Qed.

Lemma X14_witness :
  VoteTypeRegistry.unregister "shutdown"
    (VoteTypeRegistry.register shutdown_config VoteTypeRegistry.init).2
  = (true, VoteTypeRegistry.init).
Proof.
  apply (X14_register_then_unregister shutdown_config VoteTypeRegistry.init).
  - by vm_compute.
  - intros keyword _. apply lookup_empty.
Defined.

(** ** The manager: what its calls keep *)

Section dict_more.
Context {V : Type}.
Implicit Types (d : Dict.t V) (k : string) (v : V).

Lemma dict_get_set_ne k k' v d :
  k ≠ k' → Dict.get k' (Dict.set k v d) = Dict.get k' d.
Proof.
  intros Hne. induction d as [|[k0 v0] d IH]; simpl.
  - by rewrite decide_False.
  - destruct (decide (k0 = k)) as [->|Hk]; simpl.
    + by rewrite !decide_False.
    + destruct (decide (k0 = k')); [done|apply IH].
Qed.

(** A stored entry splits the dict; storing under its key replaces it. *)
Lemma dict_set_split k v d :
  Dict.get k d = Some v →
  ∃ d1 d2, d = d1 ++ (k, v) :: d2
           ∧ ∀ v', Dict.set k v' d = d1 ++ (k, v') :: d2.
Proof.
  induction d as [|[k0 v0] d IH]; simpl; [done|].
  destruct (decide (k0 = k)) as [->|Hne].
  - intros [= ->]. exists [], d. split; [done|]. intros v'. done.
  - intros (d1 & d2 & -> & Hset)%IH. exists ((k0, v0) :: d1), d2.
    split; [done|]. intros v'. simpl. by rewrite Hset.
Qed.

End dict_more.

Section manager_invariant.
Implicit Types (m : VoteManager.t) (vote : Vote.t) (id : string).

Lemma pending_app (l1 l2 : list Vote.t) :
  filter (λ vote, Vote.status vote = PENDING) (l1 ++ l2)
  = filter (λ vote, Vote.status vote = PENDING) l1
    ++ filter (λ vote, Vote.status vote = PENDING) l2.
Proof. apply filter_app. Qed.

(** Storing the result of a call on a stored ballot keeps the invariant. *)
Lemma store_exec_ok id vote c m :
  VoteManager.get_vote id m = Some vote →
  manager_ok m → manager_ok (VoteManager.store id (Vote.exec c vote) m).
Proof.
  unfold VoteManager.get_vote. intros Hget (Hwf & Hids & Hkey & Hkind & Hok).
  destruct (dict_set_split _ _ _ Hget) as (d1 & d2 & Hd & Hset).
  unfold manager_ok, VoteManager.store, ids_bounded, Dict.wf,
    VoteManager.get_all_pending_votes, Dict.values, Dict.keys in *.
  cbn [VoteManager.active_votes VoteManager._vote_counter] in *.
  rewrite Hset. rewrite Hd in Hwf, Hids, Hkey, Hkind, Hok.
  rewrite !fmap_app, !fmap_cons in *. cbn [fst snd] in *.
  split_and!; try done.
  - apply Forall_app in Hkey as [Hk1 [Hk Hk2]%Forall_cons].
    apply Forall_app. split; [done|]. apply Forall_cons. split; [|done].
    simpl in *. by rewrite exec_vote_id.
  - rewrite pending_app, filter_cons in *.
    destruct (decide (Vote.status (Vote.exec c vote) = PENDING)) as [Hp|Hp].
    + assert (Vote.status vote = PENDING) as Hp'.
      { destruct (exec_status c vote) as [Heq|[? _]]; [|done].
        by rewrite <- Heq. }
      rewrite decide_True in Hkind by done.
      rewrite !fmap_app, !fmap_cons in *. by rewrite exec_vote_type.
    + destruct (decide (Vote.status vote = PENDING));
        rewrite !fmap_app, ?fmap_cons in *; [|done].
      apply NoDup_app in Hkind as (H1 & H2 & [_ H3]%NoDup_cons).
      apply NoDup_app. split_and!; [done| |done].
      intros x Hx Hx2. apply (H2 x Hx). by apply list_elem_of_further.
  - apply Forall_app in Hok as [Ho1 [Ho Ho2]%Forall_cons].
    apply Forall_app. split; [done|]. apply Forall_cons. split; [|done].
    by apply exec_ballot_ok.
Qed.

(** A successful creation appends the new ballot. *)
Lemma create_vote_appends now_id now vote_type initiator initiator_id eligible
    p timeout cb description m vote :
  ids_bounded m →
  (VoteManager.create_vote now_id now vote_type initiator initiator_id eligible
     p timeout cb description m).1 = Some vote →
  VoteManager.active_votes
    (VoteManager.create_vote now_id now vote_type initiator initiator_id
       eligible p timeout cb description m).2
  = VoteManager.active_votes m ++ [(Vote.vote_id vote, vote)]
  ∧ Vote.vote_id vote
    = VoteManager.make_vote_id vote_type (VoteManager._vote_counter m + 1) now_id
  ∧ VoteManager._vote_counter
      (VoteManager.create_vote now_id now vote_type initiator initiator_id
         eligible p timeout cb description m).2
    = VoteManager._vote_counter m + 1.
Proof.
  intros Hids. unfold VoteManager.create_vote.
  destruct (decide _) as [|Hfree]; [done|]. cbn [fst snd].
  intros [= <-]. cbn [VoteManager.active_votes Vote.vote_id Vote.init].
  split; [|done]. apply dict_set_new. by apply next_id_fresh.
Qed.

Lemma create_ok now_id now vote_type initiator initiator_id eligible
    p timeout cb description m :
  manager_ok m →
  manager_ok (VoteManager.create_vote now_id now vote_type initiator
                initiator_id eligible p timeout cb description m).2.
Proof.
  intros Hm.
  destruct (decide (Exists (λ vote, Vote.vote_type vote = vote_type
                                    ∧ Vote.status vote = PENDING)
                           (Dict.values (VoteManager.active_votes m))))
    as [Hex|Hex].
  { by rewrite create_vote_blocked. }
  destruct Hm as (Hwf & Hids & Hkey & Hkind & Hok).
  pose proof (next_id_fresh vote_type now_id m Hids) as Hfresh.
  rewrite create_vote_free by done. cbn [snd].
  unfold manager_ok, ids_bounded, Dict.wf, VoteManager.get_all_pending_votes,
    Dict.values, Dict.keys in *.
  cbn [VoteManager.active_votes VoteManager._vote_counter].
  rewrite dict_set_new by done.
  rewrite !fmap_app. cbn [fmap list_fmap fst snd].
  split_and!.
  - apply NoDup_app. split_and!; [done| |apply NoDup_singleton].
    intros x Hx ->%list_elem_of_singleton. by apply Hfresh.
  - apply Forall_app. split.
    + eapply Forall_impl; [exact Hids|]. simpl.
      intros id (ty & c & t & -> & Hle). exists ty, c, t. split; [done|lia].
    + apply Forall_singleton. eexists _, _, _. split; [done|lia].
  - apply Forall_app. split; [done|]. by apply Forall_singleton.
  - rewrite pending_app, fmap_app. rewrite filter_cons_True by done.
    rewrite filter_nil. cbn [fmap list_fmap Vote.vote_type Vote.init].
    apply NoDup_app. split_and!; [done| |apply NoDup_singleton].
    intros x Hx ->%list_elem_of_singleton. apply Hex.
    apply list_elem_of_fmap in Hx as (vote & Hty & Hin).
    apply list_elem_of_filter in Hin as [Hp Hin].
    apply Exists_exists. exists vote. by split.
  - apply Forall_app. split; [done|]. apply Forall_singleton.
    apply init_ballot_ok.
Qed.

(** The sweep does not touch the open ballots. *)
Lemma sweep_keeps_pending (cutoff_time : Q) (d : Dict.t Vote.t) :
  filter (λ vote, Vote.status vote = PENDING)
    (List.filter (λ kv, negb (VoteManager.expired cutoff_time kv.2)) d).*2
  = filter (λ vote, Vote.status vote = PENDING) d.*2.
Proof.
  induction d as [|[k v] d IH]; [done|].
  cbn [List.filter snd].
  destruct (VoteManager.expired cutoff_time v) eqn:He; cbn [negb].
  - apply expired_spec in He as [Hs _]. rewrite fmap_cons. cbn [snd].
    rewrite (filter_cons_False _ v) by done. exact IH.
  - rewrite !fmap_cons. cbn [snd]. rewrite !filter_cons.
    destruct (decide _); by rewrite IH.
Qed.

Lemma sweep_ok now keep m :
  manager_ok m → manager_ok (VoteManager.cleanup_finished_votes now keep m).2.
Proof.
  intros (Hwf & Hids & Hkey & Hkind & Hok).
  rewrite cleanup_finished_votes_eq by done. cbn [snd].
  set (f := λ kv : string * Vote.t, negb (VoteManager.expired _ kv.2)).
  assert (∀ kv, kv ∈ List.filter f (VoteManager.active_votes m) →
                kv ∈ VoteManager.active_votes m) as Hsub.
  { intros kv. rewrite !list_elem_of_In, List.filter_In. tauto. }
  unfold manager_ok, ids_bounded, Dict.wf, VoteManager.get_all_pending_votes,
    Dict.values, Dict.keys in *.
  cbn [VoteManager.active_votes VoteManager._vote_counter].
  split_and!.
  - clear -Hwf. induction (VoteManager.active_votes m) as [|[k v] d IH];
      [done|]. simpl in *. apply NoDup_cons in Hwf as [Hk Hd].
    destruct (f (k, v)); [|by apply IH]. csimpl. apply NoDup_cons.
    split; [|by apply IH]. intros ((k'&v')&Heq&Hin)%list_elem_of_fmap.
    simpl in Heq. subst k'. apply Hk. apply list_elem_of_fmap.
    exists (k, v'). split; [done|].
    apply list_elem_of_In. apply list_elem_of_In, List.filter_In in Hin. tauto.
  - rewrite Forall_forall in *. intros id ((k&v)&->&Hin)%list_elem_of_fmap.
    apply Hids. apply list_elem_of_fmap. exists (k, v). split; [done|]. auto.
  - rewrite Forall_forall in *. auto.
  - unfold f. by rewrite sweep_keeps_pending.
  - rewrite Forall_forall in *. intros v ((k&v')&->&Hin)%list_elem_of_fmap.
    apply Hok. apply list_elem_of_fmap. exists (k, v'). split; [done|]. auto.
Qed.

Lemma manager_exec_ok c m : manager_ok m → manager_ok (VoteManager.exec c m).
Proof.
  intros Hm.
  destruct c as [now_id now ty ini iid el p tmo cb de | vote_id voter_id vote_yes
                | vote_id voter_id | vote_id | now vote_id | now keep];
    cbn [VoteManager.exec].
  - by apply create_ok.
  - unfold VoteManager.cast_vote.
    destruct (VoteManager.get_vote vote_id m) as [vote|] eqn:Hget; [|done].
    pose proof (store_exec_ok vote_id vote (Vote.Cast voter_id vote_yes) m
                  Hget Hm) as H.
    simpl in H. by destruct (Vote.cast_vote _ _ _).
  - unfold VoteManager.withdraw_vote.
    destruct (VoteManager.get_vote vote_id m) as [vote|] eqn:Hget; [|done].
    pose proof (store_exec_ok vote_id vote (Vote.Withdraw voter_id) m
                  Hget Hm) as H.
    simpl in H. by destruct (Vote.withdraw_vote _ _).
  - unfold VoteManager.delete_vote.
    destruct (VoteManager.get_vote vote_id m) as [vote|] eqn:Hget; [|done].
    pose proof (store_exec_ok vote_id vote Vote.Cancel m Hget Hm) as H.
    simpl in H. by destruct (Vote.cancel _).
  - unfold VoteManager.check_and_finalize_vote.
    destruct (VoteManager.get_vote vote_id m) as [vote|] eqn:Hget; [|done].
    pose proof (store_exec_ok vote_id vote (Vote.CheckResult now) m
                  Hget Hm) as H.
    simpl in H. by destruct (Vote.check_result _ _).
  - by apply sweep_ok.
Qed.

Lemma manager_exec_all_ok cs m :
  manager_ok m → manager_ok (VoteManager.exec_all cs m).
Proof.
  revert m. induction cs as [|c cs IH]; intros m Hm; [done|].
  change (VoteManager.exec_all (c :: cs) m)
    with (VoteManager.exec_all cs (VoteManager.exec c m)).
  by apply IH, manager_exec_ok.
Qed.

Lemma manager_init_ok : manager_ok VoteManager.init.
Proof.
  unfold manager_ok, ids_bounded, Dict.wf. simpl.
  split_and!; try apply Forall_nil_2; apply NoDup_nil_2.
Qed.

End manager_invariant.

(** X15. In every manager built from the empty one by its calls, the
    ballot ids are pairwise distinct, a ballot is found under an id exactly
    when it is stored with that id, the id it is found under is its own
    [vote_id], and it satisfies the ballot invariant (disjoint sets, votes
    by eligible voters only, status not Error, threshold in [0, 1]). *)
Theorem X15_manager_ids (cs : list VoteManager.call) :
  let m := VoteManager.exec_all cs VoteManager.init in
  NoDup (Dict.keys (VoteManager.active_votes m))
  ∧ (∀ id vote, VoteManager.get_vote id m = Some vote
                ↔ (id, vote) ∈ VoteManager.active_votes m)
  ∧ (∀ id vote, VoteManager.get_vote id m = Some vote →
                Vote.vote_id vote = id ∧ ballot_ok vote).
Proof.
  intros m.
  destruct (manager_exec_all_ok cs _ manager_init_ok)
    as (Hwf & _ & Hkey & _ & Hok).
  fold m in Hwf, Hkey, Hok. split_and!; [done| |].
  - intros id vote. unfold VoteManager.get_vote.
    split; [apply dict_get_elem | by apply dict_elem_get].
  - intros id vote Hin%dict_get_elem. split.
    + by apply (proj1 (Forall_forall _ _) Hkey (id, vote)).
    + apply (proj1 (Forall_forall _ _) Hok).
      apply list_elem_of_fmap. by exists (id, vote).
Qed.

Section one_per_kind.
Implicit Types (m : VoteManager.t) (vote : Vote.t).

Lemma NoDup_fmap_unique {A B} (f : A → B) (l : list A) (x y : A) :
  NoDup (f <$> l) → x ∈ l → y ∈ l → f x = f y → x = y.
Proof.
  intros Hnd [i Hi]%list_elem_of_lookup [j Hj]%list_elem_of_lookup Hf.
  assert (i = j) as ->; [|congruence].
  eapply (NoDup_lookup _ _ _ (f x) Hnd).
  - by rewrite list_lookup_fmap, Hi.
  - by rewrite list_lookup_fmap, Hj, Hf.
Qed.

Lemma get_pending_vote_by_type_spec ty m vote :
  VoteManager.get_pending_vote_by_type ty m = Some vote →
  vote ∈ VoteManager.get_all_pending_votes m ∧ Vote.vote_type vote = ty.
Proof.
  unfold VoteManager.get_pending_vote_by_type,
    VoteManager.get_all_pending_votes.
  intros [Hin [Hty Hp]%bool_decide_eq_true]%List.find_some.
  split; [|done]. apply list_elem_of_filter. split; [done|].
  by apply list_elem_of_In.
Qed.

Lemma get_pending_vote_by_type_None ty m :
  VoteManager.get_pending_vote_by_type ty m = None →
  ¬ Exists (λ vote, Vote.vote_type vote = ty ∧ Vote.status vote = PENDING)
           (Dict.values (VoteManager.active_votes m)).
Proof.
  unfold VoteManager.get_pending_vote_by_type. intros Hnone.
  rewrite Exists_exists. intros (vote & Hin & Hty & Hp).
  apply list_elem_of_In in Hin.
  pose proof (List.find_none _ _ Hnone vote Hin) as Hf. simpl in Hf.
  apply bool_decide_eq_false in Hf. by apply Hf.
Qed.

End one_per_kind.

(** X16. In every manager built from the empty one by its calls there is
    at most one Pending ballot of each kind, and
    [get_pending_vote_by_type] returns a ballot exactly when it is that
    Pending ballot of the kind. *)
Theorem X16_one_open_ballot_per_kind (cs : list VoteManager.call) :
  let m := VoteManager.exec_all cs VoteManager.init in
  (∀ v1 v2, v1 ∈ VoteManager.get_all_pending_votes m →
            v2 ∈ VoteManager.get_all_pending_votes m →
            Vote.vote_type v1 = Vote.vote_type v2 → v1 = v2)
  ∧ (∀ vote_type vote,
       VoteManager.get_pending_vote_by_type vote_type m = Some vote
       ↔ vote ∈ VoteManager.get_all_pending_votes m
         ∧ Vote.vote_type vote = vote_type).
Proof.
  intros m.
  destruct (manager_exec_all_ok cs _ manager_init_ok) as (_ & _ & _ & Hkind & _).
  fold m in Hkind.
  assert (∀ v1 v2, v1 ∈ VoteManager.get_all_pending_votes m →
                   v2 ∈ VoteManager.get_all_pending_votes m →
                   Vote.vote_type v1 = Vote.vote_type v2 → v1 = v2) as Huniq.
  { intros v1 v2 H1 H2 Hty. by eapply NoDup_fmap_unique. }
  split; [done|]. intros ty vote. split.
  - apply get_pending_vote_by_type_spec.
  - intros [Hin Hty].
    destruct (VoteManager.get_pending_vote_by_type ty m) as [vote'|] eqn:Hfind.
    + apply get_pending_vote_by_type_spec in Hfind as [Hin' Hty'].
      f_equal. apply Huniq; congruence.
    + apply get_pending_vote_by_type_None in Hfind. destruct Hfind.
      apply Exists_exists. exists vote.
      apply list_elem_of_filter in Hin as [Hp Hin]. done.
Qed.

Section counter.
Implicit Types (m : VoteManager.t).

Lemma exec_counter_mono c m :
  VoteManager._vote_counter m ≤ VoteManager._vote_counter (VoteManager.exec c m).
Proof.
  destruct c as [now_id now ty ini iid el p tmo cb de | vote_id voter_id vote_yes
                | vote_id voter_id | vote_id | now vote_id | now keep];
    cbn [VoteManager.exec].
  - unfold VoteManager.create_vote. destruct (decide _); simpl; lia.
  - unfold VoteManager.cast_vote.
    destruct (VoteManager.get_vote _ _); [|done].
    by destruct (Vote.cast_vote _ _ _).
  - unfold VoteManager.withdraw_vote.
    destruct (VoteManager.get_vote _ _); [|done].
    by destruct (Vote.withdraw_vote _ _).
  - unfold VoteManager.delete_vote.
    destruct (VoteManager.get_vote _ _); [|done]. by destruct (Vote.cancel _).
  - unfold VoteManager.check_and_finalize_vote.
    destruct (VoteManager.get_vote _ _); [|done].
    by destruct (Vote.check_result _ _).
  - done.
Qed.

Lemma exec_all_counter_mono cs m :
  VoteManager._vote_counter m
  ≤ VoteManager._vote_counter (VoteManager.exec_all cs m).
Proof.
  revert m. induction cs as [|c cs IH]; intros m; [done|].
  change (VoteManager.exec_all (c :: cs) m)
    with (VoteManager.exec_all cs (VoteManager.exec c m)).
  etrans; [apply (exec_counter_mono c)|apply IH].
Qed.

End counter.

(** X17. In a manager built from the empty one by its calls, a successful
    [create_vote] never overwrites: it appends the new ballot under its
    own id, after all ballots already stored, and that id was never the id
    of a ballot at any earlier point of the history, also not of a ballot
    that the sweep has removed since. *)
Theorem X17_ids_are_never_reused (cs1 cs2 : list VoteManager.call)
    (now_id now : Q) (vote_type initiator initiator_id : string)
    (eligible : gset string) (p timeout : Q) (cb : option Callback)
    (description : string) (vote : Vote.t) :
  let m1 := VoteManager.exec_all cs1 VoteManager.init in
  let m := VoteManager.exec_all cs2 m1 in
  let r := VoteManager.create_vote now_id now vote_type initiator initiator_id
             eligible p timeout cb description m in
  r.1 = Some vote →
  VoteManager.active_votes r.2
  = VoteManager.active_votes m ++ [(Vote.vote_id vote, vote)]
  ∧ Vote.vote_id vote ∉ Dict.keys (VoteManager.active_votes m1)
  ∧ Vote.vote_id vote ∉ Dict.keys (VoteManager.active_votes m)
  ∧ (∀ id old, VoteManager.get_vote id m = Some old →
               VoteManager.get_vote id r.2 = Some old).
Proof.
  intros m1 m r Hr.
  destruct (manager_exec_all_ok cs1 _ manager_init_ok) as (_ & Hids1 & _).
  fold m1 in Hids1.
  destruct (manager_exec_all_ok cs2 m1) as (Hwf & Hids & _).
  { apply manager_exec_all_ok, manager_init_ok. }
  fold m in Hwf, Hids.
  destruct (create_vote_appends _ _ _ _ _ _ _ _ _ _ _ _ Hids Hr)
    as (Happ & Hid & _).
  fold r in Happ.
  assert (Vote.vote_id vote ∉ Dict.keys (VoteManager.active_votes m)) as Hnew.
  { rewrite Hid. by apply next_id_fresh. }
  split_and!; [done| |done|].
  - rewrite Hid. intros Hin. unfold ids_bounded in Hids1.
    rewrite Forall_forall in Hids1.
    destruct (Hids1 _ Hin) as (ty & c & t & Heq & Hle).
    apply make_vote_id_counter in Heq.
    pose proof (exec_all_counter_mono cs2 m1). fold m in H. lia.
  - intros id old Hget. unfold VoteManager.get_vote in *. rewrite Happ.
    clear -Hget. induction (VoteManager.active_votes m) as [|[k v] d IH];
      simpl in *; [done|].
    destruct (decide (k = id)); [done|by apply IH].
Qed.

Lemma X17_witness :
  "kick_2_5" ∉ Dict.keys (VoteManager.active_votes
    (VoteManager.exec_all
       [open_ballot 5 "kick"; VoteManager.DeleteVote "kick_1_5"]
       VoteManager.init)).
Proof.
  set (cs1 := [open_ballot 5 "kick"; VoteManager.DeleteVote "kick_1_5"]).
  set (cs2 := [VoteManager.Cleanup 1000 0]).
  set (vote := Vote.init 5 "kick_2_5" "kick" "ann" "1" {["A"; "B"]} 1 300 None
                 "vote" 1).
  destruct (X17_ids_are_never_reused cs1 cs2 5 5 "kick" "ann" "1" {["A"; "B"]}
              1 300 None "vote" vote) as (_ & H & _).
  - by vm_compute.
  - exact H.
Defined.

(** X18. A manager call addressed to a ballot id (cast, withdraw, delete,
    check) runs the ballot's own method on the ballot stored under that id
    and stores the result there; every other ballot, the order of the ids
    and the id counter are left as they were, and an unknown id changes
    nothing. *)
Theorem X18_calls_reach_one_ballot (c : VoteManager.call) (id : string)
    (bc : Vote.call) (m : VoteManager.t) :
  addressed c = Some (id, bc) →
  let m' := VoteManager.exec c m in
  (∀ id', VoteManager.get_vote id' m'
          = if decide (id' = id)
            then Vote.exec bc <$> VoteManager.get_vote id m
            else VoteManager.get_vote id' m)
  ∧ Dict.keys (VoteManager.active_votes m')
    = Dict.keys (VoteManager.active_votes m)
  ∧ VoteManager._vote_counter m' = VoteManager._vote_counter m
  ∧ (VoteManager.get_vote id m = None → m' = m).
Proof.
  intros Haddr m'.
  assert (m' = match VoteManager.get_vote id m with
               | Some vote => VoteManager.store id (Vote.exec bc vote) m
               | None => m
               end) as ->.
  { subst m'. destruct c; simpl in Haddr; try discriminate;
      injection Haddr as <- <-; cbn [VoteManager.exec Vote.exec];
      unfold VoteManager.cast_vote, VoteManager.withdraw_vote,
        VoteManager.delete_vote, VoteManager.check_and_finalize_vote;
      destruct (VoteManager.get_vote _ m); try done.
    - by destruct (Vote.cast_vote _ _ _).
    - by destruct (Vote.withdraw_vote _ _).
    - by destruct (Vote.cancel _).
    - by destruct (Vote.check_result _ _). }
  destruct (VoteManager.get_vote id m) as [vote|] eqn:Hget.
  - split_and!; try done.
    + intros id'. unfold VoteManager.get_vote, VoteManager.store. simpl.
      destruct (decide (id' = id)) as [->|Hne].
      * apply dict_get_set.
      * by apply dict_get_set_ne.
    + unfold VoteManager.store. simpl. by eapply dict_set_keys.
  - split_and!; try done.
    intros id'. destruct (decide (id' = id)) as [->|]; [|done].
    by rewrite Hget.
Qed.

Lemma X18_witness :
  VoteManager.get_vote "b_2_1"
    (VoteManager.exec (VoteManager.DeleteVote "a_1_0") three_open_example)
  = VoteManager.get_vote "b_2_1" three_open_example.
Proof.
  destruct (X18_calls_reach_one_ballot (VoteManager.DeleteVote "a_1_0")
              "a_1_0" Vote.Cancel three_open_example eq_refl) as (H & _).
  rewrite (H "b_2_1"). by rewrite decide_False by (by vm_compute).
Defined.

(** ** The manager: deleting, sweeping, finalizing *)

Section deleting.
Implicit Types (m : VoteManager.t) (vote : Vote.t) (id : string).

(** Deleting a stored open ballot cancels it in place. *)
Lemma delete_vote_pending id vote m :
  VoteManager.get_vote id m = Some vote → Vote.status vote = PENDING →
  VoteManager.delete_vote id m
  = (true, VoteManager.store id (Vote.set_status CANCELLED vote) m).
Proof.
  intros Hget Hs. unfold VoteManager.delete_vote. rewrite Hget.
  unfold Vote.cancel. by rewrite decide_False by (by rewrite Hs; intros []).
Qed.

(** An open ballot of a manager is stored under its own id. *)
Lemma pending_is_stored m vote :
  manager_ok m → vote ∈ VoteManager.get_all_pending_votes m →
  VoteManager.get_vote (Vote.vote_id vote) m = Some vote
  ∧ Vote.status vote = PENDING.
Proof.
  intros (Hwf & _ & Hkey & _) [Hp Hin]%list_elem_of_filter.
  split; [|done]. apply list_elem_of_fmap in Hin as ([k v] & -> & Hin).
  rewrite Forall_forall in Hkey. rewrite (Hkey _ Hin). simpl.
  by apply dict_elem_get.
Qed.

(** After the open ballot of a kind is cancelled, none of that kind is open. *)
Lemma cancelled_kind_is_free m vote :
  manager_ok m → vote ∈ VoteManager.get_all_pending_votes m →
  ¬ Exists (λ v, Vote.vote_type v = Vote.vote_type vote
                 ∧ Vote.status v = PENDING)
      (Dict.values (VoteManager.active_votes
         (VoteManager.store (Vote.vote_id vote)
            (Vote.set_status CANCELLED vote) m))).
Proof.
  intros Hm Hin. destruct (pending_is_stored m vote Hm Hin) as [Hget Hs].
  destruct Hm as (_ & _ & _ & Hkind & _).
  destruct (dict_set_split _ _ _ Hget) as (d1 & d2 & Hd & Hset).
  unfold VoteManager.store, VoteManager.get_all_pending_votes, Dict.values in *.
  cbn [VoteManager.active_votes]. rewrite Hset. rewrite Hd in Hkind.
  rewrite !fmap_app, !fmap_cons in *. cbn [snd] in *.
  rewrite pending_app, filter_cons_True, fmap_app, fmap_cons in Hkind by done.
  apply NoDup_app in Hkind as (_ & H1 & [H2 _]%NoDup_cons).
  rewrite Exists_exists. intros (v & Hv & Hty & Hp).
  apply elem_of_app in Hv as [Hv|[->|Hv]%elem_of_cons].
  - apply (H1 (Vote.vote_type vote)); [|apply list_elem_of_here].
    apply list_elem_of_fmap. exists v. split; [done|].
    by apply list_elem_of_filter.
  - done.
  - apply H2. apply list_elem_of_fmap. exists v. split; [done|].
    by apply list_elem_of_filter.
Qed.

End deleting.

(** X19. In a manager built from the empty one by its calls, deleting the
    Pending ballot of a kind succeeds, leaves it stored as Cancelled, and
    frees the kind: no Pending ballot of the kind is left and a new ballot
    of the kind can be created at once. *)
Theorem X19_delete_frees_the_kind (cs : list VoteManager.call)
    (vote_type : string) (vote : Vote.t) :
  let m := VoteManager.exec_all cs VoteManager.init in
  VoteManager.get_pending_vote_by_type vote_type m = Some vote →
  let r := VoteManager.delete_vote (Vote.vote_id vote) m in
  r.1 = true
  ∧ VoteManager.get_vote (Vote.vote_id vote) r.2
    = Some (Vote.set_status CANCELLED vote)
  ∧ VoteManager.get_pending_vote_by_type vote_type r.2 = None
  ∧ (∀ now_id now initiator initiator_id eligible p timeout cb description,
       (VoteManager.create_vote now_id now vote_type initiator initiator_id
          eligible p timeout cb description r.2).1 ≠ None).
Proof.
  intros m Hfind r.
  pose proof (manager_exec_all_ok cs _ manager_init_ok) as Hm. fold m in Hm.
  apply get_pending_vote_by_type_spec in Hfind as [Hin <-].
  destruct (pending_is_stored m vote Hm Hin) as [Hget Hs].
  pose proof (cancelled_kind_is_free m vote Hm Hin) as Hfree.
  subst r. rewrite (delete_vote_pending _ _ _ Hget Hs). cbn [fst snd].
  split_and!; [done| | |].
  - unfold VoteManager.get_vote, VoteManager.store. simpl. apply dict_get_set.
  - destruct (VoteManager.get_pending_vote_by_type _ _) as [v|] eqn:Hv;
      [|done].
    apply get_pending_vote_by_type_spec in Hv as [Hv Hty]. destruct Hfree.
    apply list_elem_of_filter in Hv as [Hp Hv].
    apply Exists_exists. by exists v.
  - intros. by rewrite create_vote_free.
Qed.

Lemma X19_witness :
  (VoteManager.create_vote 9 9 "kick" "bob" "2" {["A"]} 1 300 None "vote"
     (VoteManager.delete_vote "kick_1_0" one_open_example).2).1 ≠ None.
Proof.
  destruct (X19_delete_frees_the_kind [open_ballot 0 "kick"] "kick"
              (Vote.init 0 "kick_1_0" "kick" "ann" "1" {["A"; "B"]} 1 300 None
                 "vote" 1)) as (_ & _ & _ & H).
  - by vm_compute.
  - apply H.
Defined.

Section sweeping.
Implicit Types (m : VoteManager.t).

Lemma filter_twice {A} (f : A → bool) (l : list A) :
  List.filter f (List.filter f l) = List.filter f l.
Proof.
  induction l as [|x l IH]; [done|]. simpl.
  destruct (f x) eqn:Hx; [|done]. simpl. by rewrite Hx, IH.
Qed.

Lemma filter_none_left {A} (f : A → bool) (l : list A) :
  List.filter f (List.filter (λ x, negb (f x)) l) = [].
Proof.
  induction l as [|x l IH]; [done|]. simpl.
  destruct (f x) eqn:Hx; [done|]. simpl. by rewrite Hx.
Qed.

End sweeping.

(** X20. In a manager built from the empty one by its calls, the sweep
    leaves the Pending ballots and their order exactly as they are and
    does not move the id counter, and it is idempotent: a second sweep with
    the same clock reading and window removes nothing and returns 0. *)
Theorem X20_sweep_is_idempotent (cs : list VoteManager.call) (now : Q)
    (keep : Z) :
  let m := VoteManager.exec_all cs VoteManager.init in
  let m' := (VoteManager.cleanup_finished_votes now keep m).2 in
  VoteManager.get_all_pending_votes m' = VoteManager.get_all_pending_votes m
  ∧ VoteManager._vote_counter m' = VoteManager._vote_counter m
  ∧ VoteManager.cleanup_finished_votes now keep m' = (0, m').
Proof.
  intros m m'.
  pose proof (manager_exec_all_ok cs _ manager_init_ok) as Hm. fold m in Hm.
  pose proof (sweep_ok now keep m Hm) as Hm'. fold m' in Hm'.
  destruct Hm as (Hwf & _). destruct Hm' as (Hwf' & _).
  rewrite (cleanup_finished_votes_eq now keep m') by done.
  subst m'. rewrite (cleanup_finished_votes_eq now keep m) in * by done.
  cbn [snd VoteManager.active_votes VoteManager._vote_counter] in *.
  split_and!; [|done|].
  - unfold VoteManager.get_all_pending_votes, Dict.values.
    cbn [VoteManager.active_votes]. apply sweep_keeps_pending.
  - rewrite filter_none_left. simpl. f_equal. f_equal.
    apply (filter_twice (λ kv, negb (VoteManager.expired _ kv.2))).
Qed.



(** ** The manager: lookup by display index *)

Section by_index.
Implicit Types (m : VoteManager.t) (vote : Vote.t).

(** In a list of open ballots numbered [s, s+1, ...], the search by index
    finds the ballot at the matching position. *)
Lemma find_by_index (l : list Vote.t) (s : nat) (i : Z) :
  Forall (λ vote, Vote.status vote = PENDING) l →
  Vote.index <$> l = Z.of_nat <$> seq s (length l) →
  List.find (λ vote, bool_decide (Vote.status vote = PENDING
                                  ∧ Vote.index vote = i)) l
  = if decide (Z.of_nat s ≤ i < Z.of_nat s + Z.of_nat (length l))
    then l !! (Z.to_nat i - s)%nat
    else None.
Proof.
  revert s. induction l as [|v l IH]; intros s Hopen Hidx.
  - simpl. case_decide; [lia|done].
  - apply Forall_cons in Hopen as [Hv Hl].
    rewrite fmap_cons in Hidx. cbn [length seq] in Hidx.
    rewrite fmap_cons in Hidx. injection Hidx as Hiv Hidx.
    cbn [List.find]. destruct (decide (Vote.index v = i)) as [Hi|Hi].
    + rewrite bool_decide_eq_true_2 by done.
      rewrite decide_True by (cbn [length]; lia).
      replace (Z.to_nat i - s)%nat with 0%nat by lia. done.
    + rewrite bool_decide_eq_false_2 by (by intros [_ ?]).
      rewrite (IH (S s)) by done. cbn [length].
      destruct (decide (Z.of_nat (S s) ≤ i < Z.of_nat (S s) + Z.of_nat (length l)))
        as [Hr|Hr].
      * rewrite decide_True by lia.
        replace (Z.to_nat i - s)%nat with (S (Z.to_nat i - S s)) by lia. done.
      * rewrite decide_False by lia. done.
Qed.

End by_index.

(** X22. After any sequence of calls from the empty manager during which
    no ballot has left Pending, [get_vote_by_index] with an index between
    1 and the number of ballots returns the ballot created at that
    position, whose display index is that index, and returns nothing for
    every other index. *)
Theorem X22_lookup_by_index (cs : list VoteManager.call) (i : Z) :
  VoteManager.never_resolved cs VoteManager.init →
  let m := VoteManager.exec_all cs VoteManager.init in
  let ballots := Dict.values (VoteManager.active_votes m) in
  (1 ≤ i ≤ Z.of_nat (length ballots) →
   ∃ vote, ballots !! (Z.to_nat i - 1)%nat = Some vote
           ∧ VoteManager.get_vote_by_index i m = Some vote
           ∧ Vote.index vote = i)
  ∧ (¬ (1 ≤ i ≤ Z.of_nat (length ballots)) →
     VoteManager.get_vote_by_index i m = None).
Proof.
  intros Hcs m ballots.
  pose proof (exec_all_numbered cs _ init_numbered Hcs) as (Hopen & Hnum & _).
  fold m in Hopen, Hnum. unfold VoteManager.all_open in Hopen.
  fold ballots in Hopen, Hnum.
  assert (length (VoteManager.active_votes m) = length ballots) as Hlen
    by (unfold ballots, Dict.values; by rewrite length_fmap).
  rewrite Hlen in Hnum. unfold VoteManager.one_to in Hnum.
  unfold VoteManager.get_vote_by_index. fold ballots.
  rewrite (find_by_index ballots 1 i Hopen Hnum). split.
  - intros Hi. rewrite decide_True by lia.
    destruct (ballots !! (Z.to_nat i - 1)%nat) as [vote|] eqn:Hl.
    + exists vote. split_and!; try done.
      assert ((Vote.index <$> ballots) !! (Z.to_nat i - 1)%nat
              = Some (Vote.index vote)) as Hix
        by (by rewrite list_lookup_fmap, Hl).
      rewrite Hnum, list_lookup_fmap in Hix.
      destruct (seq 1 (length ballots) !! (Z.to_nat i - 1)%nat) as [n|] eqn:Hn;
        [|done].
      apply lookup_seq in Hn as [-> _]. injection Hix as <-. lia.
    + apply lookup_ge_None in Hl. lia.
  - intros Hi. rewrite decide_False by lia. done.
Qed.

Lemma X22_witness :
  Vote.vote_id <$> VoteManager.get_vote_by_index 2 three_open_example
  = Some "b_2_1".
Proof.
  assert (VoteManager.never_resolved three_open_calls VoteManager.init) as H.
  { simpl. split_and!; try done; vm_compute; repeat constructor. }
  destruct (X22_lookup_by_index three_open_calls 2 H) as [Hin _].
  destruct Hin as (vote & Hl & Hfind & _); [by vm_compute|].
  unfold three_open_example. rewrite Hfind.
  revert Hl. vm_compute. by intros [= <-].
Defined.

(** ** Ballot ids *)

(** X23. The id [f"{vote_type}_{counter}_{int(time)}"] determines its
    three parts: two ids are equal only if the kinds, the counter values
    and the whole seconds of the times are equal, whatever underscores and
    digits the kinds contain. *)
Theorem X23_vote_id_is_injective (ty1 ty2 : string) (c1 c2 : Z) (t1 t2 : Q) :
  VoteManager.make_vote_id ty1 c1 t1 = VoteManager.make_vote_id ty2 c2 t2 →
  ty1 = ty2 ∧ c1 = c2 ∧ py_int t1 = py_int t2.
Proof.
  unfold VoteManager.make_vote_id. intros H.
  rewrite <- !(string_app_assoc _ (pretty _) ("_" +:+ _)) in H.
  rewrite <- !(string_app_assoc ty1), <- !(string_app_assoc ty2) in H.
  apply cut_at_last in H as [H Ht]; [|apply pretty_Z_free..].
  rewrite !(string_app_assoc _ "_" (pretty _)) in H.
  apply cut_at_last in H as [Hty Hc]; [|apply pretty_Z_free..].
  split_and!; [done | by apply (inj pretty) in Hc | by apply (inj pretty) in Ht].
Qed.

Lemma X23_witness : py_int 2.5 = py_int 2.9.
Proof.
  apply (X23_vote_id_is_injective "kick" "kick" 1 1 2.5 2.9). by vm_compute.
Defined.

(** ** The administrative handlers *)

Section handlers.
Implicit Types (m : VoteManager.t) (vote : Vote.t) (id : string).

Lemma store_get id id' vote m :
  VoteManager.get_vote id' (VoteManager.store id vote m)
  = if decide (id' = id) then Some vote else VoteManager.get_vote id' m.
Proof.
  unfold VoteManager.get_vote, VoteManager.store. simpl.
  destruct (decide (id' = id)) as [->|Hne].
  - apply dict_get_set.
  - by apply dict_get_set_ne.
Qed.

(** The loop of [_handle_remove_all] over open ballots with distinct ids,
    each stored under its id: all are cancelled, all are counted, nothing
    else is touched. *)
Lemma delete_each_from (l : list Vote.t) (n : Z) m :
  NoDup (Vote.vote_id <$> l) →
  (∀ vote, vote ∈ l →
     VoteManager.get_vote (Vote.vote_id vote) m = Some vote
     ∧ Vote.status vote = PENDING) →
  let r := foldl (λ (acc : Z * VoteManager.t) vote,
                    let '(ok, m') :=
                      VoteManager.delete_vote (Vote.vote_id vote) acc.2 in
                    (if ok then acc.1 + 1 else acc.1, m'))
                 (n, m) l in
  r.1 = n + Z.of_nat (length l)
  ∧ Dict.keys (VoteManager.active_votes r.2)
    = Dict.keys (VoteManager.active_votes m)
  ∧ VoteManager._vote_counter r.2 = VoteManager._vote_counter m
  ∧ (∀ id, VoteManager.get_vote id r.2
           = if decide (id ∈ Vote.vote_id <$> l)
             then Vote.set_status CANCELLED <$> VoteManager.get_vote id m
             else VoteManager.get_vote id m).
Proof.
  revert n m. induction l as [|v l IH]; intros n m Hnd Hl r.
  - subst r. simpl. split_and!; [lia|done..].
  - rewrite fmap_cons in Hnd. apply NoDup_cons in Hnd as [Hv Hnd].
    destruct (Hl v) as [Hget Hs]; [apply list_elem_of_here|].
    subst r. cbn [foldl snd fst].
    rewrite (delete_vote_pending _ _ _ Hget Hs).
    set (m1 := VoteManager.store _ _ m).
    destruct (IH (n + 1) m1 Hnd) as (Hcount & Hkeys & Hctr & Hlook).
    { intros vote Hin. destruct (Hl vote) as [Hg Hp];
        [by apply list_elem_of_further|].
      split; [|done]. unfold m1. rewrite store_get.
      rewrite decide_False; [done|]. intros Heq. apply Hv. rewrite <- Heq.
      apply list_elem_of_fmap. by exists vote. }
    split_and!.
    + rewrite Hcount. cbn [length]. lia.
    + rewrite Hkeys. unfold m1, VoteManager.store. simpl.
      by eapply dict_set_keys.
    + by rewrite Hctr.
    + intros id. rewrite Hlook. unfold m1. rewrite store_get, fmap_cons.
      destruct (decide (id ∈ Vote.vote_id <$> l)) as [Hin|Hnin];
      destruct (decide (id = Vote.vote_id v)) as [->|Hne].
      * done.
      * rewrite decide_True by (by apply list_elem_of_further). done.
      * rewrite decide_True by apply list_elem_of_here. by rewrite Hget.
      * rewrite decide_False; [done|].
        intros [?|?]%elem_of_cons; done.
Qed.

(** The open ballots of a manager have distinct ids. *)
Lemma pending_ids_distinct m :
  manager_ok m →
  NoDup (Vote.vote_id <$> VoteManager.get_all_pending_votes m).
Proof.
  intros (Hwf & _ & Hkey & _).
  unfold VoteManager.get_all_pending_votes, Dict.values, Dict.wf, Dict.keys in *.
  assert (Vote.vote_id <$> (VoteManager.active_votes m).*2
          = (VoteManager.active_votes m).*1) as Hids.
  { clear Hwf. induction (VoteManager.active_votes m) as [|[k v] d IH];
      [done|]. apply Forall_cons in Hkey as [Hk Hd]. csimpl.
    simpl in Hk. rewrite Hk. f_equal. by apply IH. }
  rewrite <- Hids in Hwf.
  apply (sublist_NoDup _ _ Hwf). apply fmap_sublist, sublist_filter.
Qed.

(** When every stored ballot reads as closed, none is listed as open. *)
Lemma no_pending_left m :
  Dict.wf (VoteManager.active_votes m) →
  (∀ id vote, VoteManager.get_vote id m = Some vote →
              Vote.status vote ≠ PENDING) →
  VoteManager.get_all_pending_votes m = [].
Proof.
  intros Hwf Hclosed. unfold VoteManager.get_all_pending_votes, Dict.values.
  destruct (filter _ _) as [|v l] eqn:Hf; [done|]. exfalso.
  assert (v ∈ filter (λ vote, Vote.status vote = PENDING)
                (VoteManager.active_votes m).*2) as Hv
    by (rewrite Hf; apply list_elem_of_here).
  apply list_elem_of_filter in Hv as [Hp Hv].
  apply list_elem_of_fmap in Hv as ([k v'] & -> & Hin). simpl in Hp.
  apply (Hclosed k v'); [|done]. by apply dict_elem_get.
Qed.

End handlers.

(** X24. [_handle_remove_all] in a manager built from the empty one by
    its calls: a sender who is not an admin gets the reply "admin_only"
    and with no Pending ballot the reply is "no_pending_votes", in both
    cases without any change.  Otherwise every Pending ballot becomes
    Cancelled, the broadcast count is the number of ballots that were
    Pending, no Pending ballot is left, and closed ballots, the ids and the
    id counter are as before. *)
Theorem X24_remove_all (cs : list VoteManager.call) (is_admin : bool) :
  let m := VoteManager.exec_all cs VoteManager.init in
  let pending := VoteManager.get_all_pending_votes m in
  let r := VoteSystem._handle_remove_all is_admin m in
  (is_admin = false → r = ([VoteSystem.Reply "admin_only"], m))
  ∧ (is_admin = true → pending = [] →
     r = ([VoteSystem.Reply "no_pending_votes"], m))
  ∧ (is_admin = true → pending ≠ [] →
     r.1 = [VoteSystem.Broadcast "all_votes_removed"
              (Some (Z.of_nat (length pending)))]
     ∧ VoteManager.get_all_pending_votes r.2 = []
     ∧ Dict.keys (VoteManager.active_votes r.2)
       = Dict.keys (VoteManager.active_votes m)
     ∧ VoteManager._vote_counter r.2 = VoteManager._vote_counter m
     ∧ (∀ id vote, VoteManager.get_vote id m = Some vote →
          VoteManager.get_vote id r.2
          = Some (if decide (Vote.status vote = PENDING)
                  then Vote.set_status CANCELLED vote else vote))).
Proof.
  intros m pending r. subst r. unfold VoteSystem._handle_remove_all.
  fold pending. split_and!.
  - by intros ->.
  - by intros -> ->.
  - intros -> Hne. cbn [negb].
    pose proof (manager_exec_all_ok cs _ manager_init_ok) as Hm. fold m in Hm.
    destruct (delete_each_from pending 0 m (pending_ids_distinct m Hm))
      as (Hcount & Hkeys & Hctr & Hlook).
    { intros vote Hin. by apply pending_is_stored. }
    fold (VoteSystem.delete_each pending m) in Hcount, Hkeys, Hctr, Hlook.
    destruct pending as [|v0 l] eqn:Hpending; [done|]. rewrite <- Hpending in *.
    destruct (VoteSystem.delete_each pending m) as [count m'] eqn:Hde.
    cbn [fst snd] in *.
    assert (∀ id vote, VoteManager.get_vote id m = Some vote →
              VoteManager.get_vote id m'
              = Some (if decide (Vote.status vote = PENDING)
                      then Vote.set_status CANCELLED vote else vote)) as Hall.
    { intros id vote Hget. rewrite Hlook, Hget.
      destruct Hm as (Hwf & _ & Hkey & _).
      apply dict_get_elem in Hget as Hin.
      destruct (decide (Vote.status vote = PENDING)) as [Hp|Hp].
      - rewrite decide_True; [done|]. apply list_elem_of_fmap. exists vote.
        split.
        + symmetry. by apply (proj1 (Forall_forall _ _) Hkey (id, vote)).
        + apply list_elem_of_filter. split; [done|].
          apply list_elem_of_fmap. by exists (id, vote).
      - rewrite decide_False; [done|].
        intros (v & Hid & [Hvp Hv]%list_elem_of_filter)%list_elem_of_fmap.
        apply list_elem_of_fmap in Hv as ([k v'] & -> & Hkv). simpl in *.
        pose proof (proj1 (Forall_forall _ _) Hkey _ Hkv) as Hk. simpl in Hk.
        assert (k = id) as -> by congruence.
        assert (Some v' = Some vote) as [= ->]; [|done].
        rewrite <- (dict_elem_get id v' _ Hwf Hkv).
        by rewrite <- (dict_elem_get id vote _ Hwf Hin). }
    split_and!; [f_equal; f_equal; f_equal; lia| |done|done|done].
    apply no_pending_left.
    + unfold Dict.wf. rewrite Hkeys. by destruct Hm.
    + intros id vote' Hget'.
      destruct (VoteManager.get_vote id m) as [vote|] eqn:Hget.
      * rewrite (Hall _ _ Hget) in Hget'. injection Hget' as <-.
        by destruct (decide _).
      * rewrite Hlook, Hget in Hget'. by destruct (decide _).
Qed.

Lemma X24_witness :
  (VoteSystem._handle_remove_all true three_open_example).1
  = [VoteSystem.Broadcast "all_votes_removed" (Some 3)].
Proof.
  destruct (X24_remove_all three_open_calls true) as (_ & _ & H).
  destruct H as (H & _); [done | by vm_compute|].
  unfold three_open_example. rewrite H. by vm_compute.
Defined.

(** X25. [_handle_delete], the keyword that cancels "the" ballot, in a
    manager built from the empty one by its calls: with no Pending ballot
    it replies "no_active_vote" and with two or more it replies
    "multiple_votes_cancel", changing nothing; with exactly one Pending
    ballot it cancels that ballot, broadcasts "vote_deleted" and leaves no
    Pending ballot. *)
Theorem X25_delete_keyword (cs : list VoteManager.call) :
  let m := VoteManager.exec_all cs VoteManager.init in
  let pending := VoteManager.get_all_pending_votes m in
  let r := VoteSystem._handle_delete m in
  (pending = [] → r = ([VoteSystem.Reply "no_active_vote"], m))
  ∧ ((2 ≤ length pending)%nat →
     r = ([VoteSystem.Reply "multiple_votes_cancel"], m))
  ∧ (∀ vote, pending = [vote] →
       r.1 = [VoteSystem.Broadcast "vote_deleted" None]
       ∧ VoteManager.get_vote (Vote.vote_id vote) r.2
         = Some (Vote.set_status CANCELLED vote)
       ∧ VoteManager.get_all_pending_votes r.2 = []).
Proof.
  intros m pending r. subst r. unfold VoteSystem._handle_delete.
  fold pending. split_and!.
  - by intros ->.
  - destruct pending as [|v1 [|v2 l]]; simpl; [lia|lia|done].
  - intros vote Hp. rewrite Hp.
    pose proof (manager_exec_all_ok cs _ manager_init_ok) as Hm. fold m in Hm.
    assert (vote ∈ VoteManager.get_all_pending_votes m) as Hin.
    { fold pending. rewrite Hp. apply list_elem_of_here. }
    destruct (pending_is_stored m vote Hm Hin) as [Hget Hs].
    rewrite (delete_vote_pending _ _ _ Hget Hs). cbn [fst snd].
    split_and!; [done | by rewrite store_get, decide_True |].
    destruct (dict_set_split _ _ _ Hget) as (d1 & d2 & Hd & Hset).
    unfold VoteManager.get_all_pending_votes, VoteManager.store, Dict.values
      in *. cbn [VoteManager.active_votes]. rewrite Hset.
    fold pending in Hp. unfold pending in Hp. rewrite Hd in Hp.
    rewrite !fmap_app, !fmap_cons, pending_app in *. cbn [snd] in *.
    rewrite filter_cons_True in Hp by done.
    rewrite filter_cons_False by done.
    destruct (filter _ d1.*2); [|destruct l; discriminate].
    simpl in Hp. injection Hp as Hp. by rewrite Hp.
Qed.

Lemma X25_witness :
  (VoteSystem._handle_delete one_open_example).1
  = [VoteSystem.Broadcast "vote_deleted" None].
Proof.
  destruct (X25_delete_keyword [open_ballot 0 "kick"]) as (_ & _ & H).
  destruct (H (Vote.init 0 "kick_1_0" "kick" "ann" "1" {["A"; "B"]} 1 300
                 None "vote" 1)) as (H1 & _); [by vm_compute|].
  exact H1.
Defined.

(** ** Withdrawals and decisions *)

Section withdrawals.
Implicit Types (v : Vote.t) (now : Q).

Lemma size_without (voter : string) (X : gset string) :
  Z.of_nat (size (X ∖ {[voter]})) ≤ Z.of_nat (size X).
Proof.
  assert (size (X ∖ {[voter]}) ≤ size X)%nat; [|lia].
  apply subseteq_size. set_solver.
Qed.

(** What a withdrawal leaves: the same ballot, or the ballot without the
    voter in either set. *)
Lemma withdraw_vote_result voter v :
  (Vote.withdraw_vote voter v).2 = v
  ∨ (Vote.withdraw_vote voter v).2
    = Vote.set_votes (Vote.yes_votes v ∖ {[voter]})
        (Vote.no_votes v ∖ {[voter]}) v.
Proof.
  unfold Vote.withdraw_vote.
  do 3 (destruct (decide _); [by left|]). by right.
Qed.

End withdrawals.

(** X26. A withdrawal never makes a ballot decidable: if [check_result]
    on a Pending ballot gives no decision by votes at some time (it
    returns no decision or TimedOut), then after any [withdraw_vote] it
    returns the same at that time.  So the abstain handler, which does not
    call [check_and_finalize_vote] after a withdrawal, misses no Passed or
    Rejected outcome. *)
Theorem X26_withdraw_creates_no_decision (now : Q) (voter : string)
    (v : Vote.t) :
  Vote.status v = PENDING →
  (Vote.check_result now v).1 = None
  ∨ (Vote.check_result now v).1 = Some TIMEOUT →
  (Vote.check_result now (Vote.withdraw_vote voter v).2).1
  = (Vote.check_result now v).1.
Proof.
  intros Hs Hundecided.
  destruct (withdraw_vote_result voter v) as [-> | ->]; [done|].
  set (v' := Vote.set_votes _ _ v).
  destruct (decide (Vote.eligible_voters v = ∅)) as [He|He].
  { by rewrite !check_result_nobody. }
  pose proof (total_voters_pos v He) as Hpos.
  assert (Vote.yes_count v' ≤ Vote.yes_count v) as Hy by apply size_without.
  assert (Vote.no_count v' ≤ Vote.no_count v) as Hn by apply size_without.
  destruct (check_result_cases now v Hs He)
    as [(?&Heq)|[(?&?&Heq)|[(Hnp&Hnr&Hl&Heq)|(Hnp&Hnr&Hl&Heq)]]];
    rewrite Heq in Hundecided |- *; simpl in Hundecided;
    try (destruct Hundecided; discriminate);
  destruct (check_result_cases now v' Hs He)
    as [(Hp' & _)|[(_ & Hr' & _)|[(_ & _ & Hl' & ->)|(_ & _ & Hl' & ->)]]];
    try done;
    exfalso.
  all: try (by apply Hl'). all: try (by apply Hl).
  all: try (apply Hnp; apply (Qle_trans _ _ _ Hp');
            by apply (truediv_le _ _ (Vote.total_voters v))).
  all: apply Hnr; eapply Qle_lt_trans; [|exact Hr'];
       apply (truediv_le _ _ (Vote.total_voters v)); [done|];
       change (Vote.total_voters v') with (Vote.total_voters v); lia.
Qed.

Lemma X26_witness :
  (Vote.check_result 0
     (Vote.withdraw_vote "A"
        (Vote.exec_all [Vote.Cast "A" false; Vote.Cast "B" false]
           quorum_example)).2).1 = None.
Proof.
  set (v := Vote.exec_all _ _).
  rewrite (X26_withdraw_creates_no_decision 0 "A" v);
    [by vm_compute | reflexivity | left; by vm_compute].
Defined.

(** ** The abstain handler *)

Section abstaining.
Implicit Types (m : VoteManager.t) (vote : Vote.t).

(** Whatever [_select_vote_for_abstain] picks among the open ballots of a
    manager is one of them. *)
Lemma select_is_pending index m vote out :
  VoteSystem._select_vote_for_abstain
    (VoteManager.get_all_pending_votes m) index m = (out, Some vote) →
  vote ∈ VoteManager.get_all_pending_votes m
  ∧ (∀ i, index = Some i → Vote.index vote = i).
Proof.
  unfold VoteSystem._select_vote_for_abstain. destruct index as [i|].
  - unfold VoteManager.get_vote_by_index.
    destruct (List.find _ _) as [v|] eqn:Hfind; [|done]. intros [= _ ->].
    apply List.find_some in Hfind as [Hin [Hp Hi]%bool_decide_eq_true].
    split; [|by intros ? [= <-]].
    apply list_elem_of_filter. split; [done|]. by apply list_elem_of_In.
  - destruct (VoteManager.get_all_pending_votes m) as [|v [|v2 l]]; try done.
    intros [= _ ->]. split; [apply list_elem_of_here|done].
Qed.

Lemma withdraw_vote_status voter vote :
  Vote.status (Vote.withdraw_vote voter vote).2 = Vote.status vote.
Proof.
  unfold Vote.withdraw_vote. by do 3 (destruct (decide _); [done|]).
Qed.

Lemma withdraw_vote_refused voter vote :
  (Vote.withdraw_vote voter vote).1 = false →
  (Vote.withdraw_vote voter vote).2 = vote.
Proof.
  unfold Vote.withdraw_vote. by do 3 (destruct (decide _); [done|]).
Qed.

Lemma withdraw_vote_accepted voter vote :
  (Vote.withdraw_vote voter vote).1 = true →
  (voter ∈ Vote.yes_votes vote ∨ voter ∈ Vote.no_votes vote)
  ∧ (Vote.withdraw_vote voter vote).2
    = Vote.set_votes (Vote.yes_votes vote ∖ {[voter]})
        (Vote.no_votes vote ∖ {[voter]}) vote.
Proof.
  unfold Vote.withdraw_vote. do 2 (destruct (decide _); [done|]).
  destruct (decide _) as [|Hn]; [done|]. intros _. split; [|done].
  destruct (decide (voter ∈ Vote.yes_votes vote)); [by left|].
  destruct (decide (voter ∈ Vote.no_votes vote)); [by right|].
  by destruct Hn.
Qed.

End abstaining.

(** X27. [_handle_abstain_keyword] on a manager built from the empty one
    by its calls never closes, creates or removes a ballot: the ids, the
    id counter and every status are as before.  It broadcasts
    "abstain_success" only for a voter id that is eligible for a Pending
    ballot of the manager and has a recorded vote there; then exactly that
    vote is removed from that ballot and every other ballot is unchanged.
    With any other output the manager is unchanged. *)
Theorem X27_abstain (cs : list VoteManager.call)
    (actual_voter_id : option string) (index : option Z) :
  let m := VoteManager.exec_all cs VoteManager.init in
  let r := VoteSystem._handle_abstain_keyword actual_voter_id index m in
  Dict.keys (VoteManager.active_votes r.2)
  = Dict.keys (VoteManager.active_votes m)
  ∧ VoteManager._vote_counter r.2 = VoteManager._vote_counter m
  ∧ Vote.status <$> Dict.values (VoteManager.active_votes r.2)
    = Vote.status <$> Dict.values (VoteManager.active_votes m)
  ∧ (r.1 ≠ [VoteSystem.Broadcast "abstain_success" None] → r.2 = m)
  ∧ (r.1 = [VoteSystem.Broadcast "abstain_success" None] →
     ∃ vote voter,
       actual_voter_id = Some voter
       ∧ vote ∈ VoteManager.get_all_pending_votes m
       ∧ voter ∈ Vote.eligible_voters vote
       ∧ (voter ∈ Vote.yes_votes vote ∨ voter ∈ Vote.no_votes vote)
       ∧ VoteManager.get_vote (Vote.vote_id vote) r.2
         = Some (Vote.set_votes (Vote.yes_votes vote ∖ {[voter]})
                   (Vote.no_votes vote ∖ {[voter]}) vote)
       ∧ (∀ id, id ≠ Vote.vote_id vote →
                VoteManager.get_vote id r.2 = VoteManager.get_vote id m)).
Proof.
  intros m r. subst r. unfold VoteSystem._handle_abstain_keyword.
  pose proof (manager_exec_all_ok cs _ manager_init_ok) as Hm. fold m in Hm.
  destruct (VoteManager.get_all_pending_votes m) as [|v0 l] eqn:Hpending.
  { simpl. split_and!; done. }
  rewrite <- Hpending.
  destruct (VoteSystem._select_vote_for_abstain _ index m) as [out [vote|]]
    eqn:Hsel.
  2:{ simpl. split_and!; try done. intros Hout.
      unfold VoteSystem._select_vote_for_abstain in Hsel.
      destruct index as [i|].
      - destruct (VoteManager.get_vote_by_index i m); by simplify_eq.
      - destruct (VoteManager.get_all_pending_votes m) as [|? [|??]];
          by simplify_eq. }
  apply select_is_pending in Hsel as [Hin _].
  destruct (pending_is_stored m vote Hm Hin) as [Hget Hs].
  destruct actual_voter_id as [voter|]; [|simpl; split_and!; done].
  destruct (decide (voter = EmptyString)); [simpl; split_and!; done|].
  destruct (decide (voter ∉ Vote.eligible_voters vote)) as [|Hel];
    [simpl; split_and!; done|].
  apply dec_stable in Hel.
  unfold VoteManager.withdraw_vote. rewrite Hget.
  pose proof (withdraw_vote_status voter vote) as Hst.
  pose proof (withdraw_vote_refused voter vote) as Href.
  pose proof (withdraw_vote_accepted voter vote) as Hacc.
  destruct (Vote.withdraw_vote voter vote) as [[|] vote'];
    cbn [fst snd] in *.
  - destruct (Hacc eq_refl) as [Hvoted ->].
    split_and!; try done.
    + unfold VoteManager.store. simpl. by eapply dict_set_keys.
    + unfold VoteManager.store. simpl.
      by eapply (dict_set_values Vote.status).
    + intros _. exists vote, voter. split_and!; try done.
      * by rewrite store_get, decide_True.
      * intros id Hne. by rewrite store_get, decide_False.
  - rewrite (Href eq_refl). rewrite store_same by done.
    split_and!; done.
Qed.

Lemma X27_witness :
  Vote.status <$> Dict.values (VoteManager.active_votes
    (VoteSystem._handle_abstain_keyword (Some "A") (Some 1) three_open_example).2)
  = [PENDING; PENDING; PENDING].
Proof.
  destruct (X27_abstain three_open_calls (Some "A") (Some 1)) as (_ & _ & H & _).
  unfold three_open_example. rewrite H. by vm_compute.
Defined.

(** ** The config reader *)

Section config.
Import BasicConfig.

Lemma descend_empty (keys : list string) :
  descend keys (VDict []) = Some (VDict []).
Proof. induction keys as [|k keys IH]; [done|]. simpl. exact IH. Qed.

Lemma descend_other (keys : list string) repr :
  keys ≠ [] → descend keys (VOther repr) = None.
Proof. by destruct keys. Qed.

End config.

(** X28. [BasicConfig.get_keys] walks the key path from the top: an empty
    path raises [IndexError]; a path of one key is a lookup with the
    default; for a longer path, a first key that is missing gives the
    default (no exception, however long the rest of the path), a first
    key bound to a dict continues in that dict with the rest of the path,
    and a first key bound to anything else raises [AttributeError]. *)
Theorem X28_get_keys_walks_the_path :
  (∀ default self, BasicConfig.get_keys [] default self = BasicConfig.IndexError)
  ∧ (∀ k default self,
       BasicConfig.get_keys [k] default self
       = BasicConfig.Value (from_option id default (Dict.get k self)))
  ∧ (∀ k k' ks default self,
       BasicConfig.get_keys (k :: k' :: ks) default self
       = match Dict.get k self with
         | None => BasicConfig.Value default
         | Some (BasicConfig.VDict sub) =>
             BasicConfig.get_keys (k' :: ks) default sub
         | Some (BasicConfig.VOther _) => BasicConfig.AttributeError
         end).
Proof.
  split_and!; [done|done|].
  intros k k' ks default self. unfold BasicConfig.get_keys.
  change (removelast (k :: k' :: ks)) with (k :: removelast (k' :: ks)).
  rewrite last_cons_cons. cbn [BasicConfig.descend BasicConfig.get].
  destruct (Dict.get k self) as [[sub|repr]|]; cbn [from_option id].
  - done.
  - destruct (removelast (k' :: ks)) eqn:Hr; [done|].
    by rewrite descend_other.
  - rewrite descend_empty.
    destruct (last (k' :: ks)) as [kl|] eqn:Hl; [done|].
    by apply last_None in Hl.
Qed.

(** ** The emoji placeholder *)

Section emoji.
Import McMessageBuilder.

Lemma placeholder_plain : Forall (λ c, is_emoji c = false) placeholder.
Proof. repeat constructor. Qed.

Lemma sub_from_plain in_run (t : text) :
  Forall (λ c, is_emoji c = false) (sub_from in_run t).
Proof.
  revert in_run. induction t as [|c t IH]; intros in_run; cbn [sub_from].
  - constructor.
  - destruct (is_emoji c) eqn:Hc.
    + destruct in_run; [apply IH|].
      apply Forall_app. split; [apply placeholder_plain | apply IH].
    + constructor; [done | apply IH].
Qed.

Lemma sub_from_id in_run (t : text) :
  Forall (λ c, is_emoji c = false) t → sub_from in_run t = t.
Proof.
  revert in_run. induction t as [|c t IH]; intros in_run Ht; [done|].
  apply Forall_cons in Ht as [Hc Ht]. cbn [sub_from]. rewrite Hc. by rewrite IH.
Qed.

Lemma sub_from_run (run t : text) :
  Forall (λ c, is_emoji c = true) run →
  sub_from true (run ++ t) = sub_from true t.
Proof.
  induction run as [|c run IH]; intros Hrun; [done|].
  apply Forall_cons in Hrun as [Hc Hrun]. cbn [sub_from app]. rewrite Hc. by apply IH.
Qed.

Lemma sub_from_after_run (t : text) :
  match t with [] => True | c :: _ => is_emoji c = false end →
  sub_from true t = sub_from false t.
Proof. destruct t as [|c t]; [done|]. cbn [sub_from]. by intros ->. Qed.

End emoji.

(** X29. [replace_emoji_with_placeholder] leaves no character of the
    emoji class in its result, returns a text without such characters
    unchanged, is idempotent, and replaces a whole run of emoji characters
    (followed by the end of the text or by another character) by a single
    placeholder. *)
Theorem X29_emoji_placeholder (t : McMessageBuilder.text) :
  Forall (λ c, McMessageBuilder.is_emoji c = false)
    (McMessageBuilder.replace_emoji_with_placeholder t)
  ∧ (Forall (λ c, McMessageBuilder.is_emoji c = false) t →
     McMessageBuilder.replace_emoji_with_placeholder t = t)
  ∧ McMessageBuilder.replace_emoji_with_placeholder
      (McMessageBuilder.replace_emoji_with_placeholder t)
    = McMessageBuilder.replace_emoji_with_placeholder t
  ∧ (∀ run, run ≠ [] →
       Forall (λ c, McMessageBuilder.is_emoji c = true) run →
       match t with
       | [] => True
       | c :: _ => McMessageBuilder.is_emoji c = false
       end →
       McMessageBuilder.replace_emoji_with_placeholder (run ++ t)
       = McMessageBuilder.placeholder
         ++ McMessageBuilder.replace_emoji_with_placeholder t).
Proof.
  unfold McMessageBuilder.replace_emoji_with_placeholder. split_and!.
  - apply sub_from_plain.
  - apply sub_from_id.
  - apply sub_from_id, sub_from_plain.
  - intros [|c run] Hne Hrun Ht; [done|].
    apply Forall_cons in Hrun as [Hc Hrun].
    cbn [McMessageBuilder.sub_from app]. rewrite Hc.
    by rewrite sub_from_run, sub_from_after_run.
Qed.

Lemma X29_witness :
  McMessageBuilder.replace_emoji_with_placeholder
    ([104; 105; 0x1f600; 0x1f601; 0x2764; 33]%N)
  = ([104; 105] ++ McMessageBuilder.placeholder ++ [33])%N
  ∧ McMessageBuilder.replace_emoji_with_placeholder [104; 105]%N
    = [104; 105]%N.
Proof.
  split; [by vm_compute|].
  destruct (X29_emoji_placeholder [104; 105]%N) as (_ & H & _).
  apply H. repeat constructor.
Defined.
